(** * Capture and replay core of the MRAID capture tool

    A shallow embedding of the capture/replay subsystem, one module per
    source unit:

    - [Browser]          the platform pieces the code leans on: [Math.round]
                         and the [requestAnimationFrame] queue;
    - [Compositor]       lib/capture/recorder.ts: [createCroppedStream]
                         and the [combinedCleanup] of [requestScreenCapture];
    - [Recorder]         lib/capture/recorder.ts: [createRecorder];
    - [UseRecorder]      the [useRecorder] hook (prepare / begin / stop);
    - [Home]             the page's [handleReloadAndRecord];
    - [Interaction]      types/interaction.ts;
    - [EventRecorder]    the listener-based interaction recorder;
    - [OverlayRecorder]  the focus-loss (overlay) interaction recorder;
    - [EventReplayer]    the replayer and its scheduling loop;
    - [Screenshot]       lib/capture: [captureScreenshot];
    - [InteractiveMode]  the [useInteractiveMode] hook (record / replay /
                         clear);
    - [InteractiveControls]  the controls' [formatDuration].

    [RecorderRuns], [UseRecorderRuns], [CompositorLoop], [Traces],
    [TraceBounds], [ReplayRuns], [InteractiveRuns] and [ReplayPasses] hold
    what the statements about whole sessions need: runs over lists of
    inputs and the predicates read off them.

    Conventions.  A JavaScript [number] is an exact rational ([Q]): the
    rounding of IEEE doubles, [NaN] and the infinities are outside the
    model.  DOM attributes that the platform types as integers
    ([videoWidth], [innerWidth], [Date.now()]) are [Z].  Calls into the
    browser are recorded, in program order, in a list of effects returned
    next to the new state; what the platform answers (the clock, the
    permission dialog, the encoder's events, the page layout) is an
    argument of the operation that asks for it.  Callbacks handed in by a
    caller are recorded as notifications and do not call back into the
    component. *)

From Stdlib Require Import ZArith QArith Qround List String Bool Lia Lqa.
From Stdlib Require Import Sorted Permutation.
From Stdlib Require DecimalString.
Import ListNotations.

Set Implicit Arguments.

(* ===================================================================== *)
(** * The browser: numbers and the animation-frame queue                  *)
(* ===================================================================== *)

Module Browser.

(** [Math.round]: the nearest integer, halves towards +infinity. *)
Definition Math_round (v : Q) : Z := Qfloor (v + (1 # 2)).

(** Truthiness of an integer attribute in a condition ([if (n) ...]). *)
Definition truthy (n : Z) : bool := negb (n =? 0)%Z.

(** The queue behind [requestAnimationFrame]: handles are handed out in
    increasing order; a cancelled handle is never called. *)
Record Frames := mkFrames {
  next_handle : nat;
  pending : list nat
}.

Definition no_frames : Frames := mkFrames 1 [].

Definition requestAnimationFrame (f : Frames) : nat * Frames :=
  (next_handle f,
   mkFrames (S (next_handle f)) (pending f ++ [next_handle f])).

(** [cancelAnimationFrame(undefined)] does nothing. *)
Definition cancelAnimationFrame (h : option nat) (f : Frames) : Frames :=
  match h with
  | None => f
  | Some n => mkFrames (next_handle f) (remove Nat.eq_dec n (pending f))
  end.

End Browser.

(* ===================================================================== *)
(** * Cropped-stream compositor ([createCroppedStream])                   *)
(* ===================================================================== *)

Module Compositor.

Local Open Scope Q_scope.

Definition Element := nat.
Definition Track := nat.

Record DOMRect := mkRect {
  left : Q;
  top : Q;
  rect_width : Q;
  rect_height : Q
}.

(** What one tick of the loop observes of the page and of the video sink
    playing the raw stream. *)
Record Dom := mkDom {
  getBoundingClientRect : Element -> DOMRect;
  innerWidth : Z;
  innerHeight : Z;
  videoWidth : Z;
  videoHeight : Z
}.

(** [CropConfig.element]: an element, or a function returning the current
    one (or null). *)
Inductive ElementOrGetter :=
| Direct (e : Element)
| Getter (f : Dom -> option Element).

Record CropConfig := mkCrop {
  element : ElementOrGetter;
  width : Q;
  height : Q
}.

Inductive Effect :=
| DrawImage (sx sy sw sh dx dy dw dh : Q)
| RequestAnimationFrame (h : nat)
| CancelAnimationFrame (h : option nat)
| VideoPause
| VideoDetach                      (* video.srcObject = null *)
| TrackStop (t : Track).

(** The closure variables of [createCroppedStream], with the frame queue
    the loop runs on. *)
Record State := mkState {
  isRunning : bool;
  animationId : option nat;
  frames : Browser.Frames;
  srcObject : option (list Track);
  paused : bool
}.

Definition getElement (cfg : CropConfig) (dom : Dom) : option Element :=
  match element cfg with
  | Getter f => f dom
  | Direct e => Some e
  end.

Record SourceRect := mkSource { sx : Q; sy : Q; sw : Q; sh : Q }.

Definition adLeft (cfg : CropConfig) (rect : DOMRect) : Q :=
  left rect + (rect_width rect - width cfg) / 2.

Definition adTop (cfg : CropConfig) (rect : DOMRect) : Q :=
  top rect + (rect_height rect - height cfg) / 2.

(** With a viewport of width 0 JavaScript divides to an infinity, [Q] to
    0; the theorems below assume positive sizes. *)
Definition scaleX (dom : Dom) : Q :=
  inject_Z (videoWidth dom) / inject_Z (innerWidth dom).

Definition scaleY (dom : Dom) : Q :=
  inject_Z (videoHeight dom) / inject_Z (innerHeight dom).

(** Lines 118-130: the source rectangle in video coordinates. *)
Definition sourceRect (cfg : CropConfig) (dom : Dom) (rect : DOMRect)
  : SourceRect :=
  mkSource (adLeft cfg rect * scaleX dom)
           (adTop cfg rect * scaleY dom)
           (width cfg * scaleX dom)
           (height cfg * scaleY dom).

Definition schedule (s : State) : State * list Effect :=
  let '(h, f) := Browser.requestAnimationFrame (frames s) in
  (mkState (isRunning s) (Some h) f (srcObject s) (paused s),
   [RequestAnimationFrame h]).

Definition drawFrame (cfg : CropConfig) (dom : Dom) (s : State)
  : State * list Effect :=
  if negb (isRunning s) then (s, [])
  else
    match getElement cfg dom with
    | None => schedule s
    | Some el =>
        let rect := getBoundingClientRect dom el in
        let drawn :=
          if Browser.truthy (videoWidth dom) && Browser.truthy (videoHeight dom)
          then
            let r := sourceRect cfg dom rect in
            [DrawImage (sx r) (sy r) (sw r) (sh r) 0 0 (width cfg) (height cfg)]
          else [] in
        let '(s', eff) := schedule s in
        (s', drawn ++ eff)
    end.

(** State right after [createCroppedStream] returns: the sink plays the
    source stream, no frame was requested yet. *)
Definition createCroppedStream (sourceStream : list Track) : State :=
  mkState true None Browser.no_frames (Some sourceStream) false.

(** [video.onloadedmetadata]. *)
Definition onloadedmetadata := drawFrame.

(** The browser runs the oldest pending frame callback, if any. *)
Definition tick (cfg : CropConfig) (dom : Dom) (s : State)
  : State * list Effect :=
  match Browser.pending (frames s) with
  | [] => (s, [])
  | _ :: rest =>
      drawFrame cfg dom
        (mkState (isRunning s) (animationId s)
           (Browser.mkFrames (Browser.next_handle (frames s)) rest)
           (srcObject s) (paused s))
  end.

Definition cleanup (s : State) : State * list Effect :=
  (mkState false (animationId s)
     (Browser.cancelAnimationFrame (animationId s) (frames s))
     None true,
   [CancelAnimationFrame (animationId s); VideoPause; VideoDetach]).

(** [combinedCleanup] of [requestScreenCapture]. *)
Definition combinedCleanup (rawStream : list Track) (s : State)
  : State * list Effect :=
  let '(s', eff) := cleanup s in
  (s', eff ++ map TrackStop rawStream).

(** The browser's next tick draws [r]. *)
Definition draws_on_tick (cfg : CropConfig) (dom : Dom) (s : State)
  (r : SourceRect) : Prop :=
  In (DrawImage (sx r) (sy r) (sw r) (sh r) 0 0 (width cfg) (height cfg))
     (snd (tick cfg dom s)).

(** The source rectangle lies within the raw frame. *)
Definition within_frame (dom : Dom) (r : SourceRect) : Prop :=
  0 <= sx r /\ sx r + sw r <= inject_Z (videoWidth dom) /\
  0 <= sy r /\ sy r + sh r <= inject_Z (videoHeight dom).

(** The centred ad rectangle lies within the viewport. *)
Definition within_viewport (cfg : CropConfig) (dom : Dom) (rect : DOMRect)
  : Prop :=
  0 <= adLeft cfg rect /\
  adLeft cfg rect + width cfg <= inject_Z (innerWidth dom) /\
  0 <= adTop cfg rect /\
  adTop cfg rect + height cfg <= inject_Z (innerHeight dom).

Definition is_track_stop (e : Effect) : bool :=
  match e with TrackStop _ => true | _ => false end.

(** In [l], [a] occurs and nothing satisfying [late] occurs up to it. *)
Definition strictly_before (a : Effect) (late : Effect -> bool)
  (l : list Effect) : Prop :=
  exists pre post,
    l = pre ++ a :: post /\ forallb (fun e => negb (late e)) (pre ++ [a]) = true.

(** [drawFrame] hands the rectangle [r] to [drawImage] on this tick. *)
Definition draws (cfg : CropConfig) (dom : Dom) (s : State) (r : SourceRect)
  : Prop :=
  In (DrawImage (sx r) (sy r) (sw r) (sh r) 0 0 (width cfg) (height cfg))
     (snd (drawFrame cfg dom s)).

(** A 300x250 ad whose preview frame is scrolled 20 CSS pixels above the
    top of a 1000x800 viewport captured at 1000x800. *)
Definition scrolled_rect : DOMRect := mkRect 40 (-20) 300 250.
Definition scrolled_dom : Dom :=
  mkDom (fun _ => scrolled_rect) 1000 800 1000 800.
Definition ad_300x250 : CropConfig := mkCrop (Direct 0%nat) 300 250.

(** The same ad fully visible, captured at twice the viewport size. *)
Definition visible_dom : Dom :=
  mkDom (fun _ => mkRect 40 60 320 270) 1000 800 2000 1600.

(** A getter whose reference is null (the preview is remounting). *)
Definition ad_unmounted : CropConfig := mkCrop (Getter (fun _ => None)) 300 250.

End Compositor.

(* ===================================================================== *)
(** * Recorder ([createRecorder])                                         *)
(* ===================================================================== *)

Module Recorder.

Local Open Scope Z_scope.

Definition Track := nat.

Record Blob := mkBlob {
  bytes : list Byte.byte;
  type : string
}.

Definition size (b : Blob) : nat := List.length (bytes b).

(** [new Blob(parts, { type })]: the parts' bytes, in order. *)
Definition new_Blob (parts : list Blob) (ty : string) : Blob :=
  mkBlob (flat_map bytes parts) ty.

Record RecorderOptions := mkOptions {
  opt_mimeType : option string;
  opt_videoBitsPerSecond : option Z
}.

Record RecorderState := mkRecorderState {
  isRecording : bool;
  isPaused : bool;
  duration : Z
}.

(** The closure variables of one recorder instance. *)
Record Instance := mkInstance {
  stream : list Track;
  mimeType : string;
  videoBitsPerSecond : Z;
  chunks : list Blob;
  startTime : Z;
  pausedDuration : Z;
  pauseStart : Z;
  state : RecorderState
}.

Inductive Effect :=
| MediaRecorderStart (timeslice : Z)
| MediaRecorderStop
| MediaRecorderPause
| MediaRecorderResume
| TrackStop (t : Track).

(** What the encoder fires after [mediaRecorder.stop()]. *)
Inductive EncoderEvent :=
| dataavailable (data : Blob)
| stopped
| error (event : string).

(** Settlement of the promise returned by [stop]. *)
Inductive Settled :=
| Resolved (blob : Blob)
| Rejected (message : string).

Definition createRecorder (isTypeSupported : string -> bool)
  (stream : list Track) (options : RecorderOptions) : string + Instance :=
  let mimeType :=
    match opt_mimeType options with
    | Some m => m
    | None => "video/webm;codecs=vp9"%string
    end in
  let videoBitsPerSecond :=
    match opt_videoBitsPerSecond options with
    | Some b => b
    | None => 2500000
    end in
  if negb (isTypeSupported mimeType)
  then inl ("MIME type " ++ mimeType ++ " is not supported")%string
  else inr (mkInstance stream mimeType videoBitsPerSecond [] 0 0 0
              (mkRecorderState false false 0)).

Definition set_chunks (c : list Blob) (r : Instance) : Instance :=
  mkInstance (stream r) (mimeType r) (videoBitsPerSecond r) c
    (startTime r) (pausedDuration r) (pauseStart r) (state r).

Definition ondataavailable (data : Blob) (r : Instance) : Instance :=
  if (0 <? size data)%nat then set_chunks (chunks r ++ [data]) r else r.

Definition start (now : Z) (r : Instance) : Instance * list Effect :=
  (mkInstance (stream r) (mimeType r) (videoBitsPerSecond r) []
     now 0 (pauseStart r)
     (mkRecorderState true false (duration (state r))),
   [MediaRecorderStart 100]).

(** The [onstop] handler installed by [stop]: the new instance and the
    settlement it asks for. *)
Definition onstop (now : Z) (r : Instance) : Instance * Settled :=
  let r' :=
    mkInstance (stream r) (mimeType r) (videoBitsPerSecond r) (chunks r)
      (startTime r) (pausedDuration r) (pauseStart r)
      (mkRecorderState false false (now - startTime r - pausedDuration r)) in
  match chunks r with
  | [] => (r', Rejected "No data recorded"%string)
  | _ :: _ => (r', Resolved (new_Blob (chunks r) (mimeType r)))
  end.

Definition onerror (event : string) : Settled :=
  Rejected ("Recording error: " ++ event)%string.

(** A promise is settled once: later settlements are ignored. *)
Definition settle (p : option Settled) (v : Settled) : option Settled :=
  match p with
  | Some _ => p
  | None => Some v
  end.

Fixpoint deliver (now : Z) (events : list EncoderEvent)
  (r : Instance) (p : option Settled) : Instance * option Settled :=
  match events with
  | [] => (r, p)
  | dataavailable data :: rest => deliver now rest (ondataavailable data r) p
  | stopped :: rest =>
      let '(r', v) := onstop now r in
      deliver now rest r' (settle p v)
  | error ev :: rest => deliver now rest r (settle p (onerror ev))
  end.

(** [stop()]: installs the handlers, calls [mediaRecorder.stop()], and the
    promise is settled by what the encoder fires in answer ([None]: still
    pending). *)
Definition stop (now : Z) (fired : list EncoderEvent) (r : Instance)
  : Instance * list Effect * option Settled :=
  let '(r', p) := deliver now fired r None in
  (r', [MediaRecorderStop], p).

(** A normal finalisation: the buffered data is flushed in zero or more
    [dataavailable] events, then [stop] fires. *)
Definition finalised (flushed : list Blob) : list EncoderEvent :=
  map dataavailable flushed ++ [stopped].

Definition pause (now : Z) (r : Instance) : Instance * list Effect :=
  if isRecording (state r) && negb (isPaused (state r)) then
    (mkInstance (stream r) (mimeType r) (videoBitsPerSecond r) (chunks r)
       (startTime r) (pausedDuration r) now
       (mkRecorderState (isRecording (state r)) true (duration (state r))),
     [MediaRecorderPause])
  else (r, []).

Definition resume (now : Z) (r : Instance) : Instance * list Effect :=
  if isRecording (state r) && isPaused (state r) then
    (mkInstance (stream r) (mimeType r) (videoBitsPerSecond r) (chunks r)
       (startTime r) (pausedDuration r + (now - pauseStart r)) (pauseStart r)
       (mkRecorderState (isRecording (state r)) false (duration (state r))),
     [MediaRecorderResume])
  else (r, []).

Definition getState (now : Z) (r : Instance) : RecorderState :=
  mkRecorderState (isRecording (state r)) (isPaused (state r))
    (if isRecording (state r)
     then now - startTime r - pausedDuration r
     else duration (state r)).

Definition cleanup (r : Instance) : list Effect := map TrackStop (stream r).

(** Chunks that carry data (what [ondataavailable] keeps). *)
Definition with_data (l : list Blob) : list Blob :=
  filter (fun b => (0 <? size b)%nat) l.

Definition all_with_data (l : list Blob) : Prop :=
  Forall (fun b => (0 < size b)%nat) l.

(** A settlement that is not a success with an empty artifact. *)
Definition never_empty (p : option Settled) : Prop :=
  match p with
  | Some (Resolved blob) => (0 < size blob)%nat
  | _ => True
  end.

Definition sample_chunk : Blob :=
  mkBlob [Byte.x1a; Byte.x45] "video/webm;codecs=vp9"%string.

Definition sample_recorder : Instance :=
  mkInstance [1%nat] "video/webm;codecs=vp9"%string 2500000 [] 1000 0 0
    (mkRecorderState true false 0).

End Recorder.

(* ===================================================================== *)
(** * The recording hook ([useRecorder])                                  *)
(* ===================================================================== *)

Module UseRecorder.

Definition Track := nat.

Record RecordingState := mkRecordingState {
  isRecording : bool;
  isProcessing : bool;
  processingProgress : Z;
  processingStatus : string
}.

(** The closure behind [cropCleanupRef]: the compositor of the session and
    the raw stream it crops. *)
Record CropSession := mkCropSession {
  cropConfig : Compositor.CropConfig;
  rawStream : list Track;
  compositor : Compositor.State
}.

Record Hook := mkHook {
  onRecordingComplete : bool;          (* was the option given? *)
  state : RecordingState;
  isPrepared : bool;
  isPreparedRef : bool;
  recorderRef : option Recorder.Instance;
  streamRef : option (list Track);
  cropCleanupRef : option CropSession
}.

(** What the platform answers while a session is being set up. *)
Record Env := mkEnv {
  isSupported : bool;                       (* checkRecordingSupport() *)
  getDisplayMedia : string + list Track;    (* rejection, or the raw stream *)
  captureStream : list Track;               (* canvas.captureStream(30) *)
  isTypeSupported : string -> bool
}.

Inductive Effect :=
| ConsoleError (msg : string)
| GetDisplayMedia
| Rec (e : Recorder.Effect)
| Crop (e : Compositor.Effect)
| RecordingComplete (blob : Recorder.Blob).

(** How an [async] function ends. *)
Inductive Completion (A : Type) :=
| Returned (v : A)
| Threw (message : string)
| Pending.

Arguments Returned {A} v.
Arguments Threw {A} message.
Arguments Pending {A}.

Definition initial (onRecordingComplete : bool) : Hook :=
  mkHook onRecordingComplete (mkRecordingState false false 0 EmptyString)
    false false None None None.

Definition requestScreenCapture (env : Env)
  (cropConfig : option Compositor.CropConfig)
  : string + (list Track * option CropSession) :=
  match getDisplayMedia env with
  | inl err => inl err
  | inr rawStream =>
      match cropConfig with
      | Some cfg =>
          inr (captureStream env,
               Some (mkCropSession cfg rawStream
                       (Compositor.createCroppedStream rawStream)))
      | None => inr (rawStream, None)
      end
  end.

(** Capture is requested with [audio: false]: every track is a video
    track. *)
Definition getVideoTracks (stream : list Track) : list Track := stream.

(** The [TypeError] of assigning [onended] on a missing first track. *)
Definition no_video_track : string :=
  "Cannot set properties of undefined (setting 'onended')".

Definition set_isRecording (b : bool) (st : RecordingState) : RecordingState :=
  mkRecordingState b (isProcessing st) (processingProgress st)
    (processingStatus st).

Definition prepareRecording (env : Env)
  (cropConfig : option Compositor.CropConfig) (h : Hook)
  : Hook * list Effect * Completion unit :=
  if negb (isSupported env) then
    (h, [], Threw "Screen recording is not supported in this browser")
  else
    match requestScreenCapture env cropConfig with
    | inl err =>
        (h, [GetDisplayMedia; ConsoleError "Failed to prepare recording:"],
         Threw err)
    | inr (stream, cleanup) =>
        match Recorder.createRecorder (isTypeSupported env) stream
                (Recorder.mkOptions None None) with
        | inl err =>
            (mkHook (onRecordingComplete h) (state h) (isPrepared h)
               (isPreparedRef h) (recorderRef h) (Some stream) cleanup,
             [GetDisplayMedia; ConsoleError "Failed to prepare recording:"],
             Threw err)
        | inr recorder =>
            match getVideoTracks stream with
            | [] =>
                (* [getVideoTracks()[0].onended = ...] on undefined *)
                (mkHook (onRecordingComplete h) (state h) (isPrepared h)
                   (isPreparedRef h) (Some recorder) (Some stream) cleanup,
                 [GetDisplayMedia;
                  ConsoleError "Failed to prepare recording:"],
                 Threw no_video_track)
            | _ :: _ =>
                (mkHook (onRecordingComplete h) (state h) true true
                   (Some recorder) (Some stream) cleanup,
                 [GetDisplayMedia], Returned tt)
            end
        end
    end.

Definition startRecording (env : Env) (now : Z)
  (cropConfig : option Compositor.CropConfig) (h : Hook)
  : Hook * list Effect * Completion unit :=
  if negb (isSupported env) then
    (h, [], Threw "Screen recording is not supported in this browser")
  else
    match requestScreenCapture env cropConfig with
    | inl err =>
        (h, [GetDisplayMedia; ConsoleError "Failed to start recording:"],
         Threw err)
    | inr (stream, cleanup) =>
        match Recorder.createRecorder (isTypeSupported env) stream
                (Recorder.mkOptions None None) with
        | inl err =>
            (mkHook (onRecordingComplete h) (state h) (isPrepared h)
               (isPreparedRef h) (recorderRef h) (Some stream) cleanup,
             [GetDisplayMedia; ConsoleError "Failed to start recording:"],
             Threw err)
        | inr recorder =>
            match getVideoTracks stream with
            | [] =>
                (mkHook (onRecordingComplete h) (state h) (isPrepared h)
                   (isPreparedRef h) (Some recorder) (Some stream) cleanup,
                 [GetDisplayMedia;
                  ConsoleError "Failed to start recording:"],
                 Threw no_video_track)
            | _ :: _ =>
                let '(started, eff) := Recorder.start now recorder in
                (mkHook (onRecordingComplete h)
                   (set_isRecording true (state h))
                   (isPrepared h) (isPreparedRef h)
                   (Some started) (Some stream) cleanup,
                 GetDisplayMedia :: map Rec eff, Returned tt)
            end
        end
    end.

Definition beginPreparedRecording (now : Z) (h : Hook)
  : Hook * list Effect :=
  match recorderRef h, isPreparedRef h with
  | Some recorder, true =>
      let '(started, eff) := Recorder.start now recorder in
      (mkHook (onRecordingComplete h) (set_isRecording true (state h))
         false false (Some started) (streamRef h) (cropCleanupRef h),
       map Rec eff)
  | _, _ => (h, [ConsoleError "No prepared recording to start"])
  end.

(** Calling [cropCleanupRef.current], when set. *)
Definition cropCleanup (c : option CropSession) : list Effect :=
  match c with
  | Some session =>
      map Crop (snd (Compositor.combinedCleanup (rawStream session)
                       (compositor session)))
  | None => []
  end.

Definition recorderCleanup (r : option Recorder.Instance) : list Effect :=
  match r with
  | Some recorder => map Rec (Recorder.cleanup recorder)
  | None => []
  end.


Definition stopRecording (now : Z) (fired : list Recorder.EncoderEvent)
  (h : Hook) : Hook * list Effect * Completion (option Recorder.Blob) :=
  match recorderRef h with
  | None => (h, [], Returned None)
  | Some recorder =>
      let '(stopped, eff, settled) := Recorder.stop now fired recorder in
      match settled with
      | Some (Recorder.Resolved blob) =>
          (mkHook (onRecordingComplete h)
             (mkRecordingState false false 100 EmptyString)
             (isPrepared h) (isPreparedRef h) None None None,
           map Rec eff ++ recorderCleanup (Some stopped)
             ++ cropCleanup (cropCleanupRef h)
             ++ (if onRecordingComplete h then [RecordingComplete blob] else []),
           Returned (Some blob))
      | Some (Recorder.Rejected message) =>
          (mkHook (onRecordingComplete h)
             (mkRecordingState false false 0 EmptyString)
             (isPrepared h) (isPreparedRef h) None None None,
           map Rec eff ++ [ConsoleError "Failed to stop recording:"]
             ++ recorderCleanup (Some stopped)
             ++ cropCleanup (cropCleanupRef h),
           Threw message)
      | None =>
          (mkHook (onRecordingComplete h)
             (mkRecordingState (isRecording (state h)) true
                (processingProgress (state h)) "Stopping recording...")
             (isPrepared h) (isPreparedRef h) (Some stopped)
             (streamRef h) (cropCleanupRef h),
           map Rec eff, Pending)
      end
  end.

(** A session is prepared when a recorder is held and the flag is set. *)
Definition prepared (h : Hook) : bool :=
  match recorderRef h with
  | Some _ => isPreparedRef h
  | None => false
  end.

Definition granting : Env :=
  mkEnv true (inr [1%nat]) [2%nat] (fun _ => true).

Definition denying : Env :=
  mkEnv true (inl "Permission denied"%string) [2%nat] (fun _ => true).

End UseRecorder.

(* ===================================================================== *)
(** * The page: reload and record ([handleReloadAndRecord])               *)
(* ===================================================================== *)

Module Home.

Inductive RecordingMode := fullscreen | clip.

Record Page := mkPage {
  loadedTag : option string;
  isAdReady : bool;
  isStartingCapture : bool;
  countdown : option nat;
  previewKey : nat;
  recordingMode : RecordingMode;
  dimensionsRef : Q * Q;
  previewFrameRef : Compositor.Dom -> option Compositor.Element;
  recorder : UseRecorder.Hook
}.

Inductive Step :=
| SetIsStartingCapture (b : bool)
| PrepareRecording (cropConfig : option Compositor.CropConfig)
| Hooked (e : UseRecorder.Effect)
| SetCountdown (c : option nat)
| Wait (ms : Z)
| SetIsAdReady (b : bool)
| SetPreviewKey (k : nat)
| BeginPreparedRecording
| ConsoleError (msg : string).

(** [for (let i = n; i >= 1; i--) { setCountdown(i); await 1000ms }] *)
Fixpoint countdown_loop (i : nat) : list Step :=
  match i with
  | O => []
  | S j => SetCountdown (Some i) :: Wait 1000 :: countdown_loop j
  end.

Definition cropConfig_of (p : Page) : option Compositor.CropConfig :=
  match recordingMode p with
  | clip =>
      Some (Compositor.mkCrop (Compositor.Getter (previewFrameRef p))
              (fst (dimensionsRef p)) (snd (dimensionsRef p)))
  | fullscreen => None
  end.

Definition handleReloadAndRecord (env : UseRecorder.Env) (now : Z) (p : Page)
  : Page * list Step :=
  match loadedTag p with
  | None => (p, [])
  | Some _ =>
      let cropConfig := cropConfig_of p in
      let '(hook1, eff1, result) :=
        UseRecorder.prepareRecording env cropConfig (recorder p) in
      match result with
      | UseRecorder.Returned _ =>
          let '(hook2, eff2) :=
            UseRecorder.beginPreparedRecording now hook1 in
          (mkPage (loadedTag p) false false None (S (previewKey p))
             (recordingMode p) (dimensionsRef p) (previewFrameRef p) hook2,
           [SetIsStartingCapture true; PrepareRecording cropConfig]
             ++ map Hooked eff1
             ++ countdown_loop 3
             ++ [SetCountdown None; SetIsAdReady false;
                 SetPreviewKey (S (previewKey p)); BeginPreparedRecording]
             ++ map Hooked eff2
             ++ [SetIsStartingCapture false])
      | _ =>
          (mkPage (loadedTag p) (isAdReady p) false None (previewKey p)
             (recordingMode p) (dimensionsRef p) (previewFrameRef p) hook1,
           [SetIsStartingCapture true; PrepareRecording cropConfig]
             ++ map Hooked eff1
             ++ [ConsoleError "Failed to start reload-and-record:";
                 SetCountdown None; SetIsStartingCapture false])
      end
  end.

(** Countdown ticks, the reload and the start of the recording. *)
Definition after_prepare (s : Step) : bool :=
  match s with
  | SetCountdown (Some _) | Wait _ | SetIsAdReady _ | SetPreviewKey _
  | BeginPreparedRecording => true
  | Hooked (UseRecorder.Rec (Recorder.MediaRecorderStart _)) => true
  | _ => false
  end.

Definition sample_page : Page :=
  mkPage (Some "<script src=ad.js></script>"%string) true false None 4 clip
    (300, 250)%Q (fun _ => Some 0%nat) (UseRecorder.initial true).

End Home.

(* ===================================================================== *)
(** * Interaction traces (types/interaction.ts)                           *)
(* ===================================================================== *)

Module Interaction.

Inductive InteractionEventType :=
| click | mousedown | mouseup | mousemove
| touchstart | touchmove | touchend | scroll.

Record TouchPoint := mkTouchPoint {
  touch_x : Q;
  touch_y : Q;
  identifier : option Z
}.

Record InteractionEvent := mkEvent {
  type : InteractionEventType;
  timestamp : Q;                 (* milliseconds since recording started *)
  x : Q;
  y : Q;
  target : option string;
  scrollTop : option Q;
  scrollLeft : option Q;
  touches : option (list TouchPoint);
  button : option Z
}.

(** [events.length > 0 ? events[events.length - 1].timestamp : 0] *)
Definition last_timestamp (events : list InteractionEvent) : Q :=
  if (0 <? List.length events)%nat then
    match nth_error events (List.length events - 1) with
    | Some e => timestamp e
    | None => 0
    end
  else 0.

(** The timestamp of the last element of the list, read off the list
    itself; 0 for the empty list. *)
Fixpoint final_timestamp (events : list InteractionEvent) : Q :=
  match events with
  | [] => 0
  | [e] => timestamp e
  | _ :: rest => final_timestamp rest
  end.

Definition a_click (t : Q) : InteractionEvent :=
  mkEvent click t 10 20 None None None None None.

End Interaction.

(* ===================================================================== *)
(** * Event recorder (same-origin listener based)                         *)
(* ===================================================================== *)

Module EventRecorder.

Import Interaction.
Local Open Scope Q_scope.

Definition MOUSEMOVE_THROTTLE : Q := 16.

Definition Document := nat.

Record Touch := mkTouch {
  clientX : Q;
  clientY : Q;
  touch_identifier : Z
}.

(** Where a non-pointer event was fired: on an element (with its scroll
    offsets), on a document (with its root element's offsets), elsewhere. *)
Inductive EventTarget :=
| OnElement (top left : Q)
| OnDocument (doc : Document) (top left : Q)
| Elsewhere.

(** The DOM events the handlers see.  [selector] is
    [getElementSelector(event.target)] when the target is an element. *)
Inductive DomEvent :=
| MouseEvent (clientX clientY : Q) (button : Z) (selector : option string)
| TouchEvent (touches changedTouches : list Touch) (selector : option string)
| OtherEvent (on : EventTarget).

Record State := mkState {
  events : list InteractionEvent;
  startTime : Q;
  isRecording : bool;
  listeners : list InteractionEventType;
  lastMouseMoveTime : Q;
  targetDocument : option Document
}.

Definition fresh : State := mkState [] 0 false [] 0 None.

Definition eventTypes : list InteractionEventType :=
  [click; mousedown; mouseup; mousemove;
   touchstart; touchmove; touchend; scroll].

(** [start(iframe)]; [contentDocument] is null across origins. *)
Definition start (contentDocument : option Document) (now : Q) (r : State)
  : State * bool :=
  if isRecording r then (r, false)
  else
    match contentDocument with
    | None => (r, false)
    | Some iframeDoc =>
        (mkState [] now true eventTypes (lastMouseMoveTime r) (Some iframeDoc),
         true)
    end.

Definition stop (r : State) : State * list InteractionEvent :=
  if negb (isRecording r) then (r, events r)
  else
    (mkState (events r) (startTime r) false
       (match targetDocument r with Some _ => [] | None => listeners r end)
       (lastMouseMoveTime r) None,
     events r).

Definition getEventCount (r : State) : nat := List.length (events r).

Definition getDuration (now : Q) (r : State) : Q :=
  if negb (isRecording r) then last_timestamp (events r)
  else now - startTime r.

Definition clear (r : State) : State :=
  mkState [] (startTime r) (isRecording r) (listeners r)
    (lastMouseMoveTime r) (targetDocument r).

Definition createInteractionEvent (r : State) (ty : InteractionEventType)
  (event : DomEvent) (timestamp : Q) : option InteractionEvent :=
  match event with
  | MouseEvent cx cy b selector =>
      Some (mkEvent ty (inject_Z (Browser.Math_round timestamp)) cx cy
              selector None None None (Some b))
  | TouchEvent ts changed selector =>
      let touches :=
        map (fun t => mkTouchPoint (clientX t) (clientY t)
                        (Some (touch_identifier t))) ts in
      let primaryTouch :=
        match ts with
        | t :: _ => Some t
        | [] => match changed with t :: _ => Some t | [] => None end
        end in
      Some (mkEvent ty (inject_Z (Browser.Math_round timestamp))
              (match primaryTouch with Some t => clientX t | None => 0 end)
              (match primaryTouch with Some t => clientY t | None => 0 end)
              selector None None (Some touches) None)
  | OtherEvent on =>
      match ty with
      | scroll =>
          let '(scrollTop, scrollLeft) :=
            match on with
            | OnElement t l => (t, l)
            | OnDocument d t l =>
                match targetDocument r with
                | Some d' => if Nat.eqb d d' then (t, l) else (0, 0)
                | None => (0, 0)
                end
            | Elsewhere => (0, 0)
            end in
          Some (mkEvent ty (inject_Z (Browser.Math_round timestamp)) 0 0
                  None (Some scrollTop) (Some scrollLeft) None None)
      | _ => None
      end
  end.

Definition set_lastMouseMoveTime (t : Q) (r : State) : State :=
  mkState (events r) (startTime r) (isRecording r) (listeners r) t
    (targetDocument r).

Definition push (e : InteractionEvent) (r : State) : State :=
  mkState (events r ++ [e]) (startTime r) (isRecording r) (listeners r)
    (lastMouseMoveTime r) (targetDocument r).

Definition is_mousemove (ty : InteractionEventType) : bool :=
  match ty with mousemove => true | _ => false end.

(** The listener built by [createHandler(eventType)]. *)
Definition createHandler (eventType : InteractionEventType)
  (event : DomEvent) (now : Q) (r : State) : State :=
  if negb (isRecording r) then r
  else
    let timestamp := now - startTime r in
    let throttled :=
      is_mousemove eventType
      && negb (Qle_bool MOUSEMOVE_THROTTLE (timestamp - lastMouseMoveTime r)) in
    if throttled then r
    else
      let r1 :=
        if is_mousemove eventType then set_lastMouseMoveTime timestamp r
        else r in
      match createInteractionEvent r1 eventType event timestamp with
      | Some interactionEvent => push interactionEvent r1
      | None => r1
      end.

End EventRecorder.

(* ===================================================================== *)
(** * Overlay recorder (focus-loss click heuristic)                       *)
(* ===================================================================== *)

Module OverlayRecorder.

Import Interaction.
Local Open Scope Q_scope.

Record State := mkState {
  events : list InteractionEvent;
  startTime : Q;
  isRecording : bool;
  overlay : bool;                      (* is the visual overlay mounted? *)
  iframe : bool;                       (* is an iframe held? *)
  width : Q;
  height : Q;
  onEventCountChange : bool;           (* was the callback given? *)
  lastMouseX : Q;
  lastMouseY : Q;
  isMouseOverAd : bool
}.

Inductive Effect :=
| EventCountChange (count : nat)
| ClickRipple (x y : Q)
| FocusWindowAfter (ms : Z).

Definition fresh : State :=
  mkState [] 0 false false false 0 0 false 0 0 false.

(** [start(options)]; [hasIframe]: the container holds an iframe. *)
Definition start (hasIframe : bool) (w h : Q) (callback : bool) (now : Q)
  (r : State) : State * bool :=
  if isRecording r then (r, false)
  else if negb hasIframe then (r, false)
  else
    (mkState [] now true true true w h callback
       (lastMouseX r) (lastMouseY r) (isMouseOverAd r),
     true).

Definition stop (r : State) : State * list InteractionEvent :=
  if negb (isRecording r) then (r, events r)
  else
    (mkState (events r) (startTime r) false false false (width r) (height r)
       (onEventCountChange r) (lastMouseX r) (lastMouseY r) (isMouseOverAd r),
     events r).

Definition getEventCount (r : State) : nat := List.length (events r).

Definition getDuration (now : Q) (r : State) : Q :=
  if negb (isRecording r) then last_timestamp (events r)
  else now - startTime r.

Definition clear (r : State) : State :=
  mkState [] (startTime r) (isRecording r) (overlay r) (iframe r)
    (width r) (height r) (onEventCountChange r)
    (lastMouseX r) (lastMouseY r) (isMouseOverAd r).

Definition push (e : InteractionEvent) (r : State) : State * list Effect :=
  (mkState (events r ++ [e]) (startTime r) (isRecording r) (overlay r)
     (iframe r) (width r) (height r) (onEventCountChange r)
     (lastMouseX r) (lastMouseY r) (isMouseOverAd r),
   if onEventCountChange r
   then [EventCountChange (List.length (events r ++ [e]))] else []).

Definition round (v : Q) : Q := inject_Z (Browser.Math_round v).

Definition recordEvent (ty : InteractionEventType) (x y timestamp : Q)
  (button : option Z) (r : State) : State * list Effect :=
  push (mkEvent ty (round timestamp) (round x) (round y)
          None None None None button) r.

Definition recordTouchEvent (ty : InteractionEventType) (x y timestamp : Q)
  (touches : option (list TouchPoint)) (r : State) : State * list Effect :=
  push (mkEvent ty (round timestamp) (round x) (round y)
          None None None touches None) r.

Definition showClickRipple (x y : Q) (r : State) : list Effect :=
  if overlay r then [ClickRipple x y] else [].

Definition inside (r : State) (x y : Q) : bool :=
  Qle_bool 0 x && Qle_bool 0 y && Qle_bool x (width r) && Qle_bool y (height r).

(** [onMouseMove]; [left], [top]: the iframe's bounding box origin. *)
Definition onMouseMove (left top clientX clientY : Q) (r : State) : State :=
  if negb (isRecording r) || negb (iframe r) then r
  else
    let x := clientX - left in
    let y := clientY - top in
    let over := inside r x y in
    mkState (events r) (startTime r) (isRecording r) (overlay r) (iframe r)
      (width r) (height r) (onEventCountChange r)
      (if over then x else lastMouseX r)
      (if over then y else lastMouseY r)
      over.

Definition onWindowBlur (now : Q) (r : State) : State * list Effect :=
  if negb (isRecording r) || negb (isMouseOverAd r) then (r, [])
  else
    let timestamp := now - startTime r in
    let x := lastMouseX r in
    let y := lastMouseY r in
    let '(r', eff) := recordEvent click x y timestamp None r in
    (r', eff ++ showClickRipple x y r' ++ [FocusWindowAfter 100]).

Definition onTouchStart (left top : Q) (touches : list EventRecorder.Touch)
  (now : Q) (r : State) : State * list Effect :=
  if negb (isRecording r) || negb (iframe r) then (r, [])
  else
    match touches with
    | [] => (r, [])
    | touch :: _ =>
        let x := EventRecorder.clientX touch - left in
        let y := EventRecorder.clientY touch - top in
        if negb (inside r x y) then (r, [])
        else
          let timestamp := now - startTime r in
          let points :=
            map (fun t =>
                   mkTouchPoint (round (EventRecorder.clientX t - left))
                     (round (EventRecorder.clientY t - top))
                     (Some (EventRecorder.touch_identifier t))) touches in
          let '(r', eff) :=
            recordTouchEvent touchstart x y timestamp (Some points) r in
          (r', eff ++ showClickRipple x y r')
    end.

(** A session: the pointer moves over the ad, the window loses focus at
    1200.4 ms, and the recorder is stopped later. *)
Definition clicked_once : State :=
  fst (onWindowBlur (12004 # 10)
         (onMouseMove 100 50 130 90
            (fst (start true 300 250 true 0 fresh)))).

End OverlayRecorder.

(* ===================================================================== *)
(** * Event replayer                                                      *)
(* ===================================================================== *)

Module EventReplayer.

Import Interaction.
Local Open Scope Q_scope.

Definition Element := nat.

(** The content document, as far as the replayer queries it.
    [querySelector] answers [None] both for no match and for a selector it
    rejects (the exception is swallowed by [findTarget]). *)
Record Document := mkDocument {
  querySelector : string -> option Element;
  elementFromPoint : Q -> Q -> option Element;
  body : Element;
  documentElement : Element;
  touchConstructible : bool     (* do [new Touch], [new TouchEvent] work? *)
}.

Record TouchInit := mkTouchInit {
  init_identifier : Z;
  init_x : Q;
  init_y : Q
}.

(** What [dispatchEvent] does to the content, in program order. *)
Inductive Dispatch :=
| SynthMouse (name : string) (on : Element) (clientX clientY : Q)
    (button buttons : Z)
| SynthPointer (name : string) (on : Element) (clientX clientY : Q)
    (button buttons : Z) (pointerType : string)
| SynthTouch (name : string) (on : Element)
    (touches targetTouches changedTouches : list TouchInit)
| AssignScrollTop (on : Element) (v : Q)
| AssignScrollLeft (on : Element) (v : Q)
| SynthScroll (on : Element)
| WarnDispatch.                 (* the [catch] of [dispatchEvent] *)

(** A callback slot: missing, supplied by the caller, or the wrapper that
    [play] installs around the previous content of the slot. *)
Inductive Handler :=
| Absent
| Given
| Wrapped (original : Handler).

Record ReplayCallbacks := mkCallbacks {
  onProgress : Handler;
  onComplete : Handler;
  onError : Handler
}.

Inductive Notice :=
| Progress (current total : nat)
| Complete
| Failed (message : string).

Inductive Effect :=
| ConsoleWarn (msg : string)
| ConsoleLog (msg : string)
| ReadContentDocument               (* iframe.contentDocument is read *)
| Dispatched (event : InteractionEvent) (dom : list Dispatch)
| Callback (n : Notice)             (* a caller's callback runs *)
| PromiseResolve
| PromiseReject (message : string)
| RequestAnimationFrame (h : nat).

Inductive Outcome :=
| Returned                          (* the async function returned *)
| Threw (message : string)
| Awaiting.                         (* settled by the loop's callbacks *)

Record State := mkState {
  events : list InteractionEvent;
  isPlaying : bool;
  startTime : Q;
  currentIndex : nat;
  animationId : option nat;
  targetDocument : option Document;
  callbacks : ReplayCallbacks;
  frames : Browser.Frames
}.

Definition fresh : State :=
  mkState [] false 0 0 None None (mkCallbacks Absent Absent Absent)
    Browser.no_frames.

(** [h?.(...)]: run the slot, then what its wrappers add. *)
Fixpoint call (h : Handler) (n : Notice) (settle : Effect) : list Effect :=
  match h with
  | Absent => []
  | Given => [Callback n]
  | Wrapped original => call original n settle ++ [settle]
  end.

Definition call_onProgress (c : ReplayCallbacks) (current total : nat) :=
  call (onProgress c) (Progress current total) PromiseResolve.

Definition call_onComplete (c : ReplayCallbacks) :=
  call (onComplete c) Complete PromiseResolve.

Definition call_onError (c : ReplayCallbacks) (message : string) :=
  call (onError c) (Failed message) (PromiseReject message).

(** [Array.prototype.sort] with the comparator
    [(a, b) => a.timestamp - b.timestamp]: a stable sort, here by
    insertion. *)
Fixpoint insert (e : InteractionEvent) (l : list InteractionEvent)
  : list InteractionEvent :=
  match l with
  | [] => [e]
  | h :: t =>
      if Qle_bool (timestamp e) (timestamp h) then e :: l
      else h :: insert e t
  end.

Definition sort (l : list InteractionEvent) : list InteractionEvent :=
  fold_right insert [] l.

Definition loadEvents (evs : list InteractionEvent) (r : State) : State :=
  mkState (sort evs) (isPlaying r) (startTime r) 0 (animationId r)
    (targetDocument r) (callbacks r) (frames r).

Definition type_name (ty : InteractionEventType) : string :=
  match ty with
  | click => "click" | mousedown => "mousedown" | mouseup => "mouseup"
  | mousemove => "mousemove" | touchstart => "touchstart"
  | touchmove => "touchmove" | touchend => "touchend" | scroll => "scroll"
  end.

(** [event.type.replace("mouse", "pointer")] *)
Definition pointer_name (ty : InteractionEventType) : string :=
  match ty with
  | mousedown => "pointerdown" | mouseup => "pointerup"
  | mousemove => "pointermove"
  | other => type_name other
  end.

Definition findTarget (doc : Document) (event : InteractionEvent) : Element :=
  let byPoint :=
    match elementFromPoint doc (x event) (y event) with
    | Some el => el
    | None => body doc
    end in
  match target event with
  | Some selector =>
      if String.eqb selector EmptyString then byPoint
      else
        match querySelector doc selector with
        | Some el => el
        | None => byPoint
        end
  | None => byPoint
  end.

Definition or_zero (b : option Z) : Z :=
  match b with Some v => v | None => 0%Z end.

Definition dispatchMouseEvent (event : InteractionEvent) (on : Element)
  : list Dispatch :=
  let buttons := match type event with mousedown => 1%Z | _ => 0%Z end in
  [SynthMouse (type_name (type event)) on (x event) (y event)
     (or_zero (button event)) buttons;
   SynthPointer (pointer_name (type event)) on (x event) (y event)
     (or_zero (button event)) buttons "mouse"].

Fixpoint touchList (index : nat) (l : list TouchPoint) : list TouchInit :=
  match l with
  | [] => []
  | t :: rest =>
      mkTouchInit
        (match identifier t with Some i => i | None => Z.of_nat index end)
        (touch_x t) (touch_y t)
      :: touchList (S index) rest
  end.

Definition dispatchTouchEvent (doc : Document) (event : InteractionEvent)
  (on : Element) : list Dispatch :=
  if negb (touchConstructible doc) then [WarnDispatch]
  else
    let touches :=
      match touches event with
      | Some l => l
      | None => [mkTouchPoint (x event) (y event) None]
      end in
    let list := touchList 0 touches in
    let active :=
      match type event with
      | touchstart | touchmove => list
      | _ => []
      end in
    let pointerType :=
      match type event with
      | touchstart => "pointerdown"%string
      | touchend => "pointerup"%string
      | _ => "pointermove"%string
      end in
    [SynthTouch (type_name (type event)) on active active list;
     SynthPointer pointerType on (x event) (y event) 0 0 "touch"].

Definition assign (f : Element -> Q -> Dispatch) (on : Element)
  (v : option Q) : list Dispatch :=
  match v with Some q => [f on q] | None => [] end.

Definition dispatchScrollEvent (doc : Document) (event : InteractionEvent)
  (on : Element) : list Dispatch :=
  let scrolled :=
    if Nat.eqb on (body doc) || Nat.eqb on (documentElement doc)
    then documentElement doc else on in
  assign AssignScrollTop scrolled (scrollTop event)
    ++ assign AssignScrollLeft scrolled (scrollLeft event)
    ++ [SynthScroll on].

Definition dispatchEvent (doc : Document) (event : InteractionEvent)
  : list Dispatch :=
  let on := findTarget doc event in
  match type event with
  | click | mousedown | mouseup | mousemove => dispatchMouseEvent event on
  | touchstart | touchmove | touchend => dispatchTouchEvent doc event on
  | scroll => dispatchScrollEvent doc event on
  end.

Definition set_currentIndex (i : nat) (r : State) : State :=
  mkState (events r) (isPlaying r) (startTime r) i (animationId r)
    (targetDocument r) (callbacks r) (frames r).

(** [this.dispatchEvent(event)]: nothing without a target document. *)
Definition dispatched (r : State) (event : InteractionEvent) : list Effect :=
  match targetDocument r with
  | Some doc => [Dispatched event (dispatchEvent doc event)]
  | None => []
  end.

(** The [while] loop of [replayLoop]; [fuel] bounds its iterations. *)
Fixpoint dispatch_due (fuel : nat) (elapsed : Q) (r : State)
  : State * list Effect :=
  match fuel with
  | O => (r, [])
  | S fuel' =>
      match nth_error (events r) (currentIndex r) with
      | Some event =>
          if Qle_bool (timestamp event) elapsed then
            let r1 := set_currentIndex (S (currentIndex r)) r in
            let '(r2, log) := dispatch_due fuel' elapsed r1 in
            (r2,
             dispatched r event
               ++ call_onProgress (callbacks r1) (currentIndex r1)
                    (List.length (events r1))
               ++ log)
          else (r, [])
      | None => (r, [])
      end
  end.

Definition replayLoop (now : Q) (r : State) : State * list Effect :=
  match isPlaying r, targetDocument r with
  | true, Some _ =>
      let elapsed := now - startTime r in
      let '(r1, log) :=
        dispatch_due (List.length (events r) - currentIndex r) elapsed r in
      if (List.length (events r1) <=? currentIndex r1)%nat then
        (mkState (events r1) false (startTime r1) (currentIndex r1)
           (animationId r1) (targetDocument r1) (callbacks r1) (frames r1),
         log ++ [ConsoleLog "Replay complete"] ++ call_onComplete (callbacks r1))
      else
        let '(h, f) := Browser.requestAnimationFrame (frames r1) in
        (mkState (events r1) (isPlaying r1) (startTime r1) (currentIndex r1)
           (Some h) (targetDocument r1) (callbacks r1) f,
         log ++ [RequestAnimationFrame h])
  | _, _ => (r, [])
  end.

(** [play(iframe, callbacks)].  [now] is the clock when the replay starts,
    [first] the clock read by the first, synchronous pass of the loop. *)
Definition play (now first : Q) (contentDocument : option Document)
  (cb : ReplayCallbacks) (r : State) : State * list Effect * Outcome :=
  if isPlaying r then (r, [ConsoleWarn "Already playing"], Returned)
  else if (List.length (events r) =? 0)%nat then
    (r, ConsoleWarn "No events to replay" :: call_onComplete cb, Returned)
  else
    match contentDocument with
    | None =>
        (r,
         ReadContentDocument
           :: call_onError cb "Cannot access iframe document",
         Threw "Cannot access iframe document")
    | Some iframeDoc =>
        let wrapped :=
          mkCallbacks (onProgress cb) (Wrapped (onComplete cb))
            (Wrapped (onError cb)) in
        let r1 :=
          mkState (events r) true now 0 (animationId r) (Some iframeDoc)
            wrapped (frames r) in
        let '(r2, log) := replayLoop first r1 in
        (r2,
         ReadContentDocument :: ConsoleLog "Starting replay" :: log,
         Awaiting)
    end.

Definition stop (r : State) : State :=
  mkState (events r) false (startTime r) (currentIndex r) None None
    (callbacks r) (Browser.cancelAnimationFrame (animationId r) (frames r)).

Definition getProgress (r : State) : nat * nat :=
  (currentIndex r, List.length (events r)).

Definition getDuration (r : State) : Q := last_timestamp (events r).

(** The browser runs the oldest pending frame callback, if any. *)
Definition tick (now : Q) (r : State) : State * list Effect :=
  match Browser.pending (frames r) with
  | [] => (r, [])
  | _ :: rest =>
      replayLoop now
        (mkState (events r) (isPlaying r) (startTime r) (currentIndex r)
           (animationId r) (targetDocument r) (callbacks r)
           (Browser.mkFrames (Browser.next_handle (frames r)) rest))
  end.

(** Successive frames, one clock reading each. *)
Fixpoint run (clock : list Q) (r : State) : State * list Effect :=
  match clock with
  | [] => (r, [])
  | now :: later =>
      let '(r1, log1) := tick now r in
      let '(r2, log2) := run later r1 in
      (r2, log1 ++ log2)
  end.

(** The trace events dispatched by a log, with what each did, in order. *)
Fixpoint dispatches (log : list Effect)
  : list (InteractionEvent * list Dispatch) :=
  match log with
  | [] => []
  | Dispatched e dom :: rest => (e, dom) :: dispatches rest
  | _ :: rest => dispatches rest
  end.

(** [events.slice(from, to)] *)
Definition slice (l : list InteractionEvent) (from to : nat) :=
  firstn (to - from) (skipn from l).

Definition by_timestamp (a b : InteractionEvent) : Prop :=
  timestamp a <= timestamp b.

(** The states a replayer is in between calls: created, then any sequence
    of completed calls to its methods and of frames run by the browser.
    The loop itself runs inside [play] (its first pass) and inside [tick]
    (a frame), on the state those build. *)
Inductive Reachable : State -> Prop :=
| reach_fresh : Reachable fresh
| reach_loadEvents evs r :
    Reachable r -> Reachable (loadEvents evs r)
| reach_play now first contentDocument cb r :
    Reachable r -> Reachable (fst (fst (play now first contentDocument cb r)))
| reach_tick now r :
    Reachable r -> Reachable (fst (tick now r))
| reach_stop r :
    Reachable r -> Reachable (stop r).

Definition reads_document (e : Effect) : bool :=
  match e with ReadContentDocument => true | _ => false end.

Definition is_dispatch (e : Effect) : bool :=
  match e with Dispatched _ _ => true | _ => false end.

Definition same_origin : Document :=
  mkDocument (fun _ => None) (fun _ _ => Some 3%nat) 1%nat 2%nat true.

Definition all_given : ReplayCallbacks := mkCallbacks Given Given Given.

(** Three clicks captured out of order. *)
Definition three_clicks : list InteractionEvent :=
  [a_click 500; a_click 0; a_click 250].

(** A replayer that is playing a one-click trace and is then handed an
    empty trace before its next frame. *)
Definition reloaded_while_playing : State :=
  loadEvents []
    (fst (fst (play 0 0 (Some same_origin) all_given
                 (loadEvents [a_click 250] fresh)))).

End EventReplayer.

(* ===================================================================== *)
(** * Sessions of the recorder and of the recording hook                  *)
(* ===================================================================== *)

Module RecorderRuns.

Import Recorder.
Local Open Scope Z_scope.

(** [pause()] at the first time of each pair, [resume()] at the second. *)
Fixpoint pause_resume (intervals : list (Z * Z)) (r : Instance) : Instance :=
  match intervals with
  | [] => r
  | (p, q) :: later =>
      pause_resume later (fst (resume q (fst (pause p r))))
  end.

(** Total length of the closed pauses. *)
Fixpoint paused_total (intervals : list (Z * Z)) : Z :=
  match intervals with
  | [] => 0
  | (p, q) :: later => (q - p) + paused_total later
  end.

(** The [dataavailable] events of a recording in progress. *)
Fixpoint collect (data : list Blob) (r : Instance) : Instance :=
  match data with
  | [] => r
  | d :: later => collect later (ondataavailable d r)
  end.

End RecorderRuns.

Module UseRecorderRuns.

Import UseRecorder.

Definition is_complete (e : Effect) : bool :=
  match e with RecordingComplete _ => true | _ => false end.

Definition is_encoder_start (e : Effect) : bool :=
  match e with Rec (Recorder.MediaRecorderStart _) => true | _ => false end.

(** The stream handed to the recorder: the canvas stream when cropping,
    the raw stream otherwise. *)
Definition recorded_stream (env : Env)
  (cropConfig : option Compositor.CropConfig) (raw : list Track)
  : list Track :=
  match cropConfig with
  | Some _ => captureStream env
  | None => raw
  end.


Definition a_crop : Compositor.CropConfig :=
  Compositor.mkCrop (Compositor.Getter (fun _ => Some 0%nat)) 300 250.

(** A hook recording a cropped session that collected one chunk. *)
Definition recording_hook : Hook :=
  let h := fst (fst (startRecording granting 1000 (Some a_crop) (initial true))) in
  mkHook (onRecordingComplete h) (state h) (isPrepared h) (isPreparedRef h)
    (match recorderRef h with
     | Some r => Some (Recorder.ondataavailable Recorder.sample_chunk r)
     | None => None
     end)
    (streamRef h) (cropCleanupRef h).

End UseRecorderRuns.

(* ===================================================================== *)
(** * The compositor's loop over time, and the screenshot capture         *)
(* ===================================================================== *)

Module CompositorLoop.

Import Compositor.

(** Successive frames, each with what the page looks like then. *)
Fixpoint ticks (cfg : CropConfig) (doms : list Dom) (s : State)
  : State * list Effect :=
  match doms with
  | [] => (s, [])
  | dom :: later =>
      let '(s1, eff1) := tick cfg dom s in
      let '(s2, eff2) := ticks cfg later s1 in
      (s2, eff1 ++ eff2)
  end.

(** A cropped stream from its creation: the video's metadata loads (the
    page looking like [ready]), then the browser runs the frames [doms]. *)
Definition session (cfg : CropConfig) (raw : list Track) (ready : Dom)
  (doms : list Dom) : State * list Effect :=
  let '(s1, eff1) := onloadedmetadata cfg ready (createCroppedStream raw) in
  let '(s2, eff2) := ticks cfg doms s1 in
  (s2, eff1 ++ eff2).

Definition is_draw (e : Effect) : bool :=
  match e with DrawImage _ _ _ _ _ _ _ _ => true | _ => false end.

Definition is_request (e : Effect) : bool :=
  match e with RequestAnimationFrame _ => true | _ => false end.

(** The loop's steady state: running, with one frame callback pending, the
    one recorded in [animationId]. *)
Definition steady (s : State) : Prop :=
  isRunning s = true
  /\ exists h, Browser.pending (frames s) = [h] /\ animationId s = Some h.

End CompositorLoop.

Module Screenshot.

Local Open Scope Q_scope.

Definition Track := nat.

Inductive Format := png | jpeg.

Record ScreenshotOptions := mkOptions {
  element : Compositor.Element;
  width : Q;
  height : Q;
  format : option Format;
  quality : option Q
}.

Record ScreenshotResult := mkResult {
  blob : Recorder.Blob;
  dataUrl : string;
  result_width : Z;
  result_height : Z
}.

(** What the platform answers during one capture. *)
Record Env := mkEnv {
  getDisplayMedia : string + list Track;
  loadedmetadata : bool;                    (* does the video ever load? *)
  dom : Compositor.Dom;                     (* the page when the frame is cut *)
  canvas_size : Q -> Z;                     (* reading back canvas.width *)
  toDataURL : string -> Q -> string;
  toBlob : string -> Q -> option Recorder.Blob
}.

Inductive Effect :=
| RequestDisplayMedia
| VideoPlay
| AnimationFrame
| DrawImage (sx sy sw sh dx dy dw dh : Q)
| TrackStop (t : Track).

Definition mime_of (f : Format) : string :=
  match f with
  | png => "image/png"
  | jpeg => "image/jpeg"
  end.

(** The crop geometry is written out a second time in the source, with
    the same formulas as in the compositor's [drawFrame]. *)
Definition captureScreenshot (env : Env) (options : ScreenshotOptions)
  : UseRecorder.Completion ScreenshotResult * list Effect :=
  let fmt := match format options with Some f => f | None => png end in
  let q := match quality options with Some v => v | None => 92 # 100 end in
  match getDisplayMedia env with
  | inl err => (UseRecorder.Threw err, [RequestDisplayMedia])
  | inr stream =>
      if negb (loadedmetadata env) then
        (UseRecorder.Pending, [RequestDisplayMedia])
      else
        let rect :=
          Compositor.getBoundingClientRect (dom env) (element options) in
        let r :=
          Compositor.sourceRect
            (Compositor.mkCrop (Compositor.Direct (element options))
               (width options) (height options))
            (dom env) rect in
        let drawn :=
          DrawImage (Compositor.sx r) (Compositor.sy r) (Compositor.sw r)
            (Compositor.sh r) 0 0 (width options) (height options) in
        let mimeType := mime_of fmt in
        let finally := map TrackStop stream in
        match toBlob env mimeType q with
        | Some b =>
            (UseRecorder.Returned
               (mkResult b (toDataURL env mimeType q)
                  (canvas_size env (width options))
                  (canvas_size env (height options))),
             [RequestDisplayMedia; VideoPlay; AnimationFrame; AnimationFrame;
              drawn] ++ finally)
        | None =>
            (UseRecorder.Threw "Failed to create blob",
             [RequestDisplayMedia; VideoPlay; AnimationFrame; AnimationFrame;
              drawn] ++ finally)
        end
  end.

Definition is_track_stop (e : Effect) : bool :=
  match e with TrackStop _ => true | _ => false end.

Definition a_capture : Env :=
  mkEnv (inr [4%nat; 5%nat]) true Compositor.visible_dom
    (fun v => Qfloor v) (fun _ _ => "data:image/png;base64,"%string)
    (fun _ _ => None).

Definition a_shot : ScreenshotOptions := mkOptions 0%nat 300 250 None None.

End Screenshot.

(* ===================================================================== *)
(** * What the interaction recorders are fed                              *)
(* ===================================================================== *)

Module Traces.

Import Interaction.
Local Open Scope Q_scope.

(** Clock readings that never go back, from [t] on. *)
Fixpoint in_order (t : Q) (clock : list Q) : Prop :=
  match clock with
  | [] => True
  | u :: later => t <= u /\ in_order u later
  end.

(** A DOM event reaching one of the listeners of the event recorder. *)
Record Fired := mkFired {
  eventType : InteractionEventType;
  event : EventRecorder.DomEvent;
  at_time : Q
}.

Fixpoint feed (inputs : list Fired) (r : EventRecorder.State)
  : EventRecorder.State :=
  match inputs with
  | [] => r
  | i :: later =>
      feed later
        (EventRecorder.createHandler (eventType i) (event i) (at_time i) r)
  end.

(** What reaches the overlay recorder: pointer moves on the document,
    focus losses of the window, touches on the container. *)
Inductive Input :=
| MouseMove (left top clientX clientY : Q)
| WindowBlur (now : Q)
| TouchStart (left top : Q) (touches : list EventRecorder.Touch) (now : Q).

Definition handle (i : Input) (r : OverlayRecorder.State)
  : OverlayRecorder.State * list OverlayRecorder.Effect :=
  match i with
  | MouseMove l t cx cy => (OverlayRecorder.onMouseMove l t cx cy r, [])
  | WindowBlur now => OverlayRecorder.onWindowBlur now r
  | TouchStart l t touches now => OverlayRecorder.onTouchStart l t touches now r
  end.

Fixpoint overlay_feed (inputs : list Input) (r : OverlayRecorder.State)
  : OverlayRecorder.State * list OverlayRecorder.Effect :=
  match inputs with
  | [] => (r, [])
  | i :: later =>
      let '(r1, eff1) := handle i r in
      let '(r2, eff2) := overlay_feed later r1 in
      (r2, eff1 ++ eff2)
  end.

Definition clock_of (inputs : list Input) : list Q :=
  flat_map (fun i =>
              match i with
              | MouseMove _ _ _ _ => []
              | WindowBlur now => [now]
              | TouchStart _ _ _ now => [now]
              end) inputs.

(** Every event carries a timestamp between 0 and the rounded age [t] of
    the recording. *)
Definition stamped_within (start t : Q) (events : list InteractionEvent)
  : Prop :=
  Forall (fun e =>
            0 <= timestamp e
            /\ timestamp e <= inject_Z (Browser.Math_round (t - start)))
    events.

Definition counts (eff : list OverlayRecorder.Effect) : list nat :=
  flat_map (fun e =>
              match e with
              | OverlayRecorder.EventCountChange n => [n]
              | _ => []
              end) eff.

(** A recorder whose previous session saw its last pointer move a minute
    in. *)
Definition after_a_minute : EventRecorder.State :=
  fst (EventRecorder.stop
         (EventRecorder.createHandler mousemove
            (EventRecorder.MouseEvent 5 5 0 None) 60000
            (fst (EventRecorder.start (Some 1%nat) 0 EventRecorder.fresh)))).

End Traces.

Module TraceBounds.

Import Interaction.
Local Open Scope Q_scope.

(** The event's coordinates lie in the ad's area (rounded like them). *)
Definition within_ad (w h : Q) (e : InteractionEvent) : Prop :=
  0 <= x e /\ x e <= OverlayRecorder.round w
  /\ 0 <= y e /\ y e <= OverlayRecorder.round h.

(** When the pointer is taken to be over the ad, its last known position
    is inside the ad. *)
Definition pointer_consistent (r : OverlayRecorder.State) : Prop :=
  OverlayRecorder.isMouseOverAd r = true ->
  OverlayRecorder.inside r (OverlayRecorder.lastMouseX r)
    (OverlayRecorder.lastMouseY r) = true.

End TraceBounds.

Module ReplayRuns.

Import Interaction EventReplayer.

(** The progress notifications of a log, in order. *)
Fixpoint progress_of (log : list Effect) : list (nat * nat) :=
  match log with
  | [] => []
  | Callback (Progress current total) :: rest =>
      (current, total) :: progress_of rest
  | _ :: rest => progress_of rest
  end.

Definition is_frame_request (e : Effect) : bool :=
  match e with RequestAnimationFrame _ => true | _ => false end.

(** What one trace event contributes to the log of a pass when the caller
    listens to progress: its dispatch, then the progress notice. *)
Definition dispatched_and_reported (doc : Document) (total : nat)
  (step : nat * InteractionEvent) : list Effect :=
  [Dispatched (snd step) (dispatchEvent doc (snd step));
   Callback (Progress (fst step) total)].

Definition is_mouse (ty : InteractionEventType) : bool :=
  match ty with
  | click | mousedown | mouseup | mousemove => true
  | _ => false
  end.

Definition cannot_access : string := "Cannot access iframe document".

End ReplayRuns.

(* ===================================================================== *)
(** * The interactive-mode hook ([useInteractiveMode])                    *)
(* ===================================================================== *)

Module InteractiveMode.

Import Interaction.
Local Open Scope Q_scope.

Inductive InteractiveMode := idle | recording | recorded | replaying.

Record Options := mkOptions {
  onReplayComplete : bool;             (* was the option given? *)
  onReplayProgress : bool
}.

(** The hook's state and refs.  A ref is a flag next to the object it
    points to: dropping the ref does not unhook the object from the page
    (its listeners) or from the browser's frame queue. *)
Record Hook := mkHook {
  options : Options;
  mode : InteractiveMode;
  events : list InteractionEvent;
  eventCount : nat;
  duration : Q;
  replayProgress : option (nat * nat);
  recorder : option OverlayRecorder.State;
  recorderRef : bool;
  replayer : option EventReplayer.State;
  replayerRef : bool;
  updateIntervalRef : bool
}.

Inductive Effect :=
| ConsoleWarn (msg : string)
| ConsoleError (msg : string)
| SetInterval (ms : Z)
| ClearInterval
| Overlay (e : OverlayRecorder.Effect)
| Replayer (e : EventReplayer.Effect)
| ReplayProgress (current total : nat)
| ReplayComplete.

Definition initial (o : Options) : Hook :=
  mkHook o idle [] 0 0 None None false None false false.

Definition startRecording (hasIframe : bool) (w h now : Q) (k : Hook)
  : Hook * bool * list Effect :=
  match mode k with
  | idle | recorded =>
      let '(r, success) :=
        OverlayRecorder.start hasIframe w h true now OverlayRecorder.fresh in
      if success then
        (mkHook (options k) recording (events k) 0 0 (replayProgress k)
           (Some r) true (replayer k) (replayerRef k) true,
         true, [SetInterval 100])
      else (k, false, [])
  | _ =>
      (k, false,
       [ConsoleWarn
          "[useInteractiveMode] Cannot start recording in current mode:"])
  end.

(** A pointer move, focus loss or touch reaches the recorder's handlers;
    the count callback sets [eventCount]. *)
Definition on_input (i : Traces.Input) (k : Hook) : Hook * list Effect :=
  match recorder k with
  | Some r =>
      let '(r', eff) := Traces.handle i r in
      (mkHook (options k) (mode k) (events k)
         (fold_left (fun _ n => n) (Traces.counts eff) (eventCount k))
         (duration k) (replayProgress k) (Some r') (recorderRef k)
         (replayer k) (replayerRef k) (updateIntervalRef k),
       map Overlay eff)
  | None => (k, [])
  end.

Fixpoint on_inputs (inputs : list Traces.Input) (k : Hook)
  : Hook * list Effect :=
  match inputs with
  | [] => (k, [])
  | i :: later =>
      let '(k1, eff1) := on_input i k in
      let '(k2, eff2) := on_inputs later k1 in
      (k2, eff1 ++ eff2)
  end.

(** The 100 ms interval set by [startRecording]. *)
Definition interval (now : Q) (k : Hook) : Hook :=
  if updateIntervalRef k && recorderRef k then
    match recorder k with
    | Some r =>
        mkHook (options k) (mode k) (events k) (eventCount k)
          (OverlayRecorder.getDuration now r) (replayProgress k)
          (recorder k) (recorderRef k) (replayer k) (replayerRef k)
          (updateIntervalRef k)
    | None => k
    end
  else k.

Definition stopRecording (now : Q) (k : Hook)
  : Hook * list InteractionEvent * list Effect :=
  match mode k, recorderRef k, recorder k with
  | recording, true, Some r =>
      let '(stopped, recordedEvents) := OverlayRecorder.stop r in
      (mkHook (options k) recorded recordedEvents
         (List.length recordedEvents)
         (OverlayRecorder.getDuration now stopped) (replayProgress k)
         (Some stopped) false (replayer k) (replayerRef k) false,
       recordedEvents,
       if updateIntervalRef k then [ClearInterval] else [])
  | _, _, _ => (k, events k, [])
  end.

Definition back_to_recorded (k : Hook) : Hook :=
  mkHook (options k) recorded (events k) (eventCount k) (duration k) None
    (recorder k) (recorderRef k) (replayer k) (replayerRef k)
    (updateIntervalRef k).

Definition drop_replayer (k : Hook) : Hook :=
  mkHook (options k) (mode k) (events k) (eventCount k) (duration k)
    (replayProgress k) (recorder k) (recorderRef k) (replayer k) false
    (updateIntervalRef k).

(** What one effect of the replayer does to the hook: the three callbacks
    handed to [play], and the [catch] and [finally] behind its promise. *)
Definition absorb (e : EventReplayer.Effect) (k : Hook) : Hook * list Effect :=
  match e with
  | EventReplayer.Callback (EventReplayer.Progress current total) =>
      (mkHook (options k) (mode k) (events k) (eventCount k) (duration k)
         (Some (current, total)) (recorder k) (recorderRef k) (replayer k)
         (replayerRef k) (updateIntervalRef k),
       if onReplayProgress (options k)
       then [ReplayProgress current total] else [])
  | EventReplayer.Callback EventReplayer.Complete =>
      (back_to_recorded k,
       if onReplayComplete (options k) then [ReplayComplete] else [])
  | EventReplayer.Callback (EventReplayer.Failed _) =>
      (back_to_recorded k,
       [ConsoleError "[useInteractiveMode] Replay error:"])
  | EventReplayer.PromiseResolve => (drop_replayer k, [])
  | EventReplayer.PromiseReject _ =>
      (drop_replayer (back_to_recorded k),
       [ConsoleError "[useInteractiveMode] Replay failed:"])
  | other => (k, [Replayer other])
  end.

Fixpoint absorb_all (log : list EventReplayer.Effect) (k : Hook)
  : Hook * list Effect :=
  match log with
  | [] => (k, [])
  | e :: rest =>
      let '(k1, eff1) := absorb e k in
      let '(k2, eff2) := absorb_all rest k1 in
      (k2, eff1 ++ eff2)
  end.

Definition set_replayer (r : EventReplayer.State) (ref : bool) (k : Hook)
  : Hook :=
  mkHook (options k) (mode k) (events k) (eventCount k) (duration k)
    (replayProgress k) (recorder k) (recorderRef k) (Some r) ref
    (updateIntervalRef k).

Definition replay (contentDocument : option EventReplayer.Document)
  (now first : Q) (k : Hook) : Hook * list Effect :=
  match mode k, events k with
  | recorded, _ :: _ =>
      let created := EventReplayer.loadEvents (events k) EventReplayer.fresh in
      let k1 :=
        mkHook (options k) replaying (events k) (eventCount k) (duration k)
          (Some (0%nat, List.length (events k))) (recorder k) (recorderRef k)
          (Some created) true (updateIntervalRef k) in
      let '(r, log, outcome) :=
        EventReplayer.play now first contentDocument
          EventReplayer.all_given created in
      let '(k2, eff) := absorb_all log (set_replayer r true k1) in
      match outcome with
      | EventReplayer.Threw _ =>
          (drop_replayer (back_to_recorded k2),
           eff ++ [ConsoleError "[useInteractiveMode] Replay failed:"])
      | EventReplayer.Returned => (drop_replayer k2, eff)
      | EventReplayer.Awaiting => (k2, eff)
      end
  | _, _ => (k, [ConsoleWarn "[useInteractiveMode] No events to replay"])
  end.

(** The browser runs the replayer's pending frame, if any. *)
Definition frame (now : Q) (k : Hook) : Hook * list Effect :=
  match replayer k with
  | Some r =>
      let '(r', log) := EventReplayer.tick now r in
      absorb_all log (set_replayer r' (replayerRef k) k)
  | None => (k, [])
  end.

Fixpoint frames (clock : list Q) (k : Hook) : Hook * list Effect :=
  match clock with
  | [] => (k, [])
  | now :: later =>
      let '(k1, eff1) := frame now k in
      let '(k2, eff2) := frames later k1 in
      (k2, eff1 ++ eff2)
  end.

Definition clear (k : Hook) : Hook * list Effect :=
  (mkHook (options k) idle [] 0 0 None
     (if recorderRef k
      then option_map (fun r => fst (OverlayRecorder.stop r)) (recorder k)
      else recorder k)
     false
     (if replayerRef k
      then option_map EventReplayer.stop (replayer k)
      else replayer k)
     false false,
   if updateIntervalRef k then [ClearInterval] else []).

(** The trace events the replayer dispatched, with what each did. *)
Fixpoint dispatched_in (eff : list Effect)
  : list (InteractionEvent * list EventReplayer.Dispatch) :=
  match eff with
  | [] => []
  | Replayer (EventReplayer.Dispatched e dom) :: rest =>
      (e, dom) :: dispatched_in rest
  | _ :: rest => dispatched_in rest
  end.

Definition is_replay_complete (e : Effect) : bool :=
  match e with ReplayComplete => true | _ => false end.

(** A recording session: start, what happens on the page, stop. *)
Definition record_session (w h t0 : Q) (inputs : list Traces.Input)
  (stopped_at : Q) (k : Hook) : Hook :=
  fst (fst (stopRecording stopped_at
              (fst (on_inputs inputs
                      (fst (fst (startRecording true w h t0 k))))))).

(** No object the hook has let go of is still active. *)
Definition settled (k : Hook) : Prop :=
  (forall r, recorder k = Some r -> recorderRef k = false ->
     OverlayRecorder.isRecording r = false)
  /\ (forall r, replayer k = Some r -> replayerRef k = false ->
        EventReplayer.isPlaying r = false).

Definition listening : Options := mkOptions true true.

End InteractiveMode.

Module InteractiveRuns.

Import Interaction InteractiveMode.
Local Open Scope Q_scope.

(** Effects of the replayer that end a replay for the hook. *)
Definition settles (e : EventReplayer.Effect) : bool :=
  match e with
  | EventReplayer.Callback EventReplayer.Complete
  | EventReplayer.Callback (EventReplayer.Failed _)
  | EventReplayer.PromiseResolve
  | EventReplayer.PromiseReject _ => true
  | _ => false
  end.

(** The callbacks of the hook's replayer once [play] has wrapped them. *)
Definition hook_callbacks : EventReplayer.ReplayCallbacks :=
  EventReplayer.mkCallbacks EventReplayer.Given
    (EventReplayer.Wrapped EventReplayer.Given)
    (EventReplayer.Wrapped EventReplayer.Given).

(** The hook is replaying [trace] into [doc] since [t0], its replayer's
    cursor is at [i] and a frame is pending. *)
Definition replaying_at (doc : EventReplayer.Document) (t0 : Q)
  (trace : list InteractionEvent) (i : nat) (k : Hook) : Prop :=
  mode k = replaying /\ replayerRef k = true
  /\ exists r,
       replayer k = Some r
       /\ EventReplayer.isPlaying r = true
       /\ EventReplayer.targetDocument r = Some doc
       /\ EventReplayer.events r = trace
       /\ EventReplayer.startTime r = t0
       /\ EventReplayer.callbacks r = hook_callbacks
       /\ EventReplayer.currentIndex r = i
       /\ Browser.pending (EventReplayer.frames r) <> [].

(** The replay is over: the replayer has stopped and the hook has let go
    of it. *)
Definition replay_over (k : Hook) : Prop :=
  mode k = recorded /\ replayerRef k = false /\ replayProgress k = None
  /\ exists r, replayer k = Some r /\ EventReplayer.isPlaying r = false.

Definition with_dispatch (doc : EventReplayer.Document) (e : InteractionEvent)
  : InteractionEvent * list EventReplayer.Dispatch :=
  (e, EventReplayer.dispatchEvent doc e).

(** A hook holding a two-click recording. *)
Definition two_clicks_recorded : Hook :=
  mkHook listening recorded [a_click 0; a_click 250] 2 250 None
    None false None false false.

End InteractiveRuns.

(* ===================================================================== *)
(** * The controls' duration display ([formatDuration])                   *)
(* ===================================================================== *)

Module InteractiveControls.

Local Open Scope Q_scope.

(** Rounding towards zero, as the quotient behind [%] does. *)
Definition truncate (q : Q) : Z :=
  if Qle_bool 0 q then Qfloor q else Qceiling q.

(** [a % b] on numbers: the remainder takes the sign of the dividend. *)
Definition remainder (a b : Q) : Q := a - b * inject_Z (truncate (a / b)).

(** An integer in a template literal: decimal digits, [-] when negative. *)
Definition number_to_string (n : Z) : string :=
  DecimalString.NilZero.string_of_int (Z.to_int n).

Definition formatDuration (ms : Q) : string :=
  let seconds := Qfloor (ms / 1000) in
  let tenths := Qfloor (remainder ms 1000 / 100) in
  String.append (number_to_string seconds)
    (String.append "."
       (String.append (number_to_string tenths) "s")).

End InteractiveControls.

(* ===================================================================== *)
(** * Passes of the replay loop                                           *)
(* ===================================================================== *)

Module ReplayPasses.

Import Interaction EventReplayer ReplayRuns.
Local Open Scope Q_scope.

(** What is asked of a pass of the loop over [trace] that starts with the
    cursor at [from] when [elapsed] ms of the replay have gone by, and
    that leaves the replayer in [r'] with the log [log]: the events it
    dispatches are those from [from] up to the new cursor, each in full
    and in trace order; an event from [from] on is behind the new cursor
    exactly when it was due; and the frames that follow continue from
    there, in trace order. *)
Definition dispatches_all_due (doc : Document)
  (trace : list InteractionEvent) (from : nat) (elapsed : Q)
  (r' : State) (log : list Effect) : Prop :=
  events r' = trace
  /\ (from <= currentIndex r')%nat
  /\ dispatches log
     = map (fun e => (e, dispatchEvent doc e))
         (slice trace from (currentIndex r'))
  /\ (forall i e,
        nth_error trace i = Some e -> (from <= i)%nat ->
        (timestamp e <= elapsed <-> (i < currentIndex r')%nat))
  /\ StronglySorted by_timestamp (map fst (dispatches log))
  /\ forall clock,
       map fst (dispatches (log ++ snd (run clock r')))
       = slice trace from (currentIndex (fst (run clock r')))
       /\ StronglySorted by_timestamp
            (map fst (dispatches (log ++ snd (run clock r')))).

(** The pass ends the replay: everything from [from] on is dispatched, the
    replayer stops, no frame is requested, the log ends with the
    completion callback and the resolution of [play]'s promise, and no
    later frame does anything. *)
Definition completes (trace : list InteractionEvent) (from : nat)
  (r' : State) (log : list Effect) : Prop :=
  isPlaying r' = false
  /\ (List.length trace <= currentIndex r')%nat
  /\ map fst (dispatches log) = skipn from trace
  /\ filter is_frame_request log = []
  /\ (exists before c,
        log = before ++ ConsoleLog "Replay complete"
                :: call c Complete PromiseResolve ++ [PromiseResolve])
  /\ forall clock, snd (run clock r') = [].

(** The three-click trace after [play] at 0 ms: the first click is done
    and a frame is pending. *)
Definition three_clicks_playing : State :=
  fst (fst (play 0 0 (Some same_origin) all_given
              (loadEvents three_clicks fresh))).

End ReplayPasses.

(* ===================================================================== *)
(** * Theorems                                                            *)
(* ===================================================================== *)

Section CompositorFacts.

Import Compositor.
Local Open Scope Q_scope.

Lemma scaled_nonneg (a k : Q) : 0 < k -> (0 <= a * k <-> 0 <= a).
Proof.
  intro Hk. rewrite <- (Qmult_le_r 0 a k Hk).
  setoid_replace (0 * k) with 0 by ring. reflexivity.
Qed.

Lemma scaled_upper (a w v i : Q) :
  0 < v -> 0 < i -> (a * (v / i) + w * (v / i) <= v <-> a + w <= i).
Proof.
  intros Hv Hi.
  assert (Hk : 0 < v / i).
  { unfold Qdiv. apply Qmult_lt_0_compat; [assumption|].
    now apply Qinv_lt_0_compat. }
  assert (Hne : ~ i == 0) by (intro E; rewrite E in Hi; discriminate Hi).
  rewrite <- (Qmult_le_r (a + w) i (v / i) Hk).
  setoid_replace (i * (v / i)) with v by (now apply Qmult_div_r).
  setoid_replace ((a + w) * (v / i)) with (a * (v / i) + w * (v / i)) by ring.
  reflexivity.
Qed.

Example Math_round_halves :
  Browser.Math_round (5 # 2) = 3%Z /\ Browser.Math_round (-5 # 2) = (-2)%Z
  /\ Browser.Math_round (12004 # 10) = 1200%Z.
Proof. repeat split. Qed.

Lemma inject_Z_pos (z : Z) : (0 < z)%Z -> 0 < inject_Z z.
Proof. intro H. unfold Qlt, inject_Z. simpl. lia. Qed.

(** In the queue model a handle that was just requested is pending. *)
Lemma schedule_pending (s : State) :
  In (Browser.next_handle (frames s)) (Browser.pending (frames (fst (schedule s)))).
Proof. unfold schedule. simpl. apply in_or_app. right. now left. Qed.

(** C1, as stated, fails: with the preview frame partly scrolled out of the
    viewport the tick draws from a rectangle whose top edge is at -20,
    outside the raw frame; nothing clamps it. *)
Lemma drawFrame_source_rect_unclamped :
  draws ad_300x250 scrolled_dom (createCroppedStream [7%nat])
        (sourceRect ad_300x250 scrolled_dom scrolled_rect)
  /\ sy (sourceRect ad_300x250 scrolled_dom scrolled_rect) < 0
  /\ ~ within_frame scrolled_dom
        (sourceRect ad_300x250 scrolled_dom scrolled_rect).
Proof.
  split; [| split].
  - unfold draws. simpl. left. reflexivity.
  - reflexivity.
  - intros (_ & _ & Hy & _). revert Hy. vm_compute. intro H. now apply H.
Qed.

(** C1, amended: on a tick that draws, [drawImage] receives the scaled,
    centred rectangle exactly as computed (no clamping), and, frame and
    viewport sizes being positive, that rectangle lies within the raw frame
    if and only if the centred ad rectangle lies within the viewport. *)
Theorem drawFrame_source_rect_within_frame_iff
  (cfg : CropConfig) (dom : Dom) (s : State) (el : Element) :
  isRunning s = true ->
  getElement cfg dom = Some el ->
  (0 < innerWidth dom)%Z -> (0 < innerHeight dom)%Z ->
  (0 < videoWidth dom)%Z -> (0 < videoHeight dom)%Z ->
  let rect := getBoundingClientRect dom el in
  let r := sourceRect cfg dom rect in
  snd (drawFrame cfg dom s) =
    [DrawImage (sx r) (sy r) (sw r) (sh r) 0 0 (width cfg) (height cfg);
     RequestAnimationFrame (Browser.next_handle (frames s))]
  /\ (within_frame dom r <-> within_viewport cfg dom rect).
Proof.
  intros Hrun Hel Hiw Hih Hvw Hvh rect r. split.
  - unfold drawFrame. rewrite Hrun, Hel. simpl.
    unfold Browser.truthy.
    destruct (Z.eqb_spec (videoWidth dom) 0); [lia|].
    destruct (Z.eqb_spec (videoHeight dom) 0); [lia|].
    reflexivity.
  - pose proof (inject_Z_pos Hiw) as Qiw. pose proof (inject_Z_pos Hih) as Qih.
    pose proof (inject_Z_pos Hvw) as Qvw. pose proof (inject_Z_pos Hvh) as Qvh.
    assert (Hkx : 0 < scaleX dom).
    { unfold scaleX, Qdiv. apply Qmult_lt_0_compat; [assumption|].
      now apply Qinv_lt_0_compat. }
    assert (Hky : 0 < scaleY dom).
    { unfold scaleY, Qdiv. apply Qmult_lt_0_compat; [assumption|].
      now apply Qinv_lt_0_compat. }
    unfold within_frame, within_viewport, r, sourceRect. simpl.
    rewrite (scaled_nonneg (adLeft cfg rect) Hkx).
    rewrite (scaled_nonneg (adTop cfg rect) Hky).
    unfold scaleX, scaleY.
    rewrite (scaled_upper (adLeft cfg rect) (width cfg) Qvw Qiw).
    rewrite (scaled_upper (adTop cfg rect) (height cfg) Qvh Qih).
    reflexivity.
Qed.

Lemma drawFrame_source_rect_within_frame_iff_witness :
  within_frame visible_dom
    (sourceRect ad_300x250 visible_dom (mkRect 40 60 320 270)).
Proof.
  apply (drawFrame_source_rect_within_frame_iff
           ad_300x250 visible_dom (createCroppedStream [7%nat]) (el := 0%nat));
    try reflexivity.
  unfold within_viewport; repeat split; vm_compute; discriminate.
Defined.

(** C6: on a tick where the loop is running and the crop target resolves
    to null, nothing is drawn, the only effect is the request for the next
    frame, the loop stays alive with that frame pending, and the next tick
    that finds the element (video ready) draws. *)
Theorem drawFrame_unresolved_element_retries
  (cfg : CropConfig) (dom : Dom) (s : State) :
  isRunning s = true ->
  getElement cfg dom = None ->
  let h := Browser.next_handle (frames s) in
  let s' := fst (drawFrame cfg dom s) in
  snd (drawFrame cfg dom s) = [RequestAnimationFrame h]
  /\ isRunning s' = true
  /\ animationId s' = Some h
  /\ In h (Browser.pending (frames s'))
  /\ forall dom' el,
       getElement cfg dom' = Some el ->
       Browser.truthy (videoWidth dom') = true ->
       Browser.truthy (videoHeight dom') = true ->
       draws_on_tick cfg dom' s'
         (sourceRect cfg dom' (getBoundingClientRect dom' el)).
Proof.
  intros Hrun Hel h s'.
  assert (E : drawFrame cfg dom s = schedule s).
  { unfold drawFrame. now rewrite Hrun, Hel. }
  subst s'. rewrite E.
  repeat split; try reflexivity.
  - exact Hrun.
  - apply schedule_pending.
  - intros dom' el Hel' Hw Hh. unfold draws_on_tick, tick.
    pose proof (schedule_pending s) as Hin.
    destruct (Browser.pending (frames (fst (schedule s)))) as [|p rest] eqn:Hp;
      [contradiction|].
    unfold drawFrame. simpl. rewrite Hrun, Hel', Hw, Hh. simpl.
    left. reflexivity.
Qed.

Lemma drawFrame_unresolved_element_retries_witness :
  snd (drawFrame ad_unmounted visible_dom (createCroppedStream [7%nat]))
  = [RequestAnimationFrame 1].
Proof.
  apply (drawFrame_unresolved_element_retries
           ad_unmounted visible_dom (createCroppedStream [7%nat]));
    reflexivity.
Defined.

(** C7: the combined cleanup cancels the pending frame, pauses and detaches
    the video sink, and only then stops the raw stream's tracks; afterwards
    the loop is dead (a late frame callback does nothing). *)
Theorem combinedCleanup_order (rawStream : list Track) (s : State) :
  let s' := fst (combinedCleanup rawStream s) in
  let eff := snd (combinedCleanup rawStream s) in
  eff = [CancelAnimationFrame (animationId s); VideoPause; VideoDetach]
          ++ map TrackStop rawStream
  /\ strictly_before (CancelAnimationFrame (animationId s)) is_track_stop eff
  /\ strictly_before VideoDetach is_track_stop eff
  /\ (forall t, In t rawStream -> In (TrackStop t) eff)
  /\ isRunning s' = false
  /\ srcObject s' = None
  /\ (forall h, animationId s = Some h ->
        ~ In h (Browser.pending (frames s')))
  /\ forall cfg dom, drawFrame cfg dom s' = (s', []).
Proof.
  intros s' eff. subst s' eff. unfold combinedCleanup, cleanup. simpl.
  repeat split.
  - exists [], ([VideoPause; VideoDetach] ++ map TrackStop rawStream).
    split; reflexivity.
  - exists [CancelAnimationFrame (animationId s); VideoPause],
           (map TrackStop rawStream).
    split; reflexivity.
  - intros t Ht. right. right. right. now apply in_map.
  - intros h Hh. rewrite Hh. simpl. apply remove_In.
Qed.

End CompositorFacts.

Section RecorderFacts.

Import Recorder.

Lemma deliver_flush (now : Z) (flushed : list Blob) :
  forall (r : Instance) (rest : list EncoderEvent) (p : option Settled),
    deliver now (map dataavailable flushed ++ rest) r p
    = deliver now rest (set_chunks (chunks r ++ with_data flushed) r) p.
Proof.
  induction flushed as [|b bs IH]; intros r rest p; simpl.
  - rewrite app_nil_r. destruct r; reflexivity.
  - rewrite IH. unfold ondataavailable.
    destruct (0 <? size b)%nat; simpl.
    + now rewrite <- app_assoc.
    + reflexivity.
Qed.

Lemma with_data_all (l : list Blob) : all_with_data (with_data l).
Proof.
  unfold all_with_data, with_data. apply Forall_forall. intros b Hb.
  apply filter_In in Hb. destruct Hb as [_ Hb]. now apply Nat.ltb_lt in Hb.
Qed.

Lemma new_Blob_size (b : Blob) (l : list Blob) (ty : string) :
  (0 < size b)%nat -> (0 < size (new_Blob (b :: l) ty))%nat.
Proof.
  unfold size, new_Blob. simpl. rewrite length_app. lia.
Qed.

Lemma ondataavailable_with_data (data : Blob) (r : Instance) :
  all_with_data (chunks r) -> all_with_data (chunks (ondataavailable data r)).
Proof.
  intro H. unfold ondataavailable.
  destruct (0 <? size data)%nat eqn:E; [|exact H].
  simpl. apply Forall_app. split; [exact H|].
  constructor; [now apply Nat.ltb_lt | constructor].
Qed.

Lemma deliver_never_empty (now : Z) (fired : list EncoderEvent) :
  forall (r : Instance) (p : option Settled),
    all_with_data (chunks r) -> never_empty p ->
    never_empty (snd (deliver now fired r p)).
Proof.
  induction fired as [|ev fired IH]; intros r p Hr Hp; simpl; [exact Hp|].
  destruct ev as [data| |what].
  - apply IH; [now apply ondataavailable_with_data | exact Hp].
  - unfold onstop. destruct (chunks r) as [|c cs] eqn:Hc.
    + apply IH; [exact Hr | now destruct p].
    + apply IH; [exact Hr |].
      destruct p; [exact Hp|]. simpl. apply new_Blob_size.
      now inversion Hr.
  - apply IH; [exact Hr | now destruct p].
Qed.

Lemma deliver_settled (now : Z) (fired : list EncoderEvent) :
  forall (r : Instance) (v : Settled),
    snd (deliver now fired r (Some v)) = Some v.
Proof.
  induction fired as [|ev fired IH]; intros r v; simpl; [reflexivity|].
  destruct ev as [data| |what]; simpl.
  - apply IH.
  - destruct (onstop now r) as [r' v']. apply IH.
  - apply IH.
Qed.

(** An encoder that reports an error before it stops: the promise of
    [stop] is rejected with the error, with no chunk collected (so not with
    "No data recorded") and with a chunk collected (so not resolved with
    the artifact). *)
Lemma stop_error_before_stop_event :
  chunks sample_recorder = []
  /\ snd (stop 5000 [error "boom"; stopped] sample_recorder)
     = Some (Rejected "Recording error: boom")
  /\ snd (stop 5000 [dataavailable sample_chunk; error "boom"; stopped]
            sample_recorder)
     = Some (Rejected "Recording error: boom")
  /\ snd (stop 5000 (finalised [sample_chunk]) sample_recorder)
     = Some (Resolved (new_Blob [sample_chunk] "video/webm;codecs=vp9")).
Proof. repeat split. Qed.

(** C3: the promise of [stop] is settled by the first [stop] or [error]
    event the encoder fires after the data it flushes.  If [stop] comes
    first, the promise is rejected with "No data recorded" exactly when no
    chunk with data was collected (none before the call and none in the
    flush) and is otherwise resolved with the concatenation of the
    collected chunks; if [error] comes first it is rejected with
    "Recording error: ...", chunks or not; while neither has fired it is
    pending.  Whatever the encoder fires, a resolved artifact is never
    empty. *)
Theorem stop_settled_by_first_event
  (now : Z) (flushed : list Blob) (later : list EncoderEvent) (r : Instance) :
  all_with_data (chunks r) ->
  let collected := chunks r ++ with_data flushed in
  let stop_first :=
    snd (stop now (map dataavailable flushed ++ stopped :: later) r) in
  (collected = [] -> stop_first = Some (Rejected "No data recorded"))
  /\ (collected <> [] ->
      stop_first = Some (Resolved (new_Blob collected (mimeType r)))
      /\ bytes (new_Blob collected (mimeType r)) = flat_map bytes collected
      /\ (0 < size (new_Blob collected (mimeType r)))%nat)
  /\ (forall what,
        snd (stop now (map dataavailable flushed ++ error what :: later) r)
        = Some (Rejected ("Recording error: " ++ what)))
  /\ snd (stop now (map dataavailable flushed) r) = None
  /\ isRecording (state (fst (fst (stop now (finalised flushed) r)))) = false
  /\ forall fired blob,
       snd (stop now fired r) = Some (Resolved blob) -> (0 < size blob)%nat.
Proof.
  intros Hinv collected stop_first.
  assert (Hall : all_with_data collected).
  { unfold all_with_data, collected. apply Forall_app. split;
      [exact Hinv | apply with_data_all]. }
  assert (E : stop_first = Some (snd (onstop now (set_chunks collected r)))).
  { unfold stop_first, stop. rewrite deliver_flush. simpl. fold collected.
    pose proof (deliver_settled now later
                  (fst (onstop now (set_chunks collected r)))
                  (snd (onstop now (set_chunks collected r)))) as H.
    destruct (onstop now (set_chunks collected r)) as [r1 v]. simpl in *.
    destruct (deliver now later r1 (Some v)). exact H. }
  assert (Hgen : forall fired blob,
             snd (stop now fired r) = Some (Resolved blob) ->
             (0 < size blob)%nat).
  { intros fired blob H.
    pose proof (@deliver_never_empty now fired r None Hinv I) as Hn.
    unfold stop in H. destruct (deliver now fired r None) as [r1 p].
    simpl in *. subst p. exact Hn. }
  assert (Herr : forall what,
             snd (stop now (map dataavailable flushed ++ error what :: later) r)
             = Some (Rejected ("Recording error: " ++ what))).
  { intro what. unfold stop. rewrite deliver_flush. simpl.
    match goal with |- context [deliver now later ?x ?q] =>
      pose proof (deliver_settled now later x (onerror what)) as H;
      destruct (deliver now later x q)
    end.
    exact H. }
  assert (Hpending : snd (stop now (map dataavailable flushed) r) = None).
  { unfold stop. rewrite <- (app_nil_r (map dataavailable flushed)).
    rewrite deliver_flush. reflexivity. }
  assert (Hrec : isRecording
                   (state (fst (fst (stop now (finalised flushed) r))))
                 = false).
  { unfold stop, finalised. rewrite deliver_flush. simpl.
    unfold onstop. simpl. now destruct (chunks r ++ with_data flushed). }
  rewrite E. unfold onstop. simpl.
  destruct collected as [|c cs] eqn:Hc; simpl.
  - split; [reflexivity|]. split; [intro H; now contradiction H|].
    split; [exact Herr|]. split; [exact Hpending|].
    split; [exact Hrec | exact Hgen].
  - assert (Hpos : (0 < size (new_Blob (c :: cs) (mimeType r)))%nat).
    { apply new_Blob_size. now inversion Hall. }
    split; [intro H; discriminate H|].
    split; [intros _; split; [reflexivity | split; [reflexivity | exact Hpos]]|].
    split; [exact Herr|]. split; [exact Hpending|].
    split; [exact Hrec | exact Hgen].
Qed.

(** The sample recorder: a flush without data, then a flush of one chunk
    followed by a late error. *)
Lemma stop_settled_by_first_event_witness :
  snd (stop 5000 (map dataavailable [mkBlob [] "video/webm"] ++ [stopped])
         sample_recorder)
    = Some (Rejected "No data recorded")
  /\ snd (stop 5000 (map dataavailable [sample_chunk]
                       ++ [stopped; error "late"])
            sample_recorder)
    = Some (Resolved (new_Blob [sample_chunk] "video/webm;codecs=vp9")).
Proof.
  split.
  - apply (@stop_settled_by_first_event 5000 [mkBlob [] "video/webm"] []
             sample_recorder).
    + constructor.
    + reflexivity.
  - apply (@stop_settled_by_first_event 5000 [sample_chunk] [error "late"]
             sample_recorder).
    + constructor.
    + discriminate.
Defined.

End RecorderFacts.

Section UseRecorderFacts.

Import UseRecorder.

Lemma prepareRecording_returned
  (env : Env) (cfg : option Compositor.CropConfig) (h : Hook) (v : unit) :
  snd (prepareRecording env cfg h) = Returned v ->
  prepared (fst (fst (prepareRecording env cfg h))) = true
  /\ snd (fst (prepareRecording env cfg h)) = [GetDisplayMedia].
Proof.
  unfold prepareRecording.
  destruct (negb (isSupported env)); [discriminate|].
  destruct (requestScreenCapture env cfg) as [err | [stream cleanup]];
    [discriminate|].
  destruct (Recorder.createRecorder _ _ _) as [err | recorder];
    [discriminate|].
  destruct (getVideoTracks stream); [discriminate|].
  intros _. split; reflexivity.
Qed.

Lemma prepareRecording_threw
  (env : Env) (cfg : option Compositor.CropConfig) (h : Hook) (m : string) :
  snd (prepareRecording env cfg h) = Threw m ->
  isPreparedRef (fst (fst (prepareRecording env cfg h))) = isPreparedRef h
  /\ state (fst (fst (prepareRecording env cfg h))) = state h
  /\ forall e, In e (snd (fst (prepareRecording env cfg h))) ->
       e = GetDisplayMedia \/ e = ConsoleError "Failed to prepare recording:".
Proof.
  unfold prepareRecording.
  destruct (negb (isSupported env)).
  - intros _. repeat split. intros e [].
  - destruct (requestScreenCapture env cfg) as [err | [stream cleanup]].
    + intros _. repeat split. simpl. intuition auto.
    + destruct (Recorder.createRecorder _ _ _) as [err | recorder].
      * intros _. repeat split. simpl. intuition auto.
      * destruct (getVideoTracks stream); [|discriminate].
        intros _. repeat split. simpl. intuition auto.
Qed.

Lemma beginPreparedRecording_prepared (now : Z) (h : Hook) :
  prepared h = true ->
  exists recorder,
    recorderRef h = Some recorder
    /\ beginPreparedRecording now h
       = (mkHook (onRecordingComplete h) (set_isRecording true (state h))
            false false (Some (fst (Recorder.start now recorder)))
            (streamRef h) (cropCleanupRef h),
          [Rec (Recorder.MediaRecorderStart 100)]).
Proof.
  unfold prepared, beginPreparedRecording.
  destruct (recorderRef h) as [recorder|]; [|discriminate].
  intros ->. exists recorder. split; reflexivity.
Qed.

(** C5: without a prepared session [begin] only logs an error and leaves
    the hook as it was (the encoder is not started); on a prepared session
    it starts the encoder and moves the hook from prepared to recording. *)
Theorem beginPreparedRecording_transition (now : Z) (h : Hook) :
  (prepared h = false ->
     beginPreparedRecording now h
     = (h, [ConsoleError "No prepared recording to start"]))
  /\ (prepared h = true ->
      let h' := fst (beginPreparedRecording now h) in
      snd (beginPreparedRecording now h)
        = [Rec (Recorder.MediaRecorderStart 100)]
      /\ isPrepared h' = false
      /\ isPreparedRef h' = false
      /\ prepared h' = false
      /\ isRecording (state h') = true
      /\ exists recorder,
           recorderRef h = Some recorder
           /\ recorderRef h' = Some (fst (Recorder.start now recorder))).
Proof.
  split.
  - unfold prepared, beginPreparedRecording.
    destruct (recorderRef h) as [recorder|]; [|reflexivity].
    intros ->. reflexivity.
  - intros Hp. destruct (@beginPreparedRecording_prepared now h Hp)
      as (recorder & Hr & E).
    rewrite E. simpl. unfold prepared. simpl.
    repeat split. exists recorder. split; [exact Hr | reflexivity].
Qed.

Lemma beginPreparedRecording_transition_witness :
  beginPreparedRecording 0 (initial true)
    = (initial true, [ConsoleError "No prepared recording to start"])
  /\ snd (beginPreparedRecording 0
            (fst (fst (prepareRecording granting None (initial true)))))
    = [Rec (Recorder.MediaRecorderStart 100)].
Proof.
  split.
  - apply (beginPreparedRecording_transition 0 (initial true)). reflexivity.
  - apply (beginPreparedRecording_transition 0
             (fst (fst (prepareRecording granting None (initial true))))).
    reflexivity.
Defined.

End UseRecorderFacts.

Section HomeFacts.

Import Home.

(** C8: with a tag loaded, the handler first prepares the recorder; if that
    returns, it runs the three one-second countdown ticks, then reloads the
    preview, then begins the prepared recording (which starts the encoder);
    if preparing throws, it logs the failure and stops: no countdown tick,
    no wait, no reload and no start happen, and the preview key is
    unchanged. *)
Theorem handleReloadAndRecord_sequence
  (env : UseRecorder.Env) (now : Z) (p : Page) :
  loadedTag p <> None ->
  let cfg := cropConfig_of p in
  let prep := UseRecorder.prepareRecording env cfg (recorder p) in
  let run := handleReloadAndRecord env now p in
  (snd prep = UseRecorder.Returned tt ->
     snd run =
       [SetIsStartingCapture true; PrepareRecording cfg;
        Hooked UseRecorder.GetDisplayMedia;
        SetCountdown (Some 3%nat); Wait 1000;
        SetCountdown (Some 2%nat); Wait 1000;
        SetCountdown (Some 1%nat); Wait 1000;
        SetCountdown None;
        SetIsAdReady false; SetPreviewKey (S (previewKey p));
        BeginPreparedRecording;
        Hooked (UseRecorder.Rec (Recorder.MediaRecorderStart 100));
        SetIsStartingCapture false]
     /\ previewKey (fst run) = S (previewKey p)
     /\ UseRecorder.isRecording (UseRecorder.state (recorder (fst run))) = true)
  /\ (forall message, snd prep = UseRecorder.Threw message ->
     snd run =
       [SetIsStartingCapture true; PrepareRecording cfg]
         ++ map Hooked (snd (fst prep))
         ++ [ConsoleError "Failed to start reload-and-record:";
             SetCountdown None; SetIsStartingCapture false]
     /\ forallb (fun s => negb (after_prepare s)) (snd run) = true
     /\ previewKey (fst run) = previewKey p
     /\ countdown (fst run) = None
     /\ UseRecorder.state (recorder (fst run))
        = UseRecorder.state (recorder p)).
Proof.
  intros Htag cfg prep run. subst run. unfold handleReloadAndRecord.
  destruct (loadedTag p) as [tag|]; [|now contradiction Htag].
  fold cfg. fold prep.
  split.
  - intros Hret.
    destruct (@prepareRecording_returned env cfg (recorder p) tt Hret)
      as [Hprep Heff].
    fold prep in Hprep, Heff.
    destruct prep as [[hook1 eff1] result]. simpl in *. subst result eff1.
    destruct (@beginPreparedRecording_prepared now hook1 Hprep)
      as (recorder & _ & E).
    rewrite E. simpl. repeat split.
  - intros message Hthrew.
    destruct (@prepareRecording_threw env cfg (recorder p) message Hthrew)
      as (_ & Hprep & Heff).
    fold prep in Hprep, Heff.
    destruct prep as [[hook1 eff1] result]. simpl in *. subst result.
    simpl. repeat split; try assumption.
    rewrite forallb_app. simpl. rewrite andb_true_r.
    apply forallb_forall. intros s Hs.
    apply in_map_iff in Hs. destruct Hs as (e & <- & He).
    destruct (Heff e He) as [-> | ->]; reflexivity.
Qed.

Lemma handleReloadAndRecord_sequence_witness :
  previewKey (fst (handleReloadAndRecord UseRecorder.granting 0 sample_page))
    = 5%nat
  /\ previewKey (fst (handleReloadAndRecord UseRecorder.denying 0 sample_page))
    = 4%nat.
Proof.
  split.
  - apply (handleReloadAndRecord_sequence UseRecorder.granting 0 sample_page).
    + discriminate.
    + reflexivity.
  - apply (handleReloadAndRecord_sequence UseRecorder.denying 0 sample_page)
      with (message := "Permission denied"%string).
    + discriminate.
    + reflexivity.
Defined.

End HomeFacts.

Section InteractionFacts.

Import Interaction.
Local Open Scope Q_scope.

Lemma last_timestamp_final (l : list InteractionEvent) :
  last_timestamp l = final_timestamp l.
Proof.
  unfold last_timestamp.
  induction l as [|a l IH]; [reflexivity|].
  destruct l as [|b l]; [reflexivity|].
  change (final_timestamp (a :: b :: l)) with (final_timestamp (b :: l)).
  rewrite <- IH. simpl. rewrite Nat.sub_0_r. reflexivity.
Qed.

Lemma final_timestamp_snoc (l : list InteractionEvent) (e : InteractionEvent) :
  final_timestamp (l ++ [e]) = timestamp e.
Proof.
  induction l as [|a l IH]; [reflexivity|].
  simpl. rewrite IH. destruct (l ++ [e]) eqn:E; [|reflexivity].
  now destruct l.
Qed.

(** C10: for the listener-based and the overlay recorder alike, a recorder
    that is not recording reports as its duration the timestamp of the last
    recorded event (0 without events), whatever the clock reads; this is
    what [getDuration] answers after [stop]. *)
Theorem getDuration_after_stop :
  (forall (now : Q) (r : EventRecorder.State),
      EventRecorder.isRecording (fst (EventRecorder.stop r)) = false
      /\ EventRecorder.getDuration now (fst (EventRecorder.stop r))
         = final_timestamp (EventRecorder.events r))
  /\ (forall (now : Q) (r : OverlayRecorder.State),
      OverlayRecorder.isRecording (fst (OverlayRecorder.stop r)) = false
      /\ OverlayRecorder.getDuration now (fst (OverlayRecorder.stop r))
         = final_timestamp (OverlayRecorder.events r))
  /\ (forall (now : Q) (r : EventRecorder.State),
      EventRecorder.isRecording r = false ->
      EventRecorder.getDuration now r
      = final_timestamp (EventRecorder.events r))
  /\ (forall (now : Q) (r : OverlayRecorder.State),
      OverlayRecorder.isRecording r = false ->
      OverlayRecorder.getDuration now r
      = final_timestamp (OverlayRecorder.events r)).
Proof.
  repeat split.
  - unfold EventRecorder.stop. now destruct (EventRecorder.isRecording r) eqn:E.
  - unfold EventRecorder.stop, EventRecorder.getDuration.
    destruct (EventRecorder.isRecording r) eqn:E; simpl;
      [|rewrite E; simpl]; apply last_timestamp_final.
  - unfold OverlayRecorder.stop.
    now destruct (OverlayRecorder.isRecording r) eqn:E.
  - unfold OverlayRecorder.stop, OverlayRecorder.getDuration.
    destruct (OverlayRecorder.isRecording r) eqn:E; simpl;
      [|rewrite E; simpl]; apply last_timestamp_final.
  - intros now r E. unfold EventRecorder.getDuration. rewrite E. simpl.
    apply last_timestamp_final.
  - intros now r E. unfold OverlayRecorder.getDuration. rewrite E. simpl.
    apply last_timestamp_final.
Qed.

Lemma getDuration_after_stop_witness :
  OverlayRecorder.getDuration 60000
    (fst (OverlayRecorder.stop OverlayRecorder.clicked_once))
  = final_timestamp (OverlayRecorder.events OverlayRecorder.clicked_once)
  /\ EventRecorder.getDuration 60000 EventRecorder.fresh
  = final_timestamp (EventRecorder.events EventRecorder.fresh).
Proof.
  split.
  - apply (proj1 (proj2 getDuration_after_stop)).
  - apply (proj1 (proj2 (proj2 getDuration_after_stop))). reflexivity.
Defined.

(** The click inferred at 1200.4 ms is stamped 1200; a stop a minute later
    still reports 1200 ms. *)
Example clicked_once_duration :
  OverlayRecorder.getDuration 60000
    (fst (OverlayRecorder.stop OverlayRecorder.clicked_once)) = 1200.
Proof. reflexivity. Qed.

End InteractionFacts.

Section ReplayerFacts.

Import Interaction EventReplayer ReplayPasses.
Local Open Scope Q_scope.

Lemma insert_perm (e : InteractionEvent) (l : list InteractionEvent) :
  Permutation (e :: l) (insert e l).
Proof.
  induction l as [|h t IH]; simpl; [reflexivity|].
  destruct (Qle_bool (timestamp e) (timestamp h)); [reflexivity|].
  rewrite perm_swap. now apply perm_skip.
Qed.

Lemma insert_hd (a e : InteractionEvent) (l : list InteractionEvent) :
  by_timestamp a e -> HdRel by_timestamp a l ->
  HdRel by_timestamp a (insert e l).
Proof.
  intros Hae Hal. destruct l as [|h t]; simpl.
  - now constructor.
  - destruct (Qle_bool (timestamp e) (timestamp h)); constructor.
    + exact Hae.
    + now inversion Hal.
Qed.

Lemma insert_sorted (e : InteractionEvent) (l : list InteractionEvent) :
  Sorted by_timestamp l -> Sorted by_timestamp (insert e l).
Proof.
  induction 1 as [|h t Ht IH Hhd]; simpl.
  - repeat constructor.
  - destruct (Qle_bool (timestamp e) (timestamp h)) eqn:E.
    + constructor; [now constructor|]. constructor.
      now apply Qle_bool_iff.
    + constructor; [exact IH|]. apply insert_hd; [|exact Hhd].
      unfold by_timestamp. apply Qlt_le_weak, Qnot_le_lt.
      intro H. apply Qle_bool_iff in H. congruence.
Qed.

Lemma sort_sorted (l : list InteractionEvent) : Sorted by_timestamp (sort l).
Proof.
  induction l as [|e l IH]; simpl; [constructor | now apply insert_sorted].
Qed.

Lemma sort_perm (l : list InteractionEvent) : Permutation l (sort l).
Proof.
  induction l as [|e l IH]; simpl; [constructor|].
  rewrite <- insert_perm. now apply perm_skip.
Qed.

Lemma by_timestamp_trans : Relations_1.Transitive by_timestamp.
Proof. intros a b c. unfold by_timestamp. apply Qle_trans. Qed.

(** C4: whatever the order of the input, [loadEvents] leaves in the
    replayer a permutation of it sorted by non-decreasing timestamp, and
    rewinds the cursor. *)
Theorem loadEvents_sorted_permutation
  (evs : list InteractionEvent) (r : State) :
  Sorted by_timestamp (events (loadEvents evs r))
  /\ StronglySorted by_timestamp (events (loadEvents evs r))
  /\ Permutation evs (events (loadEvents evs r))
  /\ currentIndex (loadEvents evs r) = 0%nat.
Proof.
  simpl. split; [apply sort_sorted|]. split.
  - apply Sorted_StronglySorted; [exact by_timestamp_trans | apply sort_sorted].
  - split; [apply sort_perm | reflexivity].
Qed.

Example loadEvents_three_clicks :
  events (loadEvents three_clicks fresh)
  = [a_click 0; a_click 250; a_click 500].
Proof. reflexivity. Qed.

Lemma call_quiet (h : Handler) (n : Notice) (settle : Effect) :
  reads_document settle = false -> is_dispatch settle = false ->
  forallb (fun e => negb (reads_document e) && negb (is_dispatch e))
    (call h n settle) = true.
Proof.
  intros Hr Hd. induction h as [| |h IH]; simpl; try reflexivity.
  rewrite forallb_app, IH. simpl. now rewrite Hr, Hd.
Qed.

(** C9, as stated, fails: a replayer that is still playing and is handed an
    empty trace answers [play] with the "Already playing" warning only;
    the completion callback does not run. *)
Lemma play_empty_while_playing_silent :
  events reloaded_while_playing = []
  /\ play 10 10 (Some same_origin) all_given reloaded_while_playing
     = (reloaded_while_playing, [ConsoleWarn "Already playing"], Returned)
  /\ ~ In (Callback Complete)
         (snd (fst (play 10 10 (Some same_origin) all_given
                      reloaded_while_playing))).
Proof.
  split; [reflexivity|]. split; [reflexivity|].
  simpl. intros [H|[]]. discriminate H.
Qed.

(** C9, amended: when the replayer is not already playing and no event is
    loaded, [play] runs the completion callback and returns at once: the
    state is unchanged, nothing is dispatched and the content document is
    never read, so the call succeeds whether or not the document is
    accessible. *)
Theorem play_empty_completes
  (now first : Q) (contentDocument : option Document)
  (cb : ReplayCallbacks) (r : State) :
  isPlaying r = false ->
  events r = [] ->
  let log := snd (fst (play now first contentDocument cb r)) in
  play now first contentDocument cb r
    = (r, ConsoleWarn "No events to replay" :: call_onComplete cb, Returned)
  /\ (onComplete cb = Given ->
      log = [ConsoleWarn "No events to replay"; Callback Complete])
  /\ forallb (fun e => negb (reads_document e) && negb (is_dispatch e)) log
     = true
  /\ dispatches log = [].
Proof.
  intros Hplay Hev log.
  assert (E : play now first contentDocument cb r
              = (r, ConsoleWarn "No events to replay" :: call_onComplete cb,
                 Returned)).
  { unfold play. now rewrite Hplay, Hev. }
  subst log. rewrite E. simpl.
  split; [reflexivity|]. split.
  - intros H. unfold call_onComplete. rewrite H. reflexivity.
  - assert (Q : forallb
                  (fun e => negb (reads_document e) && negb (is_dispatch e))
                  (call_onComplete cb) = true).
    { apply call_quiet; reflexivity. }
    split; [exact Q|].
    revert Q. generalize (call_onComplete cb). intro l.
    induction l as [|e l IH]; simpl; [reflexivity|].
    intro H. apply andb_true_iff in H. destruct H as [He Hl].
    destruct e; simpl in He; try discriminate He; now apply IH.
Qed.

Lemma play_empty_completes_witness :
  play 0 0 None all_given fresh
  = (fresh, [ConsoleWarn "No events to replay"; Callback Complete], Returned).
Proof.
  apply (@play_empty_completes 0 0 None all_given fresh); reflexivity.
Defined.

(** ** The scheduling loop *)

Lemma dispatches_app (a b : list Effect) :
  dispatches (a ++ b) = dispatches a ++ dispatches b.
Proof.
  induction a as [|e a IH]; simpl; [reflexivity|].
  destruct e; simpl; now rewrite ?IH.
Qed.

Lemma dispatches_call (h : Handler) (n : Notice) (settle : Effect) :
  is_dispatch settle = false -> dispatches (call h n settle) = [].
Proof.
  intro Hs. induction h as [| |h IH]; simpl; try reflexivity.
  rewrite dispatches_app, IH. destruct settle; try reflexivity.
  discriminate Hs.
Qed.

Lemma skipn_nth_error (l : list InteractionEvent) :
  forall i e, nth_error l i = Some e -> skipn i l = e :: skipn (S i) l.
Proof.
  induction l as [|a l IH]; intros [|i] e H; simpl in *; try discriminate.
  - now injection H as ->.
  - now apply IH.
Qed.

Lemma slice_nil (l : list InteractionEvent) (i : nat) : slice l i i = [].
Proof. unfold slice. now rewrite Nat.sub_diag. Qed.

Lemma slice_cons (l : list InteractionEvent) (i j : nat) (e : InteractionEvent) :
  nth_error l i = Some e -> (i < j)%nat ->
  slice l i j = e :: slice l (S i) j.
Proof.
  intros H Hij. unfold slice. rewrite (skipn_nth_error l i H).
  replace (j - i)%nat with (S (j - S i)) by lia. reflexivity.
Qed.

Lemma slice_app (l : list InteractionEvent) (a b c : nat) :
  (a <= b)%nat -> (b <= c)%nat ->
  slice l a b ++ slice l b c = slice l a c.
Proof.
  intros Hab Hbc. unfold slice.
  replace (c - a)%nat with ((b - a) + (c - b))%nat by lia.
  assert (E : skipn b l = skipn (b - a) (skipn a l)).
  { rewrite skipn_skipn. f_equal. lia. }
  rewrite E.
  generalize (skipn a l) as m. generalize (b - a)%nat as n.
  generalize (c - b)%nat as k. clear.
  intros k n. induction n as [|n IH]; intros [|x m]; simpl;
    try reflexivity.
  - now rewrite firstn_nil.
  - now rewrite IH.
Qed.

Lemma slice_In (l : list InteractionEvent) (i a b : nat) (e : InteractionEvent) :
  nth_error l i = Some e -> (a <= i)%nat -> (i < b)%nat -> In e (slice l a b).
Proof.
  intros H Ha Hb.
  rewrite <- (slice_app l (a := a) (b := i) (c := b)) by lia.
  apply in_or_app. right. rewrite (slice_cons l H Hb). now left.
Qed.

Lemma sorted_nth (l : list InteractionEvent) :
  StronglySorted by_timestamp l ->
  forall i j a b,
    nth_error l i = Some a -> nth_error l j = Some b -> (i < j)%nat ->
    by_timestamp a b.
Proof.
  induction 1 as [|h t Ht IH Hall]; intros i j a b Hi Hj Hij.
  - now destruct i.
  - destruct j as [|j]; [lia|]. simpl in Hj.
    destruct i as [|i]; simpl in Hi.
    + injection Hi as <-. rewrite Forall_forall in Hall.
      apply Hall. eapply nth_error_In; eassumption.
    + eapply IH; eauto. lia.
Qed.

Lemma sorted_skipn (l : list InteractionEvent) (n : nat) :
  StronglySorted by_timestamp l -> StronglySorted by_timestamp (skipn n l).
Proof.
  intro H. revert n. induction H as [|h t Ht IH Hall]; intros [|n]; simpl;
    try constructor; auto.
Qed.

Lemma sorted_firstn (l : list InteractionEvent) (n : nat) :
  StronglySorted by_timestamp l -> StronglySorted by_timestamp (firstn n l).
Proof.
  intro H. revert n. induction H as [|h t Ht IH Hall]; intros [|n]; simpl;
    try constructor; auto.
  rewrite Forall_forall in *. intros e He. apply Hall.
  rewrite <- (firstn_skipn n t). apply in_or_app. now left.
Qed.

Lemma sorted_slice (l : list InteractionEvent) (a b : nat) :
  StronglySorted by_timestamp l -> StronglySorted by_timestamp (slice l a b).
Proof. intro H. unfold slice. now apply sorted_firstn, sorted_skipn. Qed.

(** The loop only moves the cursor; it dispatches, in trace order and each
    in full, the events it passes; all of those were due; and with enough
    fuel it stops only at the end of the trace or at an event not yet due. *)
Lemma dispatch_due_spec (elapsed : Q) (doc : Document) (fuel : nat) :
  forall r : State,
    targetDocument r = Some doc ->
    let r' := fst (dispatch_due fuel elapsed r) in
    let log := snd (dispatch_due fuel elapsed r) in
    r' = set_currentIndex (currentIndex r') r
    /\ (currentIndex r <= currentIndex r')%nat
    /\ dispatches log
       = map (fun e => (e, dispatchEvent doc e))
           (slice (events r) (currentIndex r) (currentIndex r'))
    /\ Forall (fun e => timestamp e <= elapsed)
         (slice (events r) (currentIndex r) (currentIndex r'))
    /\ ((List.length (events r) - currentIndex r <= fuel)%nat ->
        match nth_error (events r) (currentIndex r') with
        | Some e => elapsed < timestamp e
        | None => True
        end).
Proof.
  induction fuel as [|fuel IH]; intros r Hdoc; simpl.
  - rewrite slice_nil. repeat split; try constructor.
    + now destruct r.
    + intro Hlen.
      destruct (nth_error (events r) (currentIndex r)) eqn:E; [|exact I].
      assert (currentIndex r < List.length (events r))%nat
        by (apply nth_error_Some; congruence).
      lia.
  - destruct (nth_error (events r) (currentIndex r)) as [event|] eqn:E.
    + destruct (Qle_bool (timestamp event) elapsed) eqn:Hdue.
      * specialize (IH (set_currentIndex (S (currentIndex r)) r) Hdoc).
        destruct (dispatch_due fuel elapsed
                    (set_currentIndex (S (currentIndex r)) r)) as [r2 log2].
        simpl in IH. destruct IH as (Hr2 & Hle & Hlog & Hall & Hexit).
        simpl.
        assert (Hlt : (currentIndex r < currentIndex r2)%nat) by lia.
        rewrite (slice_cons (events r) E Hlt).
        repeat split.
        -- rewrite Hr2. reflexivity.
        -- lia.
        -- unfold dispatched. rewrite Hdoc.
           rewrite !dispatches_app. simpl.
           unfold call_onProgress.
           rewrite dispatches_call by reflexivity. simpl.
           now rewrite Hlog.
        -- constructor; [now apply Qle_bool_iff | exact Hall].
        -- intro Hlen. apply Hexit. lia.
      * simpl. rewrite slice_nil. repeat split; try constructor.
        -- now destruct r.
        -- intros _. rewrite E. apply Qnot_le_lt. intro H.
           apply Qle_bool_iff in H. congruence.
    + simpl. rewrite slice_nil. repeat split; try constructor.
      * now destruct r.
      * intros _. now rewrite E.
Qed.

(** What one pass of [replayLoop] does when its guard lets it run. *)
Lemma replayLoop_running (now : Q) (r : State) (doc : Document) :
  isPlaying r = true -> targetDocument r = Some doc ->
  let due :=
    dispatch_due (List.length (events r) - currentIndex r)
      (now - startTime r) r in
  events (fst (replayLoop now r)) = events r
  /\ targetDocument (fst (replayLoop now r)) = Some doc
  /\ currentIndex (fst (replayLoop now r)) = currentIndex (fst due)
  /\ dispatches (snd (replayLoop now r)) = dispatches (snd due).
Proof.
  intros Hplay Hdoc due. unfold replayLoop. rewrite Hplay, Hdoc.
  destruct (@dispatch_due_spec (now - startTime r) doc
              (List.length (events r) - currentIndex r) r Hdoc)
    as (Hr1 & _).
  fold due in Hr1. subst due.
  destruct (dispatch_due _ _ r) as [r1 log]. simpl in *.
  assert (He : events r1 = events r) by (rewrite Hr1; reflexivity).
  assert (Hd : targetDocument r1 = Some doc) by (rewrite Hr1; exact Hdoc).
  destruct (List.length (events r1) <=? currentIndex r1)%nat; simpl.
  - repeat split; try assumption.
    rewrite dispatches_app. simpl. unfold call_onComplete.
    rewrite dispatches_call by reflexivity. now rewrite app_nil_r.
  - repeat split; try assumption.
    rewrite dispatches_app. simpl. now rewrite app_nil_r.
Qed.

(** Any pass, whatever the state: the trace and the document are kept, the
    cursor does not move back, and the events dispatched are those the
    cursor passed, in trace order. *)
Lemma replayLoop_cursor (now : Q) (r : State) :
  events (fst (replayLoop now r)) = events r
  /\ targetDocument (fst (replayLoop now r)) = targetDocument r
  /\ (currentIndex r <= currentIndex (fst (replayLoop now r)))%nat
  /\ map fst (dispatches (snd (replayLoop now r)))
     = slice (events r) (currentIndex r)
         (currentIndex (fst (replayLoop now r))).
Proof.
  destruct (isPlaying r) eqn:Hplay;
    [destruct (targetDocument r) as [doc|] eqn:Hdoc|].
  - destruct (@replayLoop_running now r doc Hplay Hdoc) as (He & Hd & Hi & Hl).
    destruct (@dispatch_due_spec (now - startTime r) doc
                (List.length (events r) - currentIndex r) r Hdoc)
      as (_ & Hle & Hlog & _).
    rewrite He, Hd, Hi, Hl, Hlog. repeat split; try assumption.
    rewrite map_map. simpl. apply map_id.
  - unfold replayLoop. rewrite Hplay, Hdoc. simpl. rewrite slice_nil.
    repeat split; auto.
  - unfold replayLoop. rewrite Hplay. simpl. rewrite slice_nil.
    repeat split; auto.
Qed.

Lemma tick_cursor (now : Q) (r : State) :
  events (fst (tick now r)) = events r
  /\ (currentIndex r <= currentIndex (fst (tick now r)))%nat
  /\ map fst (dispatches (snd (tick now r)))
     = slice (events r) (currentIndex r) (currentIndex (fst (tick now r))).
Proof.
  unfold tick. destruct (Browser.pending (frames r)) as [|h rest].
  - simpl. rewrite slice_nil. repeat split; auto.
  - match goal with |- context [replayLoop now ?s] =>
      destruct (replayLoop_cursor now s) as (He & _ & Hle & Hl)
    end.
    simpl in *. repeat split; assumption.
Qed.

Lemma run_cursor (clock : list Q) :
  forall r : State,
    events (fst (run clock r)) = events r
    /\ (currentIndex r <= currentIndex (fst (run clock r)))%nat
    /\ map fst (dispatches (snd (run clock r)))
       = slice (events r) (currentIndex r) (currentIndex (fst (run clock r))).
Proof.
  induction clock as [|now later IH]; intro r; simpl.
  - rewrite slice_nil. repeat split; auto.
  - destruct (tick_cursor now r) as (He1 & Hle1 & Hl1).
    destruct (tick now r) as [r1 log1]. simpl in *.
    destruct (IH r1) as (He2 & Hle2 & Hl2).
    destruct (run later r1) as [r2 log2]. simpl in *.
    repeat split.
    + congruence.
    + lia.
    + rewrite dispatches_app, map_app, Hl1, Hl2, He1.
      now apply slice_app.
Qed.

Lemma play_events (now first : Q) (contentDocument : option Document)
  (cb : ReplayCallbacks) (r : State) :
  events (fst (fst (play now first contentDocument cb r))) = events r.
Proof.
  unfold play. destruct (isPlaying r); [reflexivity|].
  destruct (List.length (events r) =? 0)%nat; [reflexivity|].
  destruct contentDocument as [doc|]; [|reflexivity].
  match goal with |- context [replayLoop first ?s] =>
    destruct (replayLoop_cursor first s) as (He & _)
  end.
  destruct (replayLoop first _) as [r2 log]. exact He.
Qed.

(** Whatever was loaded, and whatever happened since, the trace held by
    the replayer is sorted: only [loadEvents] writes it. *)
Lemma reachable_sorted (r : State) :
  Reachable r -> Sorted by_timestamp (events r).
Proof.
  induction 1 as [|evs r _ _|now first cd cb r _ IH|now r _ IH|r _ IH].
  - constructor.
  - apply sort_sorted.
  - now rewrite play_events.
  - destruct (tick_cursor now r) as (He & _). now rewrite He.
  - exact IH.
Qed.

(** What a pass of the loop does on any playing state whose trace is
    sorted. *)
Lemma replayLoop_pass (now : Q) (r : State) (doc : Document) :
  isPlaying r = true ->
  targetDocument r = Some doc ->
  StronglySorted by_timestamp (events r) ->
  dispatches_all_due doc (events r) (currentIndex r) (now - startTime r)
    (fst (replayLoop now r)) (snd (replayLoop now r)).
Proof.
  intros Hplay Hdoc Hstrong.
  set (elapsed := now - startTime r).
  set (r' := fst (replayLoop now r)).
  set (log := snd (replayLoop now r)).
  destruct (@replayLoop_running now r doc Hplay Hdoc) as (He & Hd & Hi & Hl).
  destruct (@dispatch_due_spec (now - startTime r) doc
              (List.length (events r) - currentIndex r) r Hdoc)
    as (_ & Hle & Hlog & Hall & Hexit).
  specialize (Hexit (Nat.le_refl _)).
  rewrite <- Hi in Hle, Hlog, Hall, Hexit. rewrite <- Hl in Hlog.
  fold elapsed in Hall, Hexit.
  fold r' in He, Hle, Hlog, Hall, Hexit. fold log in Hlog.
  assert (Hfst : map fst (dispatches log)
                 = slice (events r) (currentIndex r) (currentIndex r')).
  { rewrite Hlog, map_map. simpl. apply map_id. }
  unfold dispatches_all_due.
  split; [exact He|]. split; [exact Hle|]. split; [exact Hlog|].
  split; [|split].
  - intros i e Hnth Hfrom. split.
    + intro Hdue.
      destruct (Nat.lt_ge_cases i (currentIndex r')) as [Hlt|Hge];
        [exact Hlt|].
      exfalso.
      destruct (nth_error (events r) (currentIndex r')) as [e'|] eqn:E'.
      * assert (Hee : timestamp e' <= timestamp e).
        { destruct (Nat.eq_dec (currentIndex r') i) as [Heq|Hne].
          - subst i. rewrite Hnth in E'. injection E' as ->. apply Qle_refl.
          - apply (@sorted_nth (events r) Hstrong (currentIndex r') i);
              auto. lia. }
        apply (Qlt_irrefl elapsed).
        eapply Qlt_le_trans; [exact Hexit|].
        eapply Qle_trans; eassumption.
      * apply nth_error_None in E'.
        assert (i < List.length (events r))%nat
          by (apply nth_error_Some; congruence).
        lia.
    + intro Hlt. rewrite Forall_forall in Hall. apply Hall.
      now apply (@slice_In (events r) i).
  - rewrite Hfst. now apply sorted_slice.
  - intro clock. destruct (run_cursor clock r') as (He2 & Hle2 & Hl2).
    assert (Hrun : map fst (dispatches (log ++ snd (run clock r')))
                   = slice (events r) (currentIndex r)
                       (currentIndex (fst (run clock r')))).
    { rewrite dispatches_app, map_app, Hfst, Hl2, He.
      now apply slice_app. }
    split; [exact Hrun|]. rewrite Hrun. now apply sorted_slice.
Qed.

(** The requirement looks at a log only through what it dispatches. *)
Lemma dispatches_all_due_log (doc : Document) (trace : list InteractionEvent)
  (from : nat) (elapsed : Q) (r' : State) (log log' : list Effect) :
  dispatches log' = dispatches log ->
  dispatches_all_due doc trace from elapsed r' log ->
  dispatches_all_due doc trace from elapsed r' log'.
Proof.
  intros E (H1 & H2 & H3 & H4 & H5 & H6). unfold dispatches_all_due.
  split; [exact H1|]. split; [exact H2|]. split; [now rewrite E|].
  split; [exact H4|]. split; [now rewrite E|].
  intro clock. specialize (H6 clock).
  rewrite dispatches_app in *. rewrite E. exact H6.
Qed.

Lemma replayLoop_keeps (now : Q) (r : State) :
  callbacks (fst (replayLoop now r)) = callbacks r
  /\ startTime (fst (replayLoop now r)) = startTime r
  /\ (isPlaying (fst (replayLoop now r)) = true -> isPlaying r = true).
Proof.
  unfold replayLoop.
  destruct (isPlaying r) eqn:Hplay;
    [|repeat split; auto; simpl; congruence].
  destruct (targetDocument r) as [doc|] eqn:Hdoc; [|repeat split; auto].
  destruct (@dispatch_due_spec (now - startTime r) doc
              (List.length (events r) - currentIndex r) r Hdoc) as (Hr1 & _).
  destruct (dispatch_due _ _ r) as [r1 log]. simpl in Hr1.
  destruct (List.length (events r1) <=? currentIndex r1)%nat; simpl;
    rewrite Hr1; simpl; repeat split; auto.
Qed.

(** While a replayer is playing it holds the content document, and its
    completion and error slots are the wrappers installed by [play]. *)
Lemma reachable_playing (r : State) :
  Reachable r -> isPlaying r = true ->
  (exists doc, targetDocument r = Some doc)
  /\ (exists c, onComplete (callbacks r) = Wrapped c)
  /\ (exists e, onError (callbacks r) = Wrapped e).
Proof.
  induction 1 as [|evs r _ IH|now first cd cb r _ IH|now r _ IH|r _ _];
    intro Hplay.
  - discriminate Hplay.
  - apply IH. exact Hplay.
  - revert Hplay. unfold play.
    destruct (isPlaying r) eqn:Hp; [simpl; intros _; now apply IH|].
    destruct (List.length (events r) =? 0)%nat; [simpl; congruence|].
    destruct cd as [doc|]; [|simpl; congruence].
    match goal with |- context [replayLoop first ?s] =>
      destruct (replayLoop_keeps first s) as (Hc & _ & _);
      destruct (replayLoop_cursor first s) as (_ & Hd & _)
    end.
    destruct (replayLoop first _) as [r2 log]. simpl in *. intros _.
    rewrite Hc, Hd. simpl. repeat split; eexists; reflexivity.
  - revert Hplay. unfold tick.
    destruct (Browser.pending (frames r)) as [|h rest]; [exact IH|].
    match goal with |- context [replayLoop now ?s] =>
      destruct (replayLoop_keeps now s) as (Hc & _ & Hp);
      destruct (replayLoop_cursor now s) as (_ & Hd & _)
    end.
    intro Hplay. rewrite Hc, Hd. simpl. apply IH. exact (Hp Hplay).
  - discriminate Hplay.
Qed.

(** A frame runs the loop on the replayer as it is, less the frame that
    is being run. *)
Lemma tick_pass (now : Q) (r : State) (h : nat) (rest : list nat) :
  Browser.pending (frames r) = h :: rest ->
  tick now r
  = replayLoop now
      (mkState (events r) (isPlaying r) (startTime r) (currentIndex r)
         (animationId r) (targetDocument r) (callbacks r)
         (Browser.mkFrames (Browser.next_handle (frames r)) rest)).
Proof. intro H. unfold tick. now rewrite H. Qed.

(** While a replayer is playing, a frame of its loop is pending: the loop
    is never left without its next pass. *)
Lemma reachable_pending (r : State) :
  Reachable r -> isPlaying r = true -> Browser.pending (frames r) <> [].
Proof.
  induction 1 as [|evs r _ IH|now first cd cb r _ IH|now r Hr IH|r _ _];
    intro Hplay.
  - discriminate Hplay.
  - apply IH. exact Hplay.
  - revert Hplay. unfold play.
    destruct (isPlaying r) eqn:Hp; [simpl; intros _; now apply IH|].
    destruct (List.length (events r) =? 0)%nat; [simpl; congruence|].
    destruct cd as [doc|]; [|simpl; congruence].
    unfold replayLoop. cbn [isPlaying targetDocument].
    match goal with |- context [dispatch_due ?f ?e ?s] =>
      destruct (dispatch_due f e s) as [r1 log]
    end.
    destruct (List.length (events r1) <=? currentIndex r1)%nat;
      simpl; [congruence|].
    intros _ Hnil. now apply app_eq_nil in Hnil.
  - revert Hplay. unfold tick.
    destruct (Browser.pending (frames r)) as [|h rest] eqn:Ep;
      [simpl; intro Hplay; specialize (IH Hplay); congruence|].
    unfold replayLoop. cbn [isPlaying targetDocument].
    destruct (isPlaying r) eqn:Hp; [|simpl; congruence].
    destruct (reachable_playing Hr Hp) as ((doc & Hdoc) & _).
    rewrite Hdoc.
    match goal with |- context [dispatch_due ?f ?e ?s] =>
      destruct (dispatch_due f e s) as [r1 log]
    end.
    destruct (List.length (events r1) <=? currentIndex r1)%nat;
      simpl; [congruence|].
    intros _ Hnil. now apply app_eq_nil in Hnil.
  - discriminate Hplay.
Qed.

Lemma reachable_strongly_sorted (r : State) :
  Reachable r -> StronglySorted by_timestamp (events r).
Proof.
  intro H. apply Sorted_StronglySorted;
    [exact by_timestamp_trans | now apply reachable_sorted].
Qed.

(** C2: on every pass of the loop a replayer makes, the events dispatched
    are exactly those from the cursor on whose timestamp is at most the
    elapsed time: all of them in this one pass, each in full before the
    next, in trace order, hence by non-decreasing timestamp; and over any
    number of later frames the dispatches continue from the cursor in
    trace order.  The passes are the frames of a replayer that is playing
    (it always has one pending) and the first, synchronous pass that
    [play] makes from the start of the trace. *)
Theorem replayLoop_dispatches_all_due (r : State) :
  Reachable r ->
  (forall now,
      isPlaying r = true ->
      Browser.pending (frames r) <> []
      /\ exists doc,
           targetDocument r = Some doc
           /\ dispatches_all_due doc (events r) (currentIndex r)
                (now - startTime r) (fst (tick now r)) (snd (tick now r)))
  /\ (forall now first doc cb,
        isPlaying r = false ->
        events r <> [] ->
        let started := play now first (Some doc) cb r in
        snd started = Awaiting
        /\ dispatches_all_due doc (events r) 0 (first - now)
             (fst (fst started)) (snd (fst started))).
Proof.
  intro Hreach.
  pose proof (reachable_strongly_sorted Hreach) as Hstrong.
  split.
  - intros now Hplay.
    pose proof (reachable_pending Hreach Hplay) as Hpend.
    split; [exact Hpend|].
    destruct (reachable_playing Hreach Hplay) as ((doc & Hdoc) & _).
    exists doc. split; [exact Hdoc|].
    destruct (Browser.pending (frames r)) as [|h rest] eqn:Ep; [congruence|].
    rewrite (@tick_pass now r h rest Ep).
    match goal with |- context [replayLoop now ?s] =>
      exact (@replayLoop_pass now s doc Hplay Hdoc Hstrong)
    end.
  - intros now first doc cb Hidle Hev started. subst started.
    unfold play. rewrite Hidle.
    destruct (List.length (events r) =? 0)%nat eqn:Hlen.
    { apply Nat.eqb_eq in Hlen. destruct (events r); [congruence|].
      discriminate Hlen. }
    match goal with |- context [replayLoop first ?s] =>
      pose proof (@replayLoop_pass first s doc eq_refl eq_refl Hstrong)
        as Hpass;
      destruct (replayLoop first s) as [r2 log]
    end.
    cbn [fst snd events currentIndex startTime] in *.
    split; [reflexivity|].
    eapply dispatches_all_due_log; [|exact Hpass]. reflexivity.
Qed.

(** The three-click trace: the first click is done, 600 ms have elapsed
    when the next frame runs. *)
Lemma replayLoop_dispatches_all_due_witness :
  dispatches (snd (tick 600 three_clicks_playing))
  = map (fun e => (e, dispatchEvent same_origin e))
      [a_click 250; a_click 500].
Proof.
  assert (Hreach : Reachable three_clicks_playing)
    by apply reach_play, reach_loadEvents, reach_fresh.
  destruct (@replayLoop_dispatches_all_due three_clicks_playing Hreach)
    as [Hframe _].
  destruct (Hframe 600 eq_refl) as (_ & doc & Hdoc & _ & _ & Hlog & _).
  injection Hdoc as <-. exact Hlog.
Defined.

(** The three-click scenario of the specification: one frame at 0 ms, one
    at 250 ms, one at 500 ms; each click gives a mouse event followed by
    its pointer event, in trace order, and completion is signalled once. *)
Example three_clicks_replay :
  let started :=
    play 0 0 (Some same_origin) all_given (loadEvents three_clicks fresh) in
  let later := run [250; 500] (fst (fst started)) in
  flat_map snd (dispatches (snd (fst started) ++ snd later))
  = [SynthMouse "click" 3%nat 10 20 0 0;
     SynthPointer "click" 3%nat 10 20 0 0 "mouse";
     SynthMouse "click" 3%nat 10 20 0 0;
     SynthPointer "click" 3%nat 10 20 0 0 "mouse";
     SynthMouse "click" 3%nat 10 20 0 0;
     SynthPointer "click" 3%nat 10 20 0 0 "mouse"]
  /\ map (fun p => timestamp (fst p))
       (dispatches (snd (fst started) ++ snd later)) = [0; 250; 500]
  /\ filter (fun e => match e with Callback Complete => true | _ => false end)
       (snd (fst started) ++ snd later) = [Callback Complete]
  /\ isPlaying (fst later) = false.
Proof. repeat split. Qed.

End ReplayerFacts.

(* ===================================================================== *)
(** * Further properties: the recorder                                    *)
(* ===================================================================== *)

Section RecorderSessionFacts.

Import Recorder RecorderRuns.
Local Open Scope Z_scope.

Lemma pause_resume_accounts (intervals : list (Z * Z)) :
  forall r : Instance,
    isRecording (state r) = true -> isPaused (state r) = false ->
    let r' := pause_resume intervals r in
    startTime r' = startTime r
    /\ pausedDuration r' = pausedDuration r + paused_total intervals
    /\ isRecording (state r') = true
    /\ isPaused (state r') = false
    /\ chunks r' = chunks r.
Proof.
  induction intervals as [|[p q] later IH]; intros r Hrec Hpau; simpl.
  - repeat split; try assumption. lia.
  - assert (E : fst (resume q (fst (pause p r)))
                = mkInstance (stream r) (mimeType r) (videoBitsPerSecond r)
                    (chunks r) (startTime r) (pausedDuration r + (q - p)) p
                    (mkRecorderState true false (duration (state r)))).
    { unfold pause. rewrite Hrec, Hpau. simpl. reflexivity. }
    rewrite E.
    match goal with |- context [pause_resume later ?x] =>
      destruct (IH x eq_refl eq_refl) as (Hs & Hp & Hr & Hq & Hc)
    end.
    simpl in *. rewrite Hs, Hp, Hr, Hq, Hc. repeat split. lia.
Qed.

(** X1: a recording started at [t0] and paused and resumed any number of
    times reports, while running and when stopped, the time since [t0] less
    the total length of the closed pauses; a pause that is still open is
    not subtracted yet. *)
Theorem duration_subtracts_closed_pauses
  (r : Instance) (t0 now : Z) (intervals : list (Z * Z)) :
  let running := pause_resume intervals (fst (start t0 r)) in
  duration (getState now running) = now - t0 - paused_total intervals
  /\ duration (state (fst (onstop now running)))
     = now - t0 - paused_total intervals
  /\ forall p,
       isPaused (state (fst (pause p running))) = true
       /\ duration (getState now (fst (pause p running)))
          = now - t0 - paused_total intervals.
Proof.
  intro running.
  destruct (@pause_resume_accounts intervals (fst (start t0 r))
              eq_refl eq_refl) as (Hs & Hp & Hr & Hq & _).
  fold running in Hs, Hp, Hr, Hq. simpl in Hs, Hp.
  split; [|split].
  - unfold getState. rewrite Hr. simpl. lia.
  - unfold onstop. destruct (chunks running); simpl; lia.
  - intro p. unfold pause. rewrite Hr, Hq. simpl. split; [reflexivity|].
    lia.
Qed.

Example one_pause_of_four_seconds :
  duration (getState 20000
              (pause_resume [(3000, 7000)] (fst (start 1000 sample_recorder))))
  = 15000.
Proof. reflexivity. Qed.

(** [pause] and [resume] are guarded: a second [pause] (or [resume])
    in a row does nothing, so the start of the pause is not overwritten,
    and neither does anything on a recorder that is not recording; neither
    touches the collected chunks. *)
Theorem pause_resume_guarded (r : Instance) (t t' : Z) :
  pause t' (fst (pause t r)) = (fst (pause t r), [])
  /\ resume t' (fst (resume t r)) = (fst (resume t r), [])
  /\ (isRecording (state r) = false ->
      pause t r = (r, []) /\ resume t r = (r, []))
  /\ chunks (fst (pause t r)) = chunks r
  /\ chunks (fst (resume t r)) = chunks r.
Proof.
  unfold pause, resume.
  destruct (isRecording (state r)) eqn:Hr, (isPaused (state r)) eqn:Hp;
    simpl; rewrite ?Hr, ?Hp; simpl; repeat split; try discriminate.
Qed.

Lemma collect_chunks (data : list Blob) :
  forall r : Instance,
    collect data r = set_chunks (chunks r ++ with_data data) r.
Proof.
  induction data as [|d later IH]; intro r; simpl.
  - rewrite app_nil_r. now destruct r.
  - rewrite IH. unfold ondataavailable.
    destruct (0 <? size d)%nat; simpl; [|reflexivity].
    now rewrite <- app_assoc.
Qed.

(** X3: [start] empties the chunk buffer: whatever an instance had
    collected before, the artifact of a recording started on it holds
    exactly the chunks with data delivered since that start, and the stop
    fails with "No data recorded" when there are none. *)
Theorem start_discards_earlier_chunks
  (r : Instance) (t0 now : Z) (during flushed : list Blob) :
  let session := collect during (fst (start t0 r)) in
  let fresh := with_data during ++ with_data flushed in
  snd (stop now (finalised flushed) session)
  = Some (match fresh with
          | [] => Rejected "No data recorded"
          | _ :: _ => Resolved (new_Blob fresh (mimeType r))
          end).
Proof.
  intros session fresh. unfold stop, finalised.
  rewrite deliver_flush. subst session. rewrite collect_chunks. simpl.
  fold fresh. unfold onstop. simpl. now destruct fresh.
Qed.

(** X4: the promise of [stop] is settled by the first of [stop] and
    [error] that the encoder fires: if an error event comes first (after
    any flush of data), [stop] rejects with "Recording error", chunks or
    not, and a later [stop] event does not change that. *)
Theorem error_event_settles_first
  (r : Instance) (now : Z) (flushed : list Blob) (what : string)
  (later : list EncoderEvent) :
  snd (stop now (map dataavailable flushed ++ error what :: later) r)
  = Some (Rejected ("Recording error: " ++ what)).
Proof.
  unfold stop. rewrite deliver_flush. simpl.
  match goal with |- context [deliver now later ?x ?p] =>
    pose proof (deliver_settled now later x (onerror what)) as H;
    destruct (deliver now later x p)
  end.
  exact H.
Qed.

End RecorderSessionFacts.

(* ===================================================================== *)
(** * Further properties: the recording hook                              *)
(* ===================================================================== *)

Section UseRecorderSessionFacts.

Import UseRecorder UseRecorderRuns.

Lemma deliver_stream (now : Z) (fired : list Recorder.EncoderEvent) :
  forall (r : Recorder.Instance) (p : option Recorder.Settled),
    Recorder.stream (fst (Recorder.deliver now fired r p)) = Recorder.stream r.
Proof.
  induction fired as [|ev fired IH]; intros r p; simpl; [reflexivity|].
  destruct ev as [data| |what].
  - rewrite IH. unfold Recorder.ondataavailable.
    now destruct (0 <? Recorder.size data)%nat.
  - unfold Recorder.onstop. destruct (Recorder.chunks r); rewrite IH; reflexivity.
  - apply IH.
Qed.

Lemma filter_map_none (A B : Type) (f : A -> B) (p : B -> bool) (l : list A) :
  (forall a, p (f a) = false) -> filter p (map f l) = [].
Proof.
  intro H. induction l as [|a l IH]; simpl; [reflexivity|]. now rewrite H.
Qed.

Lemma cropCleanup_quiet (c : option CropSession) :
  filter is_complete (cropCleanup c) = []
  /\ filter is_encoder_start (cropCleanup c) = [].
Proof.
  destruct c as [session|]; simpl; [|split; reflexivity].
  split; apply filter_map_none; reflexivity.
Qed.

Lemma recorderCleanup_quiet (r : option Recorder.Instance) :
  filter is_complete (recorderCleanup r) = []
  /\ filter is_encoder_start (recorderCleanup r) = [].
Proof.
  destruct r as [recorder|]; simpl; [|split; reflexivity].
  unfold Recorder.cleanup. rewrite map_map.
  split; apply filter_map_none; reflexivity.
Qed.

(** X5: once the encoder has settled the stop, [stopRecording] has
    released everything on the success and on the failure path alike: the
    three refs are cleared, the hook is neither recording nor processing,
    every track of the recorded stream was stopped and the crop session's
    cleanup was run; the completion callback ran exactly once with the
    artifact on success and not at all on failure. *)
Theorem stopRecording_releases
  (now : Z) (fired : list Recorder.EncoderEvent) (h : Hook)
  (recorder : Recorder.Instance) (v : Recorder.Settled) :
  recorderRef h = Some recorder ->
  snd (Recorder.stop now fired recorder) = Some v ->
  let h' := fst (fst (stopRecording now fired h)) in
  let eff := snd (fst (stopRecording now fired h)) in
  recorderRef h' = None /\ streamRef h' = None /\ cropCleanupRef h' = None
  /\ isRecording (state h') = false /\ isProcessing (state h') = false
  /\ (forall t, In t (Recorder.stream recorder) ->
        In (Rec (Recorder.TrackStop t)) eff)
  /\ (forall e, In e (cropCleanup (cropCleanupRef h)) -> In e eff)
  /\ match v with
     | Recorder.Resolved blob =>
         snd (stopRecording now fired h) = Returned (Some blob)
         /\ filter is_complete eff
            = (if onRecordingComplete h then [RecordingComplete blob] else [])
     | Recorder.Rejected message =>
         snd (stopRecording now fired h) = Threw message
         /\ filter is_complete eff = []
     end.
Proof.
  intros Href Hset h' eff. subst h' eff. unfold stopRecording. rewrite Href.
  assert (Hstream : Recorder.stream (fst (fst (Recorder.stop now fired recorder)))
                    = Recorder.stream recorder).
  { unfold Recorder.stop.
    pose proof (deliver_stream now fired recorder None) as H.
    destruct (Recorder.deliver now fired recorder None). exact H. }
  assert (Heff : snd (fst (Recorder.stop now fired recorder))
                 = [Recorder.MediaRecorderStop]).
  { unfold Recorder.stop.
    destruct (Recorder.deliver now fired recorder None). reflexivity. }
  destruct (Recorder.stop now fired recorder) as [[stopped eff0] settled].
  simpl in Hset, Hstream, Heff. subst settled eff0.
  destruct (cropCleanup_quiet (cropCleanupRef h)) as [Hcq _].
  destruct v as [blob|message]; simpl.
  - repeat split.
    + intros t Ht. right. apply in_or_app. left.
      unfold Recorder.cleanup. rewrite map_map, Hstream.
      apply in_map_iff. now exists t.
    + intros e He. right. apply in_or_app. right. apply in_or_app. now left.
    + unfold Recorder.cleanup. rewrite map_map.
      rewrite !filter_app, Hcq.
      rewrite filter_map_none by reflexivity. simpl.
      now destruct (onRecordingComplete h).
  - repeat split.
    + intros t Ht. right. right. apply in_or_app. left.
      unfold Recorder.cleanup. rewrite map_map, Hstream.
      apply in_map_iff. now exists t.
    + intros e He. right. right. apply in_or_app. now right.
    + unfold Recorder.cleanup. rewrite map_map.
      rewrite filter_app, Hcq.
      now rewrite filter_map_none by reflexivity.
Qed.

Lemma stopRecording_releases_witness :
  recorderRef
    (fst (fst (stopRecording 5000 (Recorder.finalised []) recording_hook)))
  = None.
Proof.
  eapply (@stopRecording_releases 5000 (Recorder.finalised []) recording_hook).
  - reflexivity.
  - reflexivity.
Defined.

(** X6: a second [stopRecording] after one that has settled (resolved or
    rejected, or that found nothing to stop) does nothing: no effect, no
    completion callback, [null] returned. *)
Theorem stopRecording_twice
  (now now' : Z) (fired fired' : list Recorder.EncoderEvent) (h : Hook) :
  snd (stopRecording now fired h) <> Pending ->
  stopRecording now' fired' (fst (fst (stopRecording now fired h)))
  = (fst (fst (stopRecording now fired h)), [], Returned None).
Proof.
  unfold stopRecording at 1 3 4.
  destruct (recorderRef h) as [recorder|] eqn:Href.
  - destruct (Recorder.stop now fired recorder) as [[stopped eff0] settled].
    destruct settled as [[blob|message]|]; simpl; intro H;
      try reflexivity.
    now contradiction H.
  - simpl. intros _. unfold stopRecording. now rewrite Href.
Qed.

Lemma stopRecording_twice_witness :
  stopRecording 6000 []
    (fst (fst (stopRecording 5000 (Recorder.finalised []) recording_hook)))
  = (fst (fst (stopRecording 5000 (Recorder.finalised []) recording_hook)),
     [], Returned None).
Proof.
  apply (@stopRecording_twice 5000 6000 (Recorder.finalised []) []
           recording_hook).
  discriminate.
Defined.

Lemma prepareRecording_shape
  (env : Env) (cfg : option Compositor.CropConfig) (h : Hook) (v : unit) :
  snd (prepareRecording env cfg h) = Returned v ->
  exists raw recorder,
    getDisplayMedia env = inr raw
    /\ Recorder.createRecorder (isTypeSupported env)
         (recorded_stream env cfg raw) (Recorder.mkOptions None None)
       = inr recorder
    /\ recorded_stream env cfg raw <> []
    /\ isSupported env = true
    /\ prepareRecording env cfg h
       = (mkHook (onRecordingComplete h) (state h) true true (Some recorder)
            (Some (recorded_stream env cfg raw))
            (match cfg with
             | Some c =>
                 Some (mkCropSession c raw
                         (Compositor.createCroppedStream raw))
             | None => None
             end),
          [GetDisplayMedia], Returned tt).
Proof.
  unfold prepareRecording, requestScreenCapture, recorded_stream.
  destruct (isSupported env); simpl; [|discriminate].
  destruct (getDisplayMedia env) as [err|raw]; [discriminate|].
  destruct cfg as [c|].
  - destruct (Recorder.createRecorder _ _ _) as [err|recorder] eqn:E;
      [discriminate|].
    unfold getVideoTracks.
    destruct (captureStream env) as [|t ts] eqn:Hs; [discriminate|].
    intros _. exists raw, recorder. repeat split; try assumption.
    discriminate.
  - destruct (Recorder.createRecorder _ _ _) as [err|recorder] eqn:E;
      [discriminate|].
    unfold getVideoTracks.
    destruct raw as [|t ts] eqn:Hs; [discriminate|].
    intros _. exists (t :: ts), recorder. repeat split; try assumption.
    discriminate.
Qed.




End UseRecorderSessionFacts.

Section UseRecorderSetupFacts.

Import UseRecorder UseRecorderRuns.

(** X8: [prepareRecording] returns exactly when the browser supports
    capture, the user grants it, the fixed codec (WebM/VP9) is supported and
    the stream handed to the recorder has a track; in an unsupported
    browser it throws before asking for anything and leaves the hook as it
    was. *)
Theorem prepareRecording_returns_iff
  (env : Env) (cfg : option Compositor.CropConfig) (h : Hook) :
  (snd (prepareRecording env cfg h) = Returned tt <->
   isSupported env = true
   /\ exists raw,
        getDisplayMedia env = inr raw
        /\ isTypeSupported env "video/webm;codecs=vp9" = true
        /\ recorded_stream env cfg raw <> [])
  /\ (isSupported env = false ->
      prepareRecording env cfg h
      = (h, [], Threw "Screen recording is not supported in this browser"))
  /\ (forall err, isSupported env = true -> getDisplayMedia env = inl err ->
      fst (fst (prepareRecording env cfg h)) = h
      /\ snd (prepareRecording env cfg h) = Threw err).
Proof.
  split; [split|split].
  - intro H. destruct (@prepareRecording_shape env cfg h tt H)
      as (raw & recorder & Hraw & Hrec & Hne & Hsup & _).
    split; [exact Hsup|]. exists raw. repeat split; try assumption.
    unfold Recorder.createRecorder in Hrec. simpl in Hrec.
    destruct (isTypeSupported env "video/webm;codecs=vp9");
      [reflexivity | discriminate Hrec].
  - intros (Hsup & raw & Hraw & Hmime & Hne).
    unfold prepareRecording, requestScreenCapture. rewrite Hsup, Hraw. simpl.
    unfold recorded_stream in Hne.
    destruct cfg as [c|]; unfold Recorder.createRecorder; simpl;
      rewrite Hmime; simpl; unfold getVideoTracks.
    + destruct (captureStream env); [now contradiction Hne | reflexivity].
    + destruct raw; [now contradiction Hne | reflexivity].
  - intro Hsup. unfold prepareRecording. now rewrite Hsup.
  - intros err Hsup Hraw.
    unfold prepareRecording, requestScreenCapture. rewrite Hsup, Hraw. simpl.
    split; reflexivity.
Qed.

Lemma prepareRecording_returns_iff_witness :
  snd (prepareRecording granting None (initial true)) = Returned tt
  /\ snd (prepareRecording denying None (initial true))
     = Threw "Permission denied".
Proof.
  split.
  - apply (proj1 (@prepareRecording_returns_iff granting None (initial true))).
    split; [reflexivity|]. exists [1%nat]. repeat split. discriminate.
  - apply (proj2 (proj2 (@prepareRecording_returns_iff denying None
                           (initial true)))); reflexivity.
Defined.

(** X9: on a hook that is not prepared, [startRecording] does what
    [prepareRecording] followed at once by [beginPreparedRecording] does:
    the same hook state and the same effects; and it throws in the same
    cases with the same error. *)
Theorem startRecording_is_prepare_then_begin
  (env : Env) (now : Z) (cfg : option Compositor.CropConfig) (h : Hook) :
  isPrepared h = false ->
  isPreparedRef h = false ->
  (snd (prepareRecording env cfg h) = Returned tt ->
   let prepared := fst (fst (prepareRecording env cfg h)) in
   startRecording env now cfg h
   = (fst (beginPreparedRecording now prepared),
      snd (fst (prepareRecording env cfg h))
        ++ snd (beginPreparedRecording now prepared),
      Returned tt))
  /\ (forall message,
        snd (prepareRecording env cfg h) = Threw message <->
        snd (startRecording env now cfg h) = Threw message).
Proof.
  intros Hp Hpr. split.
  - intros Hret prepared. subst prepared.
    destruct (@prepareRecording_shape env cfg h tt Hret)
      as (raw & recorder & Hraw & Hrec & Hne & Hsup & E).
    rewrite E. simpl.
    unfold startRecording, requestScreenCapture. rewrite Hsup, Hraw. simpl.
    unfold recorded_stream in *.
    destruct cfg as [c|]; rewrite Hrec; unfold getVideoTracks.
    + destruct (captureStream env); [now contradiction Hne|].
      simpl. now rewrite Hp, Hpr.
    + destruct raw; [now contradiction Hne|].
      simpl. now rewrite Hp, Hpr.
  - intro message.
    unfold prepareRecording, startRecording, requestScreenCapture.
    destruct (isSupported env); simpl; [|reflexivity].
    destruct (getDisplayMedia env) as [err|raw]; [reflexivity|].
    destruct cfg as [c|];
      destruct (Recorder.createRecorder _ _ _) as [err|recorder];
      try reflexivity; unfold getVideoTracks.
    + destruct (captureStream env); [reflexivity|].
      simpl. split; discriminate.
    + destruct raw; [reflexivity|].
      simpl. split; discriminate.
Qed.

Lemma startRecording_is_prepare_then_begin_witness :
  snd (fst (startRecording granting 1000 None (initial true)))
  = [GetDisplayMedia; Rec (Recorder.MediaRecorderStart 100)].
Proof.
  rewrite (proj1 (@startRecording_is_prepare_then_begin granting 1000 None
                    (initial true) eq_refl eq_refl) eq_refl).
  reflexivity.
Defined.

End UseRecorderSetupFacts.

(* ===================================================================== *)
(** * Further properties: the compositor and the screenshot               *)
(* ===================================================================== *)

Section CompositorLoopFacts.

Import Compositor CompositorLoop.
Local Open Scope Q_scope.

(** X10: the source rectangle is the target-sized rectangle centred on the
    element's bounding box, scaled from viewport to video coordinates: its
    centre is the scaled centre of the box and its size the scaled target
    size; when the capture has the viewport's size the rectangle has
    exactly the target size, so the draw copies pixels one to one. *)
Theorem sourceRect_centred (cfg : CropConfig) (dom : Dom) (rect : DOMRect) :
  let r := sourceRect cfg dom rect in
  sx r + sw r / 2 == (left rect + rect_width rect / 2) * scaleX dom
  /\ sy r + sh r / 2 == (top rect + rect_height rect / 2) * scaleY dom
  /\ sw r == width cfg * scaleX dom
  /\ sh r == height cfg * scaleY dom
  /\ (videoWidth dom = innerWidth dom -> innerWidth dom <> 0%Z ->
      sw r == width cfg /\ sx r == adLeft cfg rect)
  /\ (videoHeight dom = innerHeight dom -> innerHeight dom <> 0%Z ->
      sh r == height cfg /\ sy r == adTop cfg rect).
Proof.
  intro r. subst r. unfold sourceRect, adLeft, adTop. simpl.
  assert (one : forall z : Z, z <> 0%Z -> inject_Z z / inject_Z z == 1).
  { intros z Hz. unfold Qdiv. apply Qmult_inv_r.
    unfold Qeq, inject_Z. simpl. lia. }
  split; [field|]. split; [field|]. split; [reflexivity|].
  split; [reflexivity|]. split.
  - intros E Hz. unfold scaleX. rewrite E, (one _ Hz). split; ring.
  - intros E Hz. unfold scaleY. rewrite E, (one _ Hz). split; ring.
Qed.

Lemma sourceRect_centred_witness :
  sw (sourceRect ad_300x250 scrolled_dom scrolled_rect) == 300.
Proof.
  apply (@sourceRect_centred ad_300x250 scrolled_dom scrolled_rect);
    [reflexivity | discriminate].
Defined.

(** A call of [drawFrame] draws exactly when the loop is running, the
    crop target resolves and the video reports a width and a height; it
    never draws more than once, and while running it always requests
    exactly one next frame, drawn or not. *)
Theorem drawFrame_draws_iff (cfg : CropConfig) (dom : Dom) (s : State) :
  (filter is_draw (snd (drawFrame cfg dom s)) <> [] <->
   isRunning s = true
   /\ getElement cfg dom <> None
   /\ Browser.truthy (videoWidth dom) = true
   /\ Browser.truthy (videoHeight dom) = true)
  /\ (List.length (filter is_draw (snd (drawFrame cfg dom s))) <= 1)%nat
  /\ (isRunning s = true ->
      filter is_request (snd (drawFrame cfg dom s))
      = [RequestAnimationFrame (Browser.next_handle (frames s))])
  /\ (isRunning s = false -> drawFrame cfg dom s = (s, [])).
Proof.
  unfold drawFrame.
  destruct (isRunning s) eqn:Hrun; simpl.
  - destruct (getElement cfg dom) as [el|] eqn:Hel; simpl.
    + destruct (Browser.truthy (videoWidth dom)) eqn:Hw,
               (Browser.truthy (videoHeight dom)) eqn:Hh; simpl;
        (split; [split; [intro H; try (now contradiction H);
                         repeat split; discriminate
                        | intros (_ & _ & A & B);
                          try discriminate A; try discriminate B;
                          discriminate]
                | repeat split; auto with arith; discriminate]).
    + split; [split; [intro H; now contradiction H
                     | intros (_ & A & _); now contradiction A]
             | repeat split; auto with arith; discriminate].
  - split; [split; [intro H; now contradiction H
                   | intros (A & _); discriminate A]
           | repeat split; auto with arith; discriminate].
Qed.

End CompositorLoopFacts.

Section CompositorSessionFacts.

Import Compositor CompositorLoop.

Lemma drawFrame_from_idle (cfg : CropConfig) (dom : Dom) (s : State) :
  isRunning s = true -> Browser.pending (frames s) = [] ->
  steady (fst (drawFrame cfg dom s))
  /\ List.length (filter is_request (snd (drawFrame cfg dom s))) = 1%nat
  /\ (List.length (filter is_draw (snd (drawFrame cfg dom s))) <= 1)%nat.
Proof.
  intros Hrun Hpend.
  destruct (drawFrame_draws_iff cfg dom s) as (_ & Hd & Hr & _).
  rewrite (Hr Hrun). split; [|split; [reflexivity | exact Hd]].
  unfold drawFrame. rewrite Hrun. simpl.
  destruct (getElement cfg dom); unfold steady, schedule; simpl;
    rewrite Hpend; (split; [exact Hrun | eexists; split; reflexivity]).
Qed.

Lemma tick_steady (cfg : CropConfig) (dom : Dom) (s : State) :
  steady s ->
  steady (fst (tick cfg dom s))
  /\ List.length (filter is_request (snd (tick cfg dom s))) = 1%nat
  /\ (List.length (filter is_draw (snd (tick cfg dom s))) <= 1)%nat.
Proof.
  intros (Hrun & h & Hpend & _). unfold tick. rewrite Hpend.
  apply drawFrame_from_idle; [exact Hrun | reflexivity].
Qed.

Lemma ticks_steady (cfg : CropConfig) (doms : list Dom) :
  forall s : State,
    steady s ->
    steady (fst (ticks cfg doms s))
    /\ List.length (filter is_request (snd (ticks cfg doms s)))
       = List.length doms
    /\ (List.length (filter is_draw (snd (ticks cfg doms s)))
        <= List.length doms)%nat.
Proof.
  induction doms as [|dom later IH]; intros s Hs; simpl.
  - split; [exact Hs | split; auto].
  - destruct (tick_steady cfg dom Hs) as (H1 & Hr1 & Hd1).
    destruct (tick cfg dom s) as [s1 eff1]. simpl in *.
    destruct (IH s1 H1) as (H2 & Hr2 & Hd2).
    destruct (ticks cfg later s1) as [s2 eff2]. simpl in *.
    rewrite !filter_app, !length_app. split; [exact H2 | split; lia].
Qed.

Lemma ticks_without_frames (cfg : CropConfig) (doms : list Dom) :
  forall s : State,
    Browser.pending (frames s) = [] -> ticks cfg doms s = (s, []).
Proof.
  induction doms as [|dom later IH]; intros s Hp; simpl; [reflexivity|].
  unfold tick. rewrite Hp. now rewrite (IH s Hp).
Qed.

(** X11: from the creation of a cropped stream on, over any number of
    frames and whatever the page looks like, the loop keeps exactly one
    frame callback pending (the one [animationId] names), requests one
    frame per pass and draws at most once per pass; after the combined
    cleanup no callback is pending and no later frame does anything.  A
    cleanup that comes before the video's metadata keeps the loop from ever
    starting. *)
Theorem compositor_single_frame_in_flight
  (cfg : CropConfig) (raw : list Track) (ready : Dom) (doms : list Dom) :
  let s := fst (session cfg raw ready doms) in
  let eff := snd (session cfg raw ready doms) in
  steady s
  /\ List.length (filter is_request eff) = S (List.length doms)
  /\ (List.length (filter is_draw eff) <= S (List.length doms))%nat
  /\ (let s' := fst (combinedCleanup raw s) in
      Browser.pending (frames s') = []
      /\ forall later, ticks cfg later s' = (s', []))
  /\ onloadedmetadata cfg ready (fst (cleanup (createCroppedStream raw)))
     = (fst (cleanup (createCroppedStream raw)), []).
Proof.
  intros s eff. subst s eff. unfold session.
  destruct (@drawFrame_from_idle cfg ready (createCroppedStream raw)
              eq_refl eq_refl) as (H1 & Hr1 & Hd1).
  unfold onloadedmetadata.
  destruct (drawFrame cfg ready (createCroppedStream raw)) as [s1 eff1].
  simpl in H1, Hr1, Hd1.
  destruct (ticks_steady cfg doms H1) as (H2 & Hr2 & Hd2).
  destruct (ticks cfg doms s1) as [s2 eff2]. simpl in *.
  rewrite !filter_app, !length_app.
  split; [exact H2|]. split; [lia|]. split; [lia|]. split; [|reflexivity].
  destruct H2 as (_ & h & Hp & Ha).
  assert (E : Browser.pending (frames (fst (combinedCleanup raw s2))) = []).
  { unfold combinedCleanup, cleanup. simpl. rewrite Ha. simpl. rewrite Hp.
    simpl. destruct (Nat.eq_dec h h) as [_|N]; [reflexivity | now contradiction N]. }
  split; [exact E|]. intro later. now apply ticks_without_frames.
Qed.

End CompositorSessionFacts.

Section ScreenshotFacts.

Import Screenshot.
Local Open Scope Q_scope.

(** X13: a screenshot capture that was granted a stream and whose video
    loads stops every track of that stream exactly once, after everything
    else, whether the canvas yields a blob or not (it fails with "Failed to
    create blob" exactly when it yields none); it cuts the same source
    rectangle as the compositor would for that element and size.  A denied
    capture throws the platform's error with nothing to release, and a
    video that never loads leaves the call pending with the stream held. *)
Theorem captureScreenshot_releases_stream
  (env : Env) (options : ScreenshotOptions) :
  (forall err, getDisplayMedia env = inl err ->
     captureScreenshot env options
     = (UseRecorder.Threw err, [RequestDisplayMedia]))
  /\ (forall stream,
        getDisplayMedia env = inr stream -> loadedmetadata env = false ->
        captureScreenshot env options
        = (UseRecorder.Pending, [RequestDisplayMedia]))
  /\ (forall stream,
        getDisplayMedia env = inr stream -> loadedmetadata env = true ->
        let eff := snd (captureScreenshot env options) in
        let cfg :=
          Compositor.mkCrop (Compositor.Direct (element options))
            (width options) (height options) in
        let r :=
          Compositor.sourceRect cfg (dom env)
            (Compositor.getBoundingClientRect (dom env) (element options)) in
        (exists before,
            eff = before ++ map TrackStop stream
            /\ filter is_track_stop before = []
            /\ In (DrawImage (Compositor.sx r) (Compositor.sy r)
                     (Compositor.sw r) (Compositor.sh r) 0 0
                     (width options) (height options)) before)
        /\ (fst (captureScreenshot env options)
              = UseRecorder.Threw "Failed to create blob"
            <-> toBlob env
                  (mime_of (match format options with
                            | Some f => f | None => png end))
                  (match quality options with
                   | Some v => v | None => 92 # 100 end) = None)
        /\ forall s,
             Compositor.isRunning s = true ->
             Browser.truthy (Compositor.videoWidth (dom env)) = true ->
             Browser.truthy (Compositor.videoHeight (dom env)) = true ->
             Compositor.draws cfg (dom env) s r).
Proof.
  unfold captureScreenshot. split; [|split].
  - intros err ->. reflexivity.
  - intros stream -> ->. reflexivity.
  - intros stream -> ->. simpl. split; [|split].
    + destruct (toBlob env _ _); simpl;
        match goal with
        | |- exists before, ?a :: ?b :: ?c :: ?d :: ?e :: _ = _ /\ _ =>
            exists [a; b; c; d; e]
        end;
        (split; [reflexivity|]); (split; [reflexivity|]); simpl; tauto.
    + destruct (toBlob env _ _); simpl; split; intro H;
        try discriminate H; reflexivity.
    + intros s Hrun Hw Hh. unfold Compositor.draws, Compositor.drawFrame.
      rewrite Hrun. simpl. rewrite Hw, Hh. simpl. now left.
Qed.

Lemma captureScreenshot_releases_stream_witness :
  fst (captureScreenshot a_capture a_shot)
  = UseRecorder.Threw "Failed to create blob".
Proof.
  destruct (proj2 (proj2 (@captureScreenshot_releases_stream a_capture a_shot))
              [4%nat; 5%nat] eq_refl eq_refl) as (_ & H & _).
  apply H. reflexivity.
Defined.

End ScreenshotFacts.

(* ===================================================================== *)
(** * Further properties: the interaction recorders                       *)
(* ===================================================================== *)

Section TraceFacts.

Import Interaction Traces.
Local Open Scope Q_scope.

Lemma Math_round_mono (a b : Q) :
  a <= b -> inject_Z (Browser.Math_round a) <= inject_Z (Browser.Math_round b).
Proof.
  intro H. unfold Browser.Math_round. rewrite <- Zle_Qle.
  apply Qfloor_resp_le. now apply Qplus_le_compat; [|apply Qle_refl].
Qed.

Lemma Math_round_nonneg (a : Q) :
  0 <= a -> 0 <= inject_Z (Browser.Math_round a).
Proof.
  intro H. change 0 with (inject_Z (Browser.Math_round 0)).
  now apply Math_round_mono.
Qed.

Lemma sorted_snoc (l : list InteractionEvent) (e : InteractionEvent) :
  StronglySorted EventReplayer.by_timestamp l ->
  Forall (fun a => timestamp a <= timestamp e) l ->
  StronglySorted EventReplayer.by_timestamp (l ++ [e]).
Proof.
  induction 1 as [|a l Hl IH Ha]; intro Hall; simpl.
  - repeat constructor.
  - inversion Hall as [|? ? Hae Hrest]; subst.
    constructor; [now apply IH|].
    apply Forall_app. split; [exact Ha|]. now repeat constructor.
Qed.

Lemma stamped_within_later (start t u : Q) (l : list InteractionEvent) :
  t <= u -> stamped_within start t l -> stamped_within start u l.
Proof.
  intros Htu H. unfold stamped_within in *.
  eapply Forall_impl; [|exact H]. simpl. intros e [H0 H1]. split; [exact H0|].
  eapply Qle_trans; [exact H1|]. apply Math_round_mono.
  apply Qplus_le_compat; [exact Htu | apply Qle_refl].
Qed.

(** Appending an event stamped with the current rounded age keeps a trace
    sorted and within bounds. *)
Lemma stamped_snoc (start t now : Q) (l : list InteractionEvent)
  (e : InteractionEvent) :
  start <= t -> t <= now ->
  timestamp e = inject_Z (Browser.Math_round (now - start)) ->
  StronglySorted EventReplayer.by_timestamp l ->
  stamped_within start t l ->
  StronglySorted EventReplayer.by_timestamp (l ++ [e])
  /\ stamped_within start now (l ++ [e]).
Proof.
  intros Hst Htn Hts Hsorted Hw.
  pose proof (stamped_within_later Htn Hw) as Hw'.
  split.
  - apply sorted_snoc; [exact Hsorted|].
    eapply Forall_impl; [|exact Hw']. simpl. intros a [_ Ha]. now rewrite Hts.
  - apply Forall_app. split; [exact Hw'|]. constructor; [|constructor].
    rewrite Hts. split; [|apply Qle_refl].
    apply Math_round_nonneg. unfold Qminus. rewrite <- Qle_minus_iff.
    eapply Qle_trans; eassumption.
Qed.

Lemma createInteractionEvent_timestamp
  (r : EventRecorder.State) (ty : InteractionEventType)
  (ev : EventRecorder.DomEvent) (t : Q) (e : InteractionEvent) :
  EventRecorder.createInteractionEvent r ty ev t = Some e ->
  timestamp e = inject_Z (Browser.Math_round t) /\ type e = ty.
Proof.
  unfold EventRecorder.createInteractionEvent.
  destruct ev as [cx cy b sel|ts changed sel|on].
  - intro H. injection H as <-. split; reflexivity.
  - intro H. injection H as <-. split; reflexivity.
  - destruct ty; try discriminate.
    destruct (match on with
              | EventRecorder.OnElement t0 l => (t0, l)
              | EventRecorder.OnDocument d t0 l =>
                  match EventRecorder.targetDocument r with
                  | Some d' => if Nat.eqb d d' then (t0, l) else (0, 0)
                  | None => (0, 0)
                  end
              | EventRecorder.Elsewhere => (0, 0)
              end) as [st sl].
    intro H. injection H as <-. split; reflexivity.
Qed.

(** One listener call on a recording recorder: the trace is kept or grows
    at its end by one event stamped with the rounded age. *)
Lemma createHandler_step
  (ty : InteractionEventType) (ev : EventRecorder.DomEvent) (now : Q)
  (r : EventRecorder.State) :
  EventRecorder.isRecording r = true ->
  let r' := EventRecorder.createHandler ty ev now r in
  EventRecorder.isRecording r' = true
  /\ EventRecorder.startTime r' = EventRecorder.startTime r
  /\ (EventRecorder.events r' = EventRecorder.events r
      \/ exists e,
           EventRecorder.events r' = EventRecorder.events r ++ [e]
           /\ type e = ty
           /\ timestamp e
              = inject_Z (Browser.Math_round
                            (now - EventRecorder.startTime r))).
Proof.
  intros Hrec r'. subst r'. unfold EventRecorder.createHandler.
  rewrite Hrec. simpl.
  destruct (EventRecorder.is_mousemove ty
            && negb (Qle_bool EventRecorder.MOUSEMOVE_THROTTLE
                       (now - EventRecorder.startTime r
                        - EventRecorder.lastMouseMoveTime r))).
  - repeat split; auto.
  - destruct (EventRecorder.is_mousemove ty);
      match goal with
      | |- context [EventRecorder.createInteractionEvent ?s ?a ?b ?c] =>
          destruct (EventRecorder.createInteractionEvent s a b c) as [e|] eqn:E
      end; simpl; repeat split; auto;
      right; exists e;
      destruct (createInteractionEvent_timestamp _ _ _ _ E) as [Ht Hty];
      repeat split; assumption.
Qed.

Lemma feed_sorted (inputs : list Fired) :
  forall (r : EventRecorder.State) (t : Q),
    EventRecorder.isRecording r = true ->
    EventRecorder.startTime r <= t ->
    StronglySorted EventReplayer.by_timestamp (EventRecorder.events r) ->
    stamped_within (EventRecorder.startTime r) t (EventRecorder.events r) ->
    in_order t (map at_time inputs) ->
    let r' := feed inputs r in
    StronglySorted EventReplayer.by_timestamp (EventRecorder.events r')
    /\ Forall (fun e => 0 <= timestamp e) (EventRecorder.events r')
    /\ (List.length (EventRecorder.events r')
        <= List.length (EventRecorder.events r) + List.length inputs)%nat.
Proof.
  induction inputs as [|i later IH]; intros r t Hrec Hst Hsorted Hw Hord; simpl.
  - split; [exact Hsorted|]. split; [|lia].
    eapply Forall_impl; [|exact Hw]. simpl. tauto.
  - destruct Hord as [Hti Hord].
    destruct (createHandler_step (eventType i) (event i) (at_time i) r Hrec)
      as (Hrec' & Hstart & Hev).
    set (r1 := EventRecorder.createHandler (eventType i) (event i) (at_time i) r)
      in *.
    assert (Hst' : EventRecorder.startTime r1 <= at_time i).
    { rewrite Hstart. eapply Qle_trans; eassumption. }
    assert (H1 : StronglySorted EventReplayer.by_timestamp
                   (EventRecorder.events r1)
                 /\ stamped_within (EventRecorder.startTime r1) (at_time i)
                      (EventRecorder.events r1)
                 /\ (List.length (EventRecorder.events r1)
                     <= S (List.length (EventRecorder.events r)))%nat).
    { rewrite Hstart. destruct Hev as [E | (e & E & _ & Hts)]; rewrite E.
      - split; [exact Hsorted|]. split; [|lia].
        now apply (stamped_within_later Hti).
      - destruct (@stamped_snoc _ _ _ _ e Hst Hti Hts Hsorted Hw) as [A B].
        split; [exact A|]. split; [exact B|]. rewrite length_app. simpl. lia. }
    destruct H1 as (S1 & W1 & L1).
    destruct (IH r1 (at_time i) Hrec' Hst' S1 W1 Hord) as (A & B & C).
    split; [exact A|]. split; [exact B|]. lia.
Qed.

(** X14: a trace recorded by the event recorder under a clock that never
    goes back comes out sorted by timestamp, with no negative timestamp and
    at most one event per DOM event received. *)
Theorem recorded_trace_is_sorted
  (r : EventRecorder.State) (doc : EventRecorder.Document) (t0 : Q)
  (inputs : list Fired) :
  EventRecorder.isRecording r = false ->
  in_order t0 (map at_time inputs) ->
  let recorded :=
    snd (EventRecorder.stop
           (feed inputs (fst (EventRecorder.start (Some doc) t0 r)))) in
  StronglySorted EventReplayer.by_timestamp recorded
  /\ Forall (fun e => 0 <= timestamp e) recorded
  /\ (List.length recorded <= List.length inputs)%nat.
Proof.
  intros Hrec Hord recorded.
  assert (E : recorded
              = EventRecorder.events
                  (feed inputs (fst (EventRecorder.start (Some doc) t0 r)))).
  { subst recorded. unfold EventRecorder.stop.
    now destruct (negb (EventRecorder.isRecording _)). }
  rewrite E. clear E recorded.
  unfold EventRecorder.start. rewrite Hrec. simpl.
  match goal with |- context [feed inputs ?s] =>
    exact (@feed_sorted inputs s t0 eq_refl (Qle_refl t0)
             (SSorted_nil _) (Forall_nil _) Hord)
  end.
Qed.

Lemma recorded_trace_is_sorted_witness :
  (List.length
     (snd (EventRecorder.stop
             (feed [mkFired click (EventRecorder.MouseEvent 10 20 0 None) 250]
                (fst (EventRecorder.start (Some 1%nat) 100
                        EventRecorder.fresh)))))
   <= 1)%nat.
Proof.
  apply (@recorded_trace_is_sorted EventRecorder.fresh 1%nat 100
           [mkFired click (EventRecorder.MouseEvent 10 20 0 None) 250]).
  - reflexivity.
  - simpl. split; [discriminate | exact I].
Defined.

End TraceFacts.

Section OverlayTraceFacts.

Import Interaction Traces.
Local Open Scope Q_scope.

(** What one input does to a recording overlay recorder. *)
Lemma handle_step (i : Input) (r : OverlayRecorder.State) :
  OverlayRecorder.isRecording r = true ->
  let r' := fst (handle i r) in
  let eff := snd (handle i r) in
  OverlayRecorder.isRecording r' = true
  /\ OverlayRecorder.startTime r' = OverlayRecorder.startTime r
  /\ OverlayRecorder.onEventCountChange r' = OverlayRecorder.onEventCountChange r
  /\ ((OverlayRecorder.events r' = OverlayRecorder.events r /\ counts eff = [])
      \/ exists e now,
           clock_of [i] = [now]
           /\ OverlayRecorder.events r' = OverlayRecorder.events r ++ [e]
           /\ timestamp e
              = inject_Z (Browser.Math_round
                            (now - OverlayRecorder.startTime r))
           /\ (type e = click \/ type e = touchstart)
           /\ counts eff
              = if OverlayRecorder.onEventCountChange r
                then [S (List.length (OverlayRecorder.events r))] else []).
Proof.
  intros Hrec r' eff. subst r' eff.
  destruct i as [l t cx cy|now|l t touches now]; simpl.
  - unfold OverlayRecorder.onMouseMove. rewrite Hrec. simpl.
    destruct (negb (OverlayRecorder.iframe r)); simpl; repeat split; auto.
  - unfold OverlayRecorder.onWindowBlur. rewrite Hrec. simpl.
    destruct (negb (OverlayRecorder.isMouseOverAd r)); simpl.
    + repeat split; auto.
    + repeat split; auto. right.
      eexists. exists now. repeat split; auto.
      rewrite length_app. simpl. rewrite Nat.add_1_r.
      unfold OverlayRecorder.showClickRipple. simpl.
      destruct (OverlayRecorder.onEventCountChange r),
               (OverlayRecorder.overlay r); reflexivity.
  - unfold OverlayRecorder.onTouchStart. rewrite Hrec. simpl.
    destruct (negb (OverlayRecorder.iframe r)); simpl;
      [repeat split; auto|].
    destruct touches as [|touch rest]; simpl; [repeat split; auto|].
    destruct (negb (OverlayRecorder.inside r _ _)); simpl;
      [repeat split; auto|].
    repeat split; auto. right.
    eexists. exists now. repeat split; auto.
    rewrite length_app. simpl. rewrite Nat.add_1_r.
    unfold OverlayRecorder.showClickRipple. simpl.
    destruct (OverlayRecorder.onEventCountChange r),
             (OverlayRecorder.overlay r); reflexivity.
Qed.

Lemma clock_step (i : Input) (later : list Input) (t : Q) :
  in_order t (clock_of (i :: later)) ->
  exists t',
    t <= t' /\ in_order t' (clock_of later)
    /\ forall now, clock_of [i] = [now] -> now = t'.
Proof.
  destruct i as [l tp cx cy|now|l tp touches now]; simpl.
  - intro H. exists t. split; [apply Qle_refl|]. split; [exact H|].
    intros now E. discriminate E.
  - intros [H1 H2]. exists now. split; [exact H1|]. split; [exact H2|].
    intros n E. now injection E as <-.
  - intros [H1 H2]. exists now. split; [exact H1|]. split; [exact H2|].
    intros n E. now injection E as <-.
Qed.

Lemma counts_app (a b : list OverlayRecorder.Effect) :
  counts (a ++ b) = counts a ++ counts b.
Proof. unfold counts. apply flat_map_app. Qed.

Lemma overlay_feed_sorted (inputs : list Input) :
  forall (r : OverlayRecorder.State) (t : Q),
    OverlayRecorder.isRecording r = true ->
    OverlayRecorder.startTime r <= t ->
    StronglySorted EventReplayer.by_timestamp (OverlayRecorder.events r) ->
    stamped_within (OverlayRecorder.startTime r) t (OverlayRecorder.events r) ->
    in_order t (clock_of inputs) ->
    let r' := fst (overlay_feed inputs r) in
    let eff := snd (overlay_feed inputs r) in
    StronglySorted EventReplayer.by_timestamp (OverlayRecorder.events r')
    /\ Forall (fun e => 0 <= timestamp e) (OverlayRecorder.events r')
    /\ (exists added,
          OverlayRecorder.events r' = OverlayRecorder.events r ++ added
          /\ Forall (fun e => type e = click \/ type e = touchstart) added
          /\ counts eff
             = if OverlayRecorder.onEventCountChange r
               then seq (S (List.length (OverlayRecorder.events r)))
                      (List.length added)
               else []).
Proof.
  induction inputs as [|i later IH]; intros r t Hrec Hst Hsorted Hw Hord.
  - simpl. split; [exact Hsorted|]. split.
    + eapply Forall_impl; [|exact Hw]. simpl. tauto.
    + exists []. rewrite app_nil_r. repeat split; [constructor|].
      now destruct (OverlayRecorder.onEventCountChange r).
  - destruct (@clock_step i later t Hord) as (t' & Htt' & Hord' & Hnow).
    destruct (@handle_step i r Hrec) as (Hrec' & Hstart & Hcb & Hev).
    cbn [overlay_feed]. destruct (handle i r) as [r1 eff1].
    cbn [fst snd] in Hrec', Hstart, Hcb, Hev.
    assert (Hst' : OverlayRecorder.startTime r1 <= t').
    { rewrite Hstart. eapply Qle_trans; eassumption. }
    destruct Hev as [[E Hc] | (e & now & Hclock & E & Hts & Hty & Hc)].
    + assert (S1 : StronglySorted EventReplayer.by_timestamp
                     (OverlayRecorder.events r1)) by (now rewrite E).
      assert (W1 : stamped_within (OverlayRecorder.startTime r1) t'
                     (OverlayRecorder.events r1)).
      { rewrite Hstart, E. now apply (stamped_within_later Htt'). }
      destruct (IH r1 t' Hrec' Hst' S1 W1 Hord')
        as (A & B & added & Ea & Fa & Ca).
      destruct (overlay_feed later r1) as [r2 eff2]. cbn [fst snd] in *.
      split; [exact A|]. split; [exact B|].
      exists added. rewrite <- E. split; [exact Ea|]. split; [exact Fa|].
      rewrite counts_app, Hc. simpl. now rewrite <- Hcb.
    + rewrite (Hnow now Hclock) in Hts.
      destruct (@stamped_snoc _ _ _ _ e Hst Htt' Hts Hsorted Hw) as [S1 W1].
      rewrite <- E in S1, W1. rewrite <- Hstart in W1.
      destruct (IH r1 t' Hrec' Hst' S1 W1 Hord')
        as (A & B & added & Ea & Fa & Ca).
      destruct (overlay_feed later r1) as [r2 eff2]. cbn [fst snd] in *.
      split; [exact A|]. split; [exact B|].
      exists (e :: added). split; [|split].
      * rewrite Ea, E, <- app_assoc. reflexivity.
      * now constructor.
      * rewrite counts_app, Hc, Ca, <- Hcb, E.
        destruct (OverlayRecorder.onEventCountChange r1); [|reflexivity].
        rewrite length_app. simpl. now rewrite Nat.add_1_r.
Qed.

(** X15: under a clock that never goes back, whatever the pointer moves,
    focus losses and touches, the overlay recorder's trace comes out sorted
    by timestamp, with no negative timestamp and holding only clicks and
    touch starts; and the count callback, when given, is called once per
    recorded event with 1, 2, 3, ... up to the number of events. *)
Theorem overlay_trace_is_sorted
  (r : OverlayRecorder.State) (w h : Q) (callback : bool) (t0 : Q)
  (inputs : list Input) :
  OverlayRecorder.isRecording r = false ->
  in_order t0 (clock_of inputs) ->
  let session :=
    overlay_feed inputs
      (fst (OverlayRecorder.start true w h callback t0 r)) in
  let recorded := snd (OverlayRecorder.stop (fst session)) in
  StronglySorted EventReplayer.by_timestamp recorded
  /\ Forall (fun e => 0 <= timestamp e) recorded
  /\ Forall (fun e => type e = click \/ type e = touchstart) recorded
  /\ counts (snd session)
     = if callback then seq 1 (List.length recorded) else [].
Proof.
  intros Hrec Hord session recorded.
  assert (E : recorded = OverlayRecorder.events (fst session)).
  { subst recorded. unfold OverlayRecorder.stop.
    now destruct (negb (OverlayRecorder.isRecording _)). }
  rewrite E. clear E recorded. subst session.
  unfold OverlayRecorder.start. rewrite Hrec. simpl.
  match goal with |- context [overlay_feed inputs ?s] =>
    destruct (@overlay_feed_sorted inputs s t0 eq_refl (Qle_refl t0)
                (SSorted_nil _) (Forall_nil _) Hord)
      as (A & B & added & Ea & Fa & Ca)
  end.
  simpl in Ea, Ca. rewrite Ea.
  split; [now rewrite <- Ea|]. split; [now rewrite <- Ea|].
  split; [exact Fa | exact Ca].
Qed.

Lemma overlay_trace_is_sorted_witness :
  counts
    (snd (overlay_feed [MouseMove 100 50 130 90; WindowBlur (12004 # 10)]
            (fst (OverlayRecorder.start true 300 250 true 0
                    OverlayRecorder.fresh))))
  = [1%nat].
Proof.
  apply (@overlay_trace_is_sorted OverlayRecorder.fresh 300 250 true 0
           [MouseMove 100 50 130 90; WindowBlur (12004 # 10)]).
  - reflexivity.
  - simpl. split; [discriminate | exact I].
Defined.

End OverlayTraceFacts.

Section RecorderGuardFacts.

Import Interaction Traces TraceBounds.
Local Open Scope Q_scope.

(** X16: once stopped, neither recorder records anything: every listener
    of the event recorder and every handler of the overlay recorder leaves
    a stopped recorder exactly as it is; and [stop] is idempotent, handing
    back the same events both times. *)
Theorem stopped_recorders_record_nothing :
  (forall r ty ev now,
      EventRecorder.createHandler ty ev now (fst (EventRecorder.stop r))
      = fst (EventRecorder.stop r))
  /\ (forall r,
        snd (EventRecorder.stop r) = EventRecorder.events r
        /\ EventRecorder.stop (fst (EventRecorder.stop r))
           = (fst (EventRecorder.stop r), EventRecorder.events r))
  /\ (forall r i,
        handle i (fst (OverlayRecorder.stop r))
        = (fst (OverlayRecorder.stop r), []))
  /\ (forall r,
        snd (OverlayRecorder.stop r) = OverlayRecorder.events r
        /\ OverlayRecorder.stop (fst (OverlayRecorder.stop r))
           = (fst (OverlayRecorder.stop r), OverlayRecorder.events r)).
Proof.
  assert (A : forall r,
             EventRecorder.isRecording (fst (EventRecorder.stop r)) = false
             /\ EventRecorder.events (fst (EventRecorder.stop r))
                = EventRecorder.events r
             /\ snd (EventRecorder.stop r) = EventRecorder.events r).
  { intro r. unfold EventRecorder.stop.
    destruct (EventRecorder.isRecording r) eqn:E; simpl; auto. }
  assert (B : forall r,
             OverlayRecorder.isRecording (fst (OverlayRecorder.stop r)) = false
             /\ OverlayRecorder.events (fst (OverlayRecorder.stop r))
                = OverlayRecorder.events r
             /\ snd (OverlayRecorder.stop r) = OverlayRecorder.events r).
  { intro r. unfold OverlayRecorder.stop.
    destruct (OverlayRecorder.isRecording r) eqn:E; simpl; auto. }
  split; [|split; [|split]].
  - intros r ty ev now. destruct (A r) as (H & _).
    unfold EventRecorder.createHandler. now rewrite H.
  - intro r. destruct (A r) as (H & He & Hs). split; [exact Hs|].
    unfold EventRecorder.stop at 1. rewrite H. simpl. now rewrite He.
  - intros r i. destruct (B r) as (H & _).
    destruct i; simpl.
    + unfold OverlayRecorder.onMouseMove. now rewrite H.
    + unfold OverlayRecorder.onWindowBlur. now rewrite H.
    + unfold OverlayRecorder.onTouchStart. now rewrite H.
  - intro r. destruct (B r) as (H & He & Hs). split; [exact Hs|].
    unfold OverlayRecorder.stop at 1. rewrite H. simpl. now rewrite He.
Qed.

(** X17: pointer moves are throttled: after a move that was accepted, a
    move less than 16 ms later is dropped and leaves the recorder as it
    is, a move 16 ms later or more is recorded; events of the other types
    are never throttled. *)
Theorem mousemove_throttle
  (r : EventRecorder.State) (e1 e2 : EventRecorder.DomEvent)
  (now1 now2 : Q) :
  EventRecorder.isRecording r = true ->
  16 <= now1 - EventRecorder.startTime r - EventRecorder.lastMouseMoveTime r ->
  now2 - now1 < 16 ->
  let r1 := EventRecorder.createHandler mousemove e1 now1 r in
  EventRecorder.createHandler mousemove e2 now2 r1 = r1
  /\ (forall now3 cx cy b sel,
        16 <= now3 - now1 ->
        EventRecorder.events
          (EventRecorder.createHandler mousemove
             (EventRecorder.MouseEvent cx cy b sel) now3 r1)
        = EventRecorder.events r1
            ++ [mkEvent mousemove
                  (inject_Z (Browser.Math_round
                               (now3 - EventRecorder.startTime r)))
                  cx cy sel None None None (Some b)])
  /\ (forall ty cx cy b sel now,
        EventRecorder.is_mousemove ty = false ->
        EventRecorder.events
          (EventRecorder.createHandler ty
             (EventRecorder.MouseEvent cx cy b sel) now r)
        = EventRecorder.events r
            ++ [mkEvent ty
                  (inject_Z (Browser.Math_round
                               (now - EventRecorder.startTime r)))
                  cx cy sel None None None (Some b)]).
Proof.
  intros Hrec Hacc Hsoon r1.
  assert (Hok : Qle_bool EventRecorder.MOUSEMOVE_THROTTLE
                  (now1 - EventRecorder.startTime r
                   - EventRecorder.lastMouseMoveTime r) = true)
    by (now apply Qle_bool_iff).
  assert (H1 : EventRecorder.isRecording r1 = true
               /\ EventRecorder.startTime r1 = EventRecorder.startTime r
               /\ EventRecorder.lastMouseMoveTime r1
                  = now1 - EventRecorder.startTime r).
  { subst r1. unfold EventRecorder.createHandler. rewrite Hrec. simpl.
    rewrite Hok. simpl.
    destruct (EventRecorder.createInteractionEvent _ _ _ _); simpl;
      repeat split; assumption. }
  destruct H1 as (Hrec1 & Hst1 & Hlast1). clearbody r1.
  split; [|split].
  - unfold EventRecorder.createHandler. rewrite Hrec1, Hst1, Hlast1. simpl.
    match goal with |- context [Qle_bool ?a ?b] =>
      destruct (Qle_bool a b) eqn:E
    end; [|reflexivity].
    apply Qle_bool_iff in E. unfold EventRecorder.MOUSEMOVE_THROTTLE in E.
    exfalso. lra.
  - intros now3 cx cy b sel Hlate.
    unfold EventRecorder.createHandler. rewrite Hrec1, Hst1, Hlast1. simpl.
    match goal with |- context [Qle_bool ?a ?b] =>
      destruct (Qle_bool a b) eqn:E
    end.
    + reflexivity.
    + exfalso.
      assert (F : Qle_bool EventRecorder.MOUSEMOVE_THROTTLE
                    (now3 - EventRecorder.startTime r
                     - (now1 - EventRecorder.startTime r)) = true).
      { apply Qle_bool_iff. unfold EventRecorder.MOUSEMOVE_THROTTLE. lra. }
      congruence.
  - intros ty cx cy b sel now Hty.
    unfold EventRecorder.createHandler. rewrite Hrec, Hty. reflexivity.
Qed.

Lemma mousemove_throttle_witness :
  EventRecorder.createHandler mousemove (EventRecorder.MouseEvent 7 7 0 None) 110
    (EventRecorder.createHandler mousemove
       (EventRecorder.MouseEvent 5 5 0 None) 100
       (fst (EventRecorder.start (Some 1%nat) 0 EventRecorder.fresh)))
  = EventRecorder.createHandler mousemove
      (EventRecorder.MouseEvent 5 5 0 None) 100
      (fst (EventRecorder.start (Some 1%nat) 0 EventRecorder.fresh)).
Proof.
  apply (@mousemove_throttle
           (fst (EventRecorder.start (Some 1%nat) 0 EventRecorder.fresh))
           (EventRecorder.MouseEvent 5 5 0 None)
           (EventRecorder.MouseEvent 7 7 0 None) 100 110).
  - reflexivity.
  - vm_compute. discriminate.
  - reflexivity.
Defined.

(** X18: [start] does not reset the throttle: on a recorder that is
    started again, pointer moves are dropped until the new recording is
    16 ms older than the previous recording was at its last accepted
    move. *)
Theorem restart_keeps_throttle
  (r : EventRecorder.State) (doc : EventRecorder.Document) (t0 now : Q)
  (ev : EventRecorder.DomEvent) :
  EventRecorder.isRecording r = false ->
  now - t0 < EventRecorder.lastMouseMoveTime r + 16 ->
  let restarted := fst (EventRecorder.start (Some doc) t0 r) in
  EventRecorder.isRecording restarted = true
  /\ EventRecorder.events restarted = []
  /\ EventRecorder.createHandler mousemove ev now restarted = restarted.
Proof.
  intros Hrec Hsoon restarted. subst restarted.
  unfold EventRecorder.start. rewrite Hrec. simpl.
  split; [reflexivity|]. split; [reflexivity|].
  unfold EventRecorder.createHandler. simpl.
  match goal with |- context [Qle_bool ?a ?b] =>
    destruct (Qle_bool a b) eqn:E
  end; [|reflexivity].
  apply Qle_bool_iff in E. unfold EventRecorder.MOUSEMOVE_THROTTLE in E.
  exfalso. lra.
Qed.

(** A second recording starts at 100 s; a pointer move 30 s into it is
    still dropped, the first recording's last move having come at 60 s. *)
Lemma restart_keeps_throttle_witness :
  EventRecorder.createHandler mousemove
    (EventRecorder.MouseEvent 5 5 0 None) 130000
    (fst (EventRecorder.start (Some 1%nat) 100000 after_a_minute))
  = fst (EventRecorder.start (Some 1%nat) 100000 after_a_minute).
Proof.
  apply (@restart_keeps_throttle after_a_minute 1%nat 100000 130000
           (EventRecorder.MouseEvent 5 5 0 None)); reflexivity.
Defined.

End RecorderGuardFacts.

Section OverlayBoundsFacts.

Import Interaction Traces TraceBounds.
Local Open Scope Q_scope.

Lemma inside_bounds (r : OverlayRecorder.State) (a b : Q) :
  OverlayRecorder.inside r a b = true ->
  0 <= a /\ a <= OverlayRecorder.width r
  /\ 0 <= b /\ b <= OverlayRecorder.height r.
Proof.
  unfold OverlayRecorder.inside. intro H.
  apply andb_true_iff in H. destruct H as [H Hh].
  apply andb_true_iff in H. destruct H as [H Hw].
  apply andb_true_iff in H. destruct H as [Ha Hb].
  apply Qle_bool_iff in Ha, Hb, Hw, Hh. tauto.
Qed.

Lemma round_within (r : OverlayRecorder.State) (a b : Q) :
  OverlayRecorder.inside r a b = true ->
  0 <= OverlayRecorder.round a
  /\ OverlayRecorder.round a <= OverlayRecorder.round (OverlayRecorder.width r)
  /\ 0 <= OverlayRecorder.round b
  /\ OverlayRecorder.round b <= OverlayRecorder.round (OverlayRecorder.height r).
Proof.
  intro H. destruct (inside_bounds r a b H) as (A0 & A1 & B0 & B1).
  unfold OverlayRecorder.round. repeat split;
    (apply Math_round_nonneg || apply Math_round_mono); assumption.
Qed.

(** X20: a focus loss right after a pointer move is recorded as a click
    exactly when that move was over the ad: then one click is appended, at
    the pointer's rounded position relative to the iframe (within the
    ad's bounds) and stamped with the rounded age of the recording;
    otherwise the focus loss changes nothing. *)
Theorem focus_loss_is_click_iff_pointer_over_ad
  (r : OverlayRecorder.State) (left top clientX clientY now : Q) :
  OverlayRecorder.isRecording r = true ->
  OverlayRecorder.iframe r = true ->
  let px := clientX - left in
  let py := clientY - top in
  let moved := OverlayRecorder.onMouseMove left top clientX clientY r in
  (OverlayRecorder.inside r px py = true ->
   OverlayRecorder.events (fst (OverlayRecorder.onWindowBlur now moved))
   = OverlayRecorder.events r
       ++ [mkEvent click
             (OverlayRecorder.round (now - OverlayRecorder.startTime r))
             (OverlayRecorder.round px) (OverlayRecorder.round py)
             None None None None None]
   /\ within_ad (OverlayRecorder.width r) (OverlayRecorder.height r)
        (mkEvent click
           (OverlayRecorder.round (now - OverlayRecorder.startTime r))
           (OverlayRecorder.round px) (OverlayRecorder.round py)
           None None None None None))
  /\ (OverlayRecorder.inside r px py = false ->
      OverlayRecorder.onWindowBlur now moved = (moved, [])
      /\ OverlayRecorder.events moved = OverlayRecorder.events r).
Proof.
  intros Hrec Hif px py moved. subst moved.
  unfold OverlayRecorder.onMouseMove. rewrite Hrec, Hif. simpl.
  fold px py. split; intro Hin; rewrite Hin.
  - unfold OverlayRecorder.onWindowBlur. simpl.
    split; [reflexivity|].
    unfold within_ad. simpl. now apply round_within.
  - unfold OverlayRecorder.onWindowBlur. simpl.
    split; reflexivity.
Qed.

Lemma focus_loss_is_click_iff_pointer_over_ad_witness :
  List.length
    (OverlayRecorder.events
       (fst (OverlayRecorder.onWindowBlur (12004 # 10)
               (OverlayRecorder.onMouseMove 100 50 130 90
                  (fst (OverlayRecorder.start true 300 250 true 0
                          OverlayRecorder.fresh))))))
  = 1%nat.
Proof.
  rewrite (proj1 (proj1 (@focus_loss_is_click_iff_pointer_over_ad
                           (fst (OverlayRecorder.start true 300 250 true 0
                                   OverlayRecorder.fresh))
                           100 50 130 90 (12004 # 10) eq_refl eq_refl)
                    eq_refl)).
  reflexivity.
Defined.

(** The facts a session keeps from one input to the next. *)
Lemma handle_keeps_bounds (w h : Q) (i : Input) (r : OverlayRecorder.State) :
  OverlayRecorder.width r = w -> OverlayRecorder.height r = h ->
  pointer_consistent r ->
  Forall (within_ad w h) (OverlayRecorder.events r) ->
  let r' := fst (handle i r) in
  OverlayRecorder.width r' = w /\ OverlayRecorder.height r' = h
  /\ pointer_consistent r'
  /\ Forall (within_ad w h) (OverlayRecorder.events r').
Proof.
  intros Hw Hh Hp Hall r'. subst r'.
  destruct i as [l t cx cy|now|l t touches now]; simpl.
  - unfold OverlayRecorder.onMouseMove.
    destruct (negb (OverlayRecorder.isRecording r)
              || negb (OverlayRecorder.iframe r)); [now repeat split|].
    simpl. split; [exact Hw|]. split; [exact Hh|]. split; [|exact Hall].
    unfold pointer_consistent. simpl. intro Hin. rewrite Hin.
    unfold OverlayRecorder.inside in *. simpl. exact Hin.
  - unfold OverlayRecorder.onWindowBlur.
    destruct (OverlayRecorder.isRecording r) eqn:Hrec; simpl;
      [|now repeat split].
    destruct (OverlayRecorder.isMouseOverAd r) eqn:Hover; simpl;
      [|now repeat split].
    split; [exact Hw|]. split; [exact Hh|]. split.
    + unfold pointer_consistent in *. simpl. intros _.
      specialize (Hp Hover). unfold OverlayRecorder.inside in *. exact Hp.
    + apply Forall_app. split; [exact Hall|]. constructor; [|constructor].
      unfold within_ad. simpl. rewrite <- Hw, <- Hh.
      apply round_within. exact (Hp Hover).
  - unfold OverlayRecorder.onTouchStart.
    destruct (negb (OverlayRecorder.isRecording r)
              || negb (OverlayRecorder.iframe r)); [now repeat split|].
    destruct touches as [|touch rest]; [now repeat split|].
    destruct (OverlayRecorder.inside r _ _) eqn:Hin; simpl;
      [|now repeat split].
    split; [exact Hw|]. split; [exact Hh|]. split.
    + unfold pointer_consistent in *. simpl. intro Hover.
      specialize (Hp Hover). unfold OverlayRecorder.inside in *. exact Hp.
    + apply Forall_app. split; [exact Hall|]. constructor; [|constructor].
      unfold within_ad. simpl. rewrite <- Hw, <- Hh.
      now apply round_within.
Qed.

Lemma overlay_feed_keeps_bounds (w h : Q) (inputs : list Input) :
  forall r : OverlayRecorder.State,
    OverlayRecorder.width r = w -> OverlayRecorder.height r = h ->
    pointer_consistent r ->
    Forall (within_ad w h) (OverlayRecorder.events r) ->
    Forall (within_ad w h)
      (OverlayRecorder.events (fst (overlay_feed inputs r))).
Proof.
  induction inputs as [|i later IH]; intros r Hw Hh Hp Hall; simpl;
    [exact Hall|].
  destruct (@handle_keeps_bounds w h i r Hw Hh Hp Hall) as (A & B & C & D).
  destruct (handle i r) as [r1 eff1]. simpl in *.
  specialize (IH r1 A B C D).
  destruct (overlay_feed later r1) as [r2 eff2]. exact IH.
Qed.

(** X19: in a session of a newly created overlay recorder, every recorded
    event, click or touch, has its coordinates inside the ad's area
    (between 0 and the rounded width and height), whatever the pointer,
    the focus and the touches do. *)
Theorem overlay_events_within_ad
  (w h : Q) (callback : bool) (t0 : Q) (inputs : list Input) :
  Forall (within_ad w h)
    (snd (OverlayRecorder.stop
            (fst (overlay_feed inputs
                    (fst (OverlayRecorder.start true w h callback t0
                            OverlayRecorder.fresh)))))).
Proof.
  assert (E : forall r, snd (OverlayRecorder.stop r) = OverlayRecorder.events r).
  { intro r. unfold OverlayRecorder.stop.
    now destruct (negb (OverlayRecorder.isRecording r)). }
  rewrite E. apply overlay_feed_keeps_bounds; try reflexivity.
  - unfold pointer_consistent. simpl. discriminate.
  - constructor.
Qed.

End OverlayBoundsFacts.

(* ===================================================================== *)
(** * Further properties: the replayer                                    *)
(* ===================================================================== *)

Section ReplayRunFacts.

Import Interaction EventReplayer ReplayRuns.
Local Open Scope Q_scope.

(** X21: on a replayer that is not playing and holds events, [play]
    against a content document that cannot be accessed reads the document,
    reports the failure to the error callback and throws "Cannot access
    iframe document"; nothing is dispatched, no frame is requested and the
    replayer is left exactly as it was, so that a later attempt can start. *)
Theorem play_inaccessible_document
  (now first : Q) (cb : ReplayCallbacks) (r : State) :
  isPlaying r = false ->
  events r <> [] ->
  play now first None cb r
  = (r, ReadContentDocument :: call_onError cb cannot_access,
     Threw cannot_access)
  /\ dispatches (snd (fst (play now first None cb r))) = []
  /\ filter is_frame_request (snd (fst (play now first None cb r))) = []
  /\ (onError cb = Given ->
      snd (fst (play now first None cb r))
      = [ReadContentDocument; Callback (Failed cannot_access)])
  /\ forall doc later_now later_first,
       snd (play later_now later_first (Some doc) cb
              (fst (fst (play now first None cb r))))
       = Awaiting.
Proof.
  intros Hplay Hev.
  assert (Hlen : (List.length (events r) =? 0)%nat = false).
  { destruct (events r); [now contradiction Hev | reflexivity]. }
  assert (E : play now first None cb r
              = (r, ReadContentDocument :: call_onError cb cannot_access,
                 Threw cannot_access)).
  { unfold play. now rewrite Hplay, Hlen. }
  rewrite E. simpl. split; [reflexivity|]. unfold call_onError.
  split; [now apply dispatches_call|]. split; [|split].
  - generalize (onError cb). intro h0.
    induction h0 as [| |h0 IH]; simpl; try reflexivity.
    rewrite filter_app, IH. reflexivity.
  - intros ->. reflexivity.
  - intros doc later_now later_first. unfold play. rewrite Hplay, Hlen.
    now destruct (replayLoop later_first _).
Qed.

Lemma play_inaccessible_document_witness :
  snd (play 0 0 None all_given (loadEvents three_clicks fresh))
  = Threw cannot_access.
Proof.
  rewrite (proj1 (@play_inaccessible_document 0 0 all_given
                    (loadEvents three_clicks fresh) eq_refl
                    ltac:(discriminate))).
  reflexivity.
Defined.

Lemma tick_idle (now : Q) (r : State) :
  isPlaying r = false ->
  snd (tick now r) = []
  /\ isPlaying (fst (tick now r)) = false
  /\ currentIndex (fst (tick now r)) = currentIndex r.
Proof.
  intro H. unfold tick. destruct (Browser.pending (frames r)); simpl;
    [now repeat split|].
  unfold replayLoop. simpl. rewrite H. now repeat split.
Qed.

Lemma run_idle (clock : list Q) :
  forall r : State,
    isPlaying r = false ->
    snd (run clock r) = []
    /\ isPlaying (fst (run clock r)) = false
    /\ currentIndex (fst (run clock r)) = currentIndex r.
Proof.
  induction clock as [|now later IH]; intros r H; simpl; [now repeat split|].
  destruct (tick_idle now r H) as (A & B & C).
  destruct (tick now r) as [r1 log1]. simpl in *. subst log1.
  destruct (IH r1 B) as (A2 & B2 & C2).
  destruct (run later r1) as [r2 log2]. simpl in *.
  repeat split; congruence.
Qed.


Lemma sort_of_sorted (l : list InteractionEvent) :
  Sorted by_timestamp l -> sort l = l.
Proof.
  induction 1 as [|e l Hl IH Hhd]; simpl; [reflexivity|].
  rewrite IH. destruct Hhd as [|h t Hh]; simpl; [reflexivity|].
  apply Qle_bool_iff in Hh. now rewrite Hh.
Qed.

(** X26: loading a trace that is already sorted by timestamp leaves it as
    it is, events with equal timestamps included; in particular loading
    twice is the same as loading once. *)
Theorem loadEvents_keeps_sorted_trace (evs : list InteractionEvent) (r : State) :
  (Sorted by_timestamp evs -> events (loadEvents evs r) = evs)
  /\ loadEvents (events (loadEvents evs r)) (loadEvents evs r)
     = loadEvents evs r.
Proof.
  split.
  - intro H. simpl. now apply sort_of_sorted.
  - unfold loadEvents. simpl.
    rewrite (sort_of_sorted (sort_sorted evs)). reflexivity.
Qed.

Lemma loadEvents_keeps_sorted_trace_witness :
  events (loadEvents [a_click 0; a_click 250; a_click 250] fresh)
  = [a_click 0; a_click 250; a_click 250].
Proof.
  apply (proj1 (loadEvents_keeps_sorted_trace
                  [a_click 0; a_click 250; a_click 250] fresh)).
  repeat constructor; unfold by_timestamp; simpl; discriminate.
Defined.

End ReplayRunFacts.

Section ReplayCompletionFacts.

Import Interaction EventReplayer ReplayRuns ReplayPasses.
Local Open Scope Q_scope.

Lemma sorted_le_final (l : list InteractionEvent) :
  StronglySorted by_timestamp l ->
  forall e, In e l -> timestamp e <= final_timestamp l.
Proof.
  induction 1 as [|a l Hl IH Ha]; intros e He; [contradiction|].
  destruct l as [|b l].
  - destruct He as [<-|[]]. apply Qle_refl.
  - change (final_timestamp (a :: b :: l)) with (final_timestamp (b :: l)).
    destruct He as [<-|He].
    + rewrite Forall_forall in Ha.
      eapply Qle_trans; [apply (Ha b); now left|]. apply IH. now left.
    + now apply IH.
Qed.

Lemma call_no_request (h : Handler) (n : Notice) (settle : Effect) :
  is_frame_request settle = false ->
  filter is_frame_request (call h n settle) = [].
Proof.
  intro Hs. induction h as [| |h IH]; simpl; try reflexivity.
  rewrite filter_app, IH. simpl. now rewrite Hs.
Qed.

Lemma dispatch_due_no_request (fuel : nat) (elapsed : Q) :
  forall r : State,
    filter is_frame_request (snd (dispatch_due fuel elapsed r)) = [].
Proof.
  induction fuel as [|fuel IH]; intro r; simpl; [reflexivity|].
  destruct (nth_error (events r) (currentIndex r)) as [event|];
    [|reflexivity].
  destruct (Qle_bool (timestamp event) elapsed); [|reflexivity].
  specialize (IH (set_currentIndex (S (currentIndex r)) r)).
  destruct (dispatch_due fuel elapsed _) as [r2 log]. simpl in *.
  rewrite !filter_app, IH. unfold call_onProgress.
  rewrite call_no_request by reflexivity.
  unfold dispatched. now destruct (targetDocument r).
Qed.

(** A pass at a time when the last event of a sorted trace is due ends
    the replay. *)
Lemma replayLoop_completes (now : Q) (r : State) (doc : Document)
  (c : Handler) :
  isPlaying r = true ->
  targetDocument r = Some doc ->
  onComplete (callbacks r) = Wrapped c ->
  StronglySorted by_timestamp (events r) ->
  final_timestamp (events r) <= now - startTime r ->
  completes (events r) (currentIndex r)
    (fst (replayLoop now r)) (snd (replayLoop now r)).
Proof.
  intros Hplay Hdoc Hc Hstrong Hdue.
  destruct (@dispatch_due_spec (now - startTime r) doc
              (List.length (events r) - currentIndex r) r Hdoc)
    as (Hr1 & Hle & Hlog & _ & Hexit).
  specialize (Hexit (Nat.le_refl _)).
  pose proof (dispatch_due_no_request
                (List.length (events r) - currentIndex r)
                (now - startTime r) r) as Hquiet.
  unfold completes, replayLoop. rewrite Hplay, Hdoc.
  destruct (dispatch_due _ _ r) as [r1 log1].
  simpl in Hr1, Hle, Hlog, Hexit, Hquiet.
  assert (Hend : (List.length (events r) <= currentIndex r1)%nat).
  { destruct (nth_error (events r) (currentIndex r1)) as [e|] eqn:E.
    - exfalso. apply (Qlt_irrefl (now - startTime r)).
      eapply Qlt_le_trans; [exact Hexit|].
      eapply Qle_trans; [|exact Hdue].
      apply sorted_le_final; [exact Hstrong|].
      eapply nth_error_In; eassumption.
    - now apply nth_error_None. }
  assert (He : events r1 = events r) by (rewrite Hr1; reflexivity).
  assert (Hcb : callbacks r1 = callbacks r) by (rewrite Hr1; reflexivity).
  rewrite He. destruct (Nat.leb_spec (List.length (events r)) (currentIndex r1));
    [|lia].
  simpl. split; [reflexivity|]. split; [exact Hend|]. split; [|split; [|split]].
  - rewrite dispatches_app. simpl. unfold call_onComplete.
    rewrite dispatches_call by reflexivity. rewrite app_nil_r, Hlog, map_map.
    simpl. rewrite map_id. unfold slice. apply firstn_all2.
    rewrite length_skipn. lia.
  - rewrite filter_app. simpl. unfold call_onComplete. rewrite Hcb, Hc. simpl.
    rewrite filter_app. simpl.
    rewrite call_no_request by reflexivity. rewrite app_nil_r.
    exact Hquiet.
  - exists log1, c. unfold call_onComplete. rewrite Hcb, Hc. reflexivity.
  - intro clock. now apply run_idle.
Qed.

(** X23: a pass of the loop at a time when the last event of the trace is
    due dispatches every event that is left, in trace order, and ends the
    replay: the replayer stops playing, no further frame is requested, the
    pass ends with the completion callback and the resolution of [play]'s
    promise, and no later frame does anything.  This holds for a frame of
    a replayer that is playing and for the first, synchronous pass of
    [play], which then replays the whole trace at once. *)
Theorem replay_completes_when_last_event_is_due (r : State) :
  Reachable r ->
  (forall now,
      isPlaying r = true ->
      final_timestamp (events r) <= now - startTime r ->
      completes (events r) (currentIndex r)
        (fst (tick now r)) (snd (tick now r)))
  /\ (forall now first doc cb,
        isPlaying r = false ->
        events r <> [] ->
        final_timestamp (events r) <= first - now ->
        let started := play now first (Some doc) cb r in
        completes (events r) 0 (fst (fst started)) (snd (fst started))).
Proof.
  intro Hreach.
  pose proof (reachable_strongly_sorted Hreach) as Hstrong.
  split.
  - intros now Hplay Hdue.
    destruct (reachable_playing Hreach Hplay)
      as ((doc & Hdoc) & (c & Hc) & _).
    pose proof (reachable_pending Hreach Hplay) as Hpend.
    destruct (Browser.pending (frames r)) as [|h rest] eqn:Ep; [congruence|].
    rewrite (@tick_pass now r h rest Ep).
    match goal with |- context [replayLoop now ?s] =>
      exact (@replayLoop_completes now s doc c Hplay Hdoc Hc Hstrong Hdue)
    end.
  - intros now first doc cb Hidle Hev Hdue started. subst started.
    unfold play. rewrite Hidle.
    destruct (List.length (events r) =? 0)%nat eqn:Hlen.
    { apply Nat.eqb_eq in Hlen. destruct (events r); [congruence|].
      discriminate Hlen. }
    match goal with |- context [replayLoop first ?s] =>
      pose proof (@replayLoop_completes first s doc (onComplete cb)
                    eq_refl eq_refl eq_refl Hstrong Hdue) as Hpass;
      destruct (replayLoop first s) as [r2 log]
    end.
    cbn [fst snd events currentIndex startTime] in *.
    destruct Hpass as (P1 & P2 & P3 & P4 & (before & c & P5) & P6).
    unfold completes.
    split; [exact P1|]. split; [exact P2|]. split; [exact P3|].
    split; [exact P4|]. split; [|exact P6].
    exists (ReadContentDocument :: ConsoleLog "Starting replay" :: before), c.
    rewrite P5. reflexivity.
Qed.

End ReplayCompletionFacts.

Section ReplayProgressFacts.

Import Interaction EventReplayer ReplayRuns ReplayPasses.
Local Open Scope Q_scope.

(** The three-click trace, with the next frame at 600 ms. *)
Lemma replay_completes_when_last_event_is_due_witness :
  isPlaying (fst (tick 600 three_clicks_playing)) = false.
Proof.
  assert (Hreach : Reachable three_clicks_playing)
    by apply reach_play, reach_loadEvents, reach_fresh.
  destruct (@replay_completes_when_last_event_is_due three_clicks_playing
              Hreach) as [Hframe _].
  destruct (Hframe 600 eq_refl) as (H & _).
  - vm_compute. discriminate.
  - exact H.
Defined.

Lemma progress_of_app (a b : list Effect) :
  progress_of (a ++ b) = progress_of a ++ progress_of b.
Proof.
  induction a as [|e a IH]; simpl; [reflexivity|].
  destruct e as [| | | |n| | |]; simpl; try exact IH.
  destruct n; simpl; now rewrite ?IH.
Qed.

Lemma progress_of_call_complete (h : Handler) :
  progress_of (call h Complete PromiseResolve) = [].
Proof.
  induction h as [| |h IH]; simpl; try reflexivity.
  now rewrite progress_of_app, IH.
Qed.

(** The log of the [while] loop when the caller listens to progress. *)
Lemma dispatch_due_log (elapsed : Q) (doc : Document) (fuel : nat) :
  forall r : State,
    targetDocument r = Some doc ->
    onProgress (callbacks r) = Given ->
    let r' := fst (dispatch_due fuel elapsed r) in
    let passed := (currentIndex r' - currentIndex r)%nat in
    snd (dispatch_due fuel elapsed r)
    = flat_map (dispatched_and_reported doc (List.length (events r)))
        (combine (seq (S (currentIndex r)) passed)
           (slice (events r) (currentIndex r) (currentIndex r')))
    /\ progress_of (snd (dispatch_due fuel elapsed r))
       = map (fun k => (k, List.length (events r)))
           (seq (S (currentIndex r)) passed).
Proof.
  induction fuel as [|fuel IH]; intros r Hdoc Hgiven; simpl.
  - rewrite Nat.sub_diag. split; reflexivity.
  - destruct (nth_error (events r) (currentIndex r)) as [event|] eqn:E;
      [|simpl; rewrite Nat.sub_diag; split; reflexivity].
    destruct (Qle_bool (timestamp event) elapsed);
      [|simpl; rewrite Nat.sub_diag; split; reflexivity].
    set (r1 := set_currentIndex (S (currentIndex r)) r).
    destruct (@dispatch_due_spec elapsed doc fuel r1 Hdoc) as (_ & Hle & _).
    destruct (IH r1 Hdoc Hgiven) as (Hlog & Hprog).
    destruct (dispatch_due fuel elapsed r1) as [r2 log2].
    simpl in Hle, Hlog, Hprog. simpl.
    assert (Hlt : (currentIndex r < currentIndex r2)%nat) by lia.
    replace (currentIndex r2 - currentIndex r)%nat
      with (S (currentIndex r2 - S (currentIndex r))) by lia.
    rewrite (slice_cons (events r) E Hlt).
    unfold dispatched, call_onProgress. rewrite Hdoc, Hgiven. simpl.
    split.
    + now rewrite Hlog.
    + now rewrite Hprog.
Qed.

(** X24: when the caller listens to progress, a pass of the loop reports
    after each event it dispatches, and before the next one, the number of
    events dispatched so far out of the total: the pass's log is the
    dispatch of each event followed by its progress notice, then only the
    end of the pass (the next frame request, or the completion). *)
Theorem pass_reports_progress_per_event (now : Q) (r : State) (doc : Document) :
  isPlaying r = true ->
  targetDocument r = Some doc ->
  onProgress (callbacks r) = Given ->
  let r' := fst (replayLoop now r) in
  let log := snd (replayLoop now r) in
  let passed := (currentIndex r' - currentIndex r)%nat in
  (exists tail,
      log = flat_map (dispatched_and_reported doc (List.length (events r)))
              (combine (seq (S (currentIndex r)) passed)
                 (slice (events r) (currentIndex r) (currentIndex r')))
            ++ tail
      /\ progress_of tail = [] /\ dispatches tail = [])
  /\ progress_of log
     = map (fun k => (k, List.length (events r)))
         (seq (S (currentIndex r)) passed).
Proof.
  intros Hplay Hdoc Hgiven r' log passed.
  destruct (@replayLoop_running now r doc Hplay Hdoc) as (_ & _ & Hi & _).
  destruct (@dispatch_due_log (now - startTime r) doc
              (List.length (events r) - currentIndex r) r Hdoc Hgiven)
    as (Hlog & Hprog).
  destruct (@dispatch_due_spec (now - startTime r) doc
              (List.length (events r) - currentIndex r) r Hdoc) as (Hr1 & _).
  subst passed r' log. rewrite Hi. clear Hi.
  unfold replayLoop. rewrite Hplay, Hdoc.
  destruct (dispatch_due _ _ r) as [r1 log1]. simpl in Hlog, Hprog, Hr1.
  destruct (List.length (events r1) <=? currentIndex r1)%nat; simpl.
  - split.
    + eexists. rewrite Hlog. split; [reflexivity|].
      unfold call_onComplete. simpl.
      rewrite progress_of_call_complete.
      split; [reflexivity | now apply dispatches_call].
    + rewrite progress_of_app, Hprog. simpl. unfold call_onComplete.
      now rewrite progress_of_call_complete, app_nil_r.
  - split.
    + eexists. rewrite Hlog. split; [reflexivity|]. split; reflexivity.
    + rewrite progress_of_app, Hprog. simpl. now rewrite app_nil_r.
Qed.

Lemma pass_reports_progress_per_event_witness :
  progress_of
    (snd (replayLoop 600
            (fst (fst (play 0 0 (Some same_origin) all_given
                         (loadEvents three_clicks fresh))))))
  = [(2, 3); (3, 3)]%nat.
Proof.
  rewrite (proj2 (@pass_reports_progress_per_event 600
                    (fst (fst (play 0 0 (Some same_origin) all_given
                                 (loadEvents three_clicks fresh))))
                    same_origin eq_refl eq_refl eq_refl)).
  reflexivity.
Defined.

(** X25: what is recorded is what is replayed.  A mouse event captured by
    the event recorder is replayed as the legacy mouse event of the same
    type followed by the matching pointer event, both at the recorded
    client coordinates and with the recorded button, on the element its
    selector names when that selector still resolves in the new content;
    a click inferred by the overlay recorder carries no selector and is
    replayed on the element under its point (the body if none). *)
Theorem recorded_mouse_event_replays
  (doc : Document) (ty : InteractionEventType) (cx cy t : Q) (b : Z)
  (sel : option string) (s : EventRecorder.State) :
  is_mouse ty = true ->
  (exists e,
      EventRecorder.createInteractionEvent s ty
        (EventRecorder.MouseEvent cx cy b sel) t = Some e
      /\ dispatchEvent doc e
         = [SynthMouse (type_name ty) (findTarget doc e) cx cy b
              (match ty with mousedown => 1 | _ => 0 end)%Z;
            SynthPointer (pointer_name ty) (findTarget doc e) cx cy b
              (match ty with mousedown => 1 | _ => 0 end)%Z "mouse"]
      /\ (forall selector el,
            sel = Some selector -> selector <> EmptyString ->
            querySelector doc selector = Some el ->
            findTarget doc e = el))
  /\ (forall (o : OverlayRecorder.State) now,
        OverlayRecorder.isRecording o = true ->
        OverlayRecorder.isMouseOverAd o = true ->
        exists e,
          OverlayRecorder.events (fst (OverlayRecorder.onWindowBlur now o))
          = OverlayRecorder.events o ++ [e]
          /\ dispatchEvent doc e
             = [SynthMouse "click" (findTarget doc e)
                  (x e) (y e) 0 0;
                SynthPointer "click" (findTarget doc e)
                  (x e) (y e) 0 0 "mouse"]
          /\ findTarget doc e
             = match elementFromPoint doc (x e) (y e) with
               | Some el => el
               | None => body doc
               end).
Proof.
  intro Hmouse. split.
  - eexists. split; [reflexivity|]. split.
    + unfold dispatchEvent. simpl.
      destruct ty; try discriminate Hmouse; reflexivity.
    + intros selector el -> Hne Hq. unfold findTarget. simpl.
      destruct (String.eqb_spec selector EmptyString) as [->|_];
        [now contradiction Hne|].
      now rewrite Hq.
  - intros o now Hrec Hover. unfold OverlayRecorder.onWindowBlur.
    rewrite Hrec, Hover. simpl. eexists. split; [reflexivity|].
    split; reflexivity.
Qed.

Lemma recorded_mouse_event_replays_witness :
  exists e,
    EventRecorder.createInteractionEvent EventRecorder.fresh mousedown
      (EventRecorder.MouseEvent 10 20 0 None) 250 = Some e
    /\ dispatchEvent same_origin e
       = [SynthMouse "mousedown" 3%nat 10 20 0 1;
          SynthPointer "pointerdown" 3%nat 10 20 0 1 "mouse"].
Proof.
  destruct (proj1 (@recorded_mouse_event_replays same_origin mousedown
                     10 20 250 0 None EventRecorder.fresh eq_refl))
    as (e & He & Hd & _).
  exists e. split; [exact He|]. rewrite Hd.
  injection He as <-. reflexivity.
Defined.

End ReplayProgressFacts.

(* ===================================================================== *)
(** * Further properties: the interactive-mode hook                       *)
(* ===================================================================== *)

Section InteractiveRecordingFacts.

Import Interaction Traces InteractiveMode.
Local Open Scope Q_scope.

(** While its recorder records, the hook's live count follows the trace. *)
Lemma on_inputs_recording (inputs : list Input) :
  forall (k : Hook) (r : OverlayRecorder.State),
    recorder k = Some r ->
    OverlayRecorder.isRecording r = true ->
    OverlayRecorder.onEventCountChange r = true ->
    eventCount k = List.length (OverlayRecorder.events r) ->
    let k' := fst (on_inputs inputs k) in
    let r' := fst (overlay_feed inputs r) in
    recorder k' = Some r'
    /\ eventCount k' = List.length (OverlayRecorder.events r')
    /\ OverlayRecorder.isRecording r' = true
    /\ mode k' = mode k /\ recorderRef k' = recorderRef k
    /\ updateIntervalRef k' = updateIntervalRef k
    /\ replayer k' = replayer k /\ replayerRef k' = replayerRef k
    /\ replayProgress k' = replayProgress k /\ options k' = options k
    /\ snd (on_inputs inputs k) = map Overlay (snd (overlay_feed inputs r)).
Proof.
  induction inputs as [|i later IH]; intros k r Hr Hrec Hcb Hcount; simpl.
  - repeat split; assumption.
  - pose proof (@handle_step i r Hrec) as Hstep.
    destruct (handle i r) as [r1 eff1] eqn:E1. simpl in Hstep.
    destruct Hstep as (Hrec1 & _ & Hcb1 & Hev).
    assert (Hc : fold_left (fun _ n : nat => n) (counts eff1) (eventCount k)
                 = List.length (OverlayRecorder.events r1)).
    { destruct Hev as [[Hsame Hnone] | (e & now & _ & Hadd & _ & _ & Hone)].
      - rewrite Hnone, Hsame. simpl. exact Hcount.
      - rewrite Hone, Hcb, Hadd. simpl. rewrite length_app. simpl. lia. }
    assert (E : on_input i k
                = (mkHook (options k) (mode k) (events k)
                     (List.length (OverlayRecorder.events r1))
                     (duration k) (replayProgress k) (Some r1) (recorderRef k)
                     (replayer k) (replayerRef k) (updateIntervalRef k),
                   map Overlay eff1)).
    { unfold on_input. rewrite Hr, E1, Hc. reflexivity. }
    rewrite E.
    match goal with
    | |- context [on_inputs later ?k1] =>
        specialize (IH k1 r1 eq_refl Hrec1)
    end.
    rewrite Hcb1, Hcb in IH. specialize (IH eq_refl eq_refl).
    cbn [recorder eventCount mode recorderRef updateIntervalRef replayer
         replayerRef replayProgress options] in IH.
    destruct (on_inputs later _) as [k2 eff2].
    destruct (overlay_feed later r1) as [r2 eff2'].
    cbn [fst snd] in *.
    destruct IH as (H1 & H2 & H3 & H4 & H5 & H6 & H7 & H8 & H9 & H10 & H11).
    repeat split; try assumption.
    rewrite map_app. now rewrite H11.
Qed.

(** X2: a recording session of the interactive-mode hook.  From mode
    idle or recorded, [startRecording] on a container holding an iframe
    succeeds; while the page feeds the recorder, the hook stays in mode
    recording and its live event count equals the number of events
    recorded so far; [stopRecording] then returns the recorder's trace,
    stores it, sets the count to its length and the duration to the
    timestamp of its last event (whatever the time of the stop), leaves
    mode recorded and releases the recorder and the interval. *)
Theorem recording_session_summary
  (k : Hook) (w h t0 t1 : Q) (inputs : list Input) :
  mode k = idle \/ mode k = recorded ->
  let started := startRecording true w h t0 k in
  let live := fst (on_inputs inputs (fst (fst started))) in
  let trace :=
    OverlayRecorder.events
      (fst (overlay_feed inputs
              (fst (OverlayRecorder.start true w h true t0
                      OverlayRecorder.fresh)))) in
  let stopped := stopRecording t1 live in
  snd (fst started) = true
  /\ snd started = [SetInterval 100]
  /\ mode live = recording
  /\ eventCount live = List.length trace
  /\ snd (fst stopped) = trace
  /\ snd stopped = [ClearInterval]
  /\ mode (fst (fst stopped)) = recorded
  /\ events (fst (fst stopped)) = trace
  /\ eventCount (fst (fst stopped)) = List.length trace
  /\ duration (fst (fst stopped)) = last_timestamp trace
  /\ recorderRef (fst (fst stopped)) = false
  /\ updateIntervalRef (fst (fst stopped)) = false
  /\ forall later, snd (on_inputs later (fst (fst stopped))) = [].
Proof.
  intros Hmode started live trace stopped.
  assert (Hstart :
            started
            = (mkHook (options k) recording (events k) 0 0 (replayProgress k)
                 (Some (fst (OverlayRecorder.start true w h true t0
                               OverlayRecorder.fresh)))
                 true (replayer k) (replayerRef k) true,
               true, [SetInterval 100])).
  { unfold started, startRecording. destruct Hmode as [-> | ->]; reflexivity. }
  subst stopped live. rewrite Hstart. cbn [fst snd].
  match goal with
  | |- context [on_inputs inputs ?k1] =>
      pose proof (@on_inputs_recording inputs k1 _ eq_refl eq_refl eq_refl
                    eq_refl) as Hlive
  end.
  cbv zeta in Hlive.
  destruct Hlive as (Hr & Hc & Hrec & Hm & Href & Hint & _).
  fold trace in Hc.
  set (live := fst (on_inputs inputs _)) in *.
  cbn [mode recorderRef updateIntervalRef] in Hm, Href, Hint.
  unfold stopRecording. rewrite Hm, Href, Hr, Hint.
  unfold OverlayRecorder.stop. rewrite Hrec. cbn [negb fst snd].
  cbn [mode events eventCount duration recorderRef updateIntervalRef].
  fold trace.
  repeat split; try reflexivity; try assumption.
  intro later. induction later as [|i later IH]; [reflexivity|].
  simpl. unfold on_input at 1. cbn [recorder].
  assert (Hidle : forall r, OverlayRecorder.isRecording r = false ->
                            handle i r = (r, [])).
  { intros r Hr0. destruct i; simpl.
    - unfold OverlayRecorder.onMouseMove. now rewrite Hr0.
    - unfold OverlayRecorder.onWindowBlur. now rewrite Hr0.
    - unfold OverlayRecorder.onTouchStart. now rewrite Hr0. }
  rewrite Hidle by reflexivity. cbn [counts flat_map fold_left map].
  cbn [options mode events eventCount duration replayProgress recorderRef
       replayer replayerRef updateIntervalRef] in *.
  destruct (on_inputs later _) as [k2 eff2]. simpl in *. exact IH.
Qed.

(** A session with one click on a 300x250 ad. *)
Lemma recording_session_summary_witness :
  eventCount
    (fst (fst (stopRecording 5000
                 (fst (on_inputs [MouseMove 100 50 130 90;
                                  WindowBlur (12004 # 10)]
                         (fst (fst (startRecording true 300 250 0
                                      (initial listening)))))))))
  = 1%nat.
Proof.
  pose proof (@recording_session_summary (initial listening) 300 250 0 5000
                [MouseMove 100 50 130 90; WindowBlur (12004 # 10)]
                (or_introl eq_refl)) as H.
  cbv zeta in H.
  destruct H as (_ & _ & _ & _ & _ & _ & _ & _ & H & _).
  rewrite H. reflexivity.
Defined.

End InteractiveRecordingFacts.
Section InteractiveReplayFacts.

Import Interaction EventReplayer ReplayRuns.
Import InteractiveMode InteractiveRuns.
Local Open Scope Q_scope.

Lemma absorb_all_app (a b : list EventReplayer.Effect) :
  forall k : Hook,
    absorb_all (a ++ b) k
    = (fst (absorb_all b (fst (absorb_all a k))),
       snd (absorb_all a k) ++ snd (absorb_all b (fst (absorb_all a k)))).
Proof.
  induction a as [|e a IH]; intro k; simpl.
  - now destruct (absorb_all b k).
  - destruct (absorb e k) as [k1 eff1]. rewrite IH.
    destruct (absorb_all a k1) as [k2 eff2]. simpl.
    destruct (absorb_all b k2) as [k3 eff3]. simpl.
    now rewrite app_assoc.
Qed.

Lemma dispatched_in_app (a b : list InteractiveMode.Effect) :
  dispatched_in (a ++ b) = dispatched_in a ++ dispatched_in b.
Proof.
  induction a as [|e a IH]; [reflexivity|].
  destruct e as [| | | |o|[]| |]; simpl; now rewrite ?IH.
Qed.

(** The hook passes every dispatch of its replayer on, and adds none. *)
Lemma absorb_all_dispatches (log : list EventReplayer.Effect) :
  forall k : Hook,
    dispatched_in (snd (absorb_all log k)) = dispatches log.
Proof.
  induction log as [|e log IH]; intro k; [reflexivity|].
  simpl. destruct (absorb e k) as [k1 eff1] eqn:E.
  specialize (IH k1). destruct (absorb_all log k1) as [k2 eff2].
  simpl in *. rewrite dispatched_in_app, IH.
  destruct e as [| | | |[]| | |]; simpl in E; inversion E; subst; simpl;
    try reflexivity.
  - now destruct (onReplayProgress (options k)).
  - now destruct (onReplayComplete (options k)).
Qed.

(** Effects that do not end the replay leave the hook's mode, refs and
    recording alone and report no completion. *)
Lemma absorb_all_quiet (log : list EventReplayer.Effect) :
  forall k : Hook,
    forallb (fun e => negb (settles e)) log = true ->
    let k' := fst (absorb_all log k) in
    mode k' = mode k /\ replayer k' = replayer k
    /\ replayerRef k' = replayerRef k /\ InteractiveMode.events k' = InteractiveMode.events k
    /\ options k' = options k
    /\ filter is_replay_complete (snd (absorb_all log k)) = [].
Proof.
  induction log as [|e log IH]; intros k Hq; [now simpl|].
  simpl in Hq. apply andb_true_iff in Hq. destruct Hq as [He Hq].
  simpl. destruct (absorb e k) as [k1 eff1] eqn:E.
  specialize (IH k1 Hq). destruct (absorb_all log k1) as [k2 eff2].
  simpl in *. destruct IH as (H1 & H2 & H3 & H4 & H5 & H6).
  rewrite filter_app, H6, app_nil_r.
  destruct e as [| | | |[]| | |]; simpl in E, He; try discriminate;
    inversion E; subst; simpl in *; repeat split; try assumption.
  now destruct (onReplayProgress (options k)).
Qed.

Lemma absorb_all_keeps (log : list EventReplayer.Effect) :
  forall k : Hook,
    InteractiveMode.events (fst (absorb_all log k)) = InteractiveMode.events k
    /\ options (fst (absorb_all log k)) = options k.
Proof.
  induction log as [|e log IH]; intro k; [now simpl|].
  simpl. destruct (absorb e k) as [k1 eff1] eqn:E.
  specialize (IH k1). destruct (absorb_all log k1) as [k2 eff2].
  simpl in *. destruct IH as [H1 H2]. rewrite H1, H2.
  destruct e as [| | | |[]| | |]; simpl in E; inversion E; subst; now simpl.
Qed.

Lemma dispatch_due_quiet (elapsed : Q) (fuel : nat) :
  forall r : EventReplayer.State,
    onProgress (callbacks r) = Given ->
    forallb (fun e => negb (settles e)) (snd (dispatch_due fuel elapsed r))
    = true.
Proof.
  induction fuel as [|fuel IH]; intros r Hp; [reflexivity|].
  simpl. destruct (nth_error (EventReplayer.events r) (currentIndex r)) as [event|];
    [|reflexivity].
  destruct (Qle_bool (timestamp event) elapsed); [|reflexivity].
  specialize (IH (set_currentIndex (S (currentIndex r)) r) Hp).
  destruct (dispatch_due fuel elapsed _) as [r2 log]. simpl in *.
  rewrite !forallb_app, IH. unfold call_onProgress. rewrite Hp.
  unfold dispatched. now destruct (targetDocument r).
Qed.


(** One pass of the replayer's loop, seen from the hook: either the
    replay goes on, with the events up to the new cursor dispatched and a
    frame pending, or it is over, with the rest of the trace dispatched. *)
Lemma pass_absorbed (t : Q) (r : EventReplayer.State) (k : Hook)
  (doc : Document) :
  isPlaying r = true -> targetDocument r = Some doc ->
  callbacks r = hook_callbacks -> mode k = replaying ->
  StronglySorted by_timestamp (EventReplayer.events r) ->
  let r' := fst (replayLoop t r) in
  let out := absorb_all (snd (replayLoop t r)) (set_replayer r' true k) in
  (replaying_at doc (startTime r) (EventReplayer.events r) (currentIndex r')
     (fst out)
   /\ (currentIndex r <= currentIndex r')%nat
   /\ dispatched_in (snd out)
      = map (with_dispatch doc)
          (slice (EventReplayer.events r) (currentIndex r) (currentIndex r'))
   /\ filter is_replay_complete (snd out) = []
   /\ t - startTime r < final_timestamp (EventReplayer.events r))
  \/ (replay_over (fst out)
      /\ dispatched_in (snd out)
         = map (with_dispatch doc)
             (skipn (currentIndex r) (EventReplayer.events r))
      /\ filter is_replay_complete (snd out)
         = if onReplayComplete (options k) then [ReplayComplete] else []).
Proof.
  intros Hplay Hdoc Hcb Hmode Hsorted r' out.
  subst out. rewrite absorb_all_dispatches. subst r'.
  unfold replayLoop. rewrite Hplay, Hdoc.
  pose proof (@dispatch_due_spec (t - startTime r) doc
                (List.length (EventReplayer.events r) - currentIndex r) r Hdoc)
    as Hspec.
  assert (Hprog : onProgress (callbacks r) = Given) by now rewrite Hcb.
  pose proof (@dispatch_due_quiet (t - startTime r)
                (List.length (EventReplayer.events r) - currentIndex r) r Hprog)
    as Hquiet.
  destruct (dispatch_due _ (t - startTime r) r) as [r1 log].
  cbn [fst snd] in Hspec, Hquiet.
  destruct Hspec as (Hr1 & Hle & Hlog & _ & Hexit).
  specialize (Hexit (Nat.le_refl _)).
  assert (He : EventReplayer.events r1 = EventReplayer.events r)
    by (rewrite Hr1; reflexivity).
  assert (Hc1 : callbacks r1 = hook_callbacks)
    by (rewrite Hr1; exact Hcb).
  assert (Hd1 : targetDocument r1 = Some doc) by (rewrite Hr1; exact Hdoc).
  assert (Hs1 : startTime r1 = startTime r) by (rewrite Hr1; reflexivity).
  assert (Hp1 : isPlaying r1 = true) by (rewrite Hr1; exact Hplay).
  destruct (Nat.leb_spec (List.length (EventReplayer.events r1)) (currentIndex r1))
    as [Hend|Hmore].
  - right. cbn [fst snd]. rewrite absorb_all_app.
    match goal with
    | |- context [absorb_all log ?k0] =>
        pose proof (@absorb_all_quiet log k0 Hquiet) as Hk; cbv zeta in Hk;
        destruct (absorb_all log k0) as [k1 eff1]
    end.
    cbn [fst snd] in *.
    destruct Hk as (Km & Kr & Kref & Kev & Kopt & Kf).
    cbn [mode replayer replayerRef InteractiveMode.events options set_replayer]
      in Km, Kr, Kref, Kev, Kopt.
    unfold call_onComplete. rewrite Hc1. simpl.
    split; [|split].
    + unfold replay_over. simpl. repeat split; try reflexivity.
      rewrite Kr. eexists. split; reflexivity.
    + rewrite dispatches_app. simpl. rewrite app_nil_r, Hlog.
      unfold slice. rewrite firstn_all2; [reflexivity|].
      rewrite length_skipn. rewrite He in Hend. lia.
    + rewrite filter_app, Kf. simpl. rewrite Kopt.
      now destruct (onReplayComplete (options k)).
  - left. cbn [fst snd]. unfold Browser.requestAnimationFrame.
    cbn [fst snd]. rewrite absorb_all_app.
    match goal with
    | |- context [absorb_all log ?k0] =>
        pose proof (@absorb_all_quiet log k0 Hquiet) as Hk; cbv zeta in Hk;
        destruct (absorb_all log k0) as [k1 eff1]
    end.
    cbn [fst snd] in *.
    destruct Hk as (Km & Kr & Kref & Kev & Kopt & Kf).
    cbn [mode replayer replayerRef InteractiveMode.events options set_replayer]
      in Km, Kr, Kref, Kev, Kopt.
    simpl. split; [|split; [|split; [|split]]].
    + unfold replaying_at. split; [congruence|]. split; [congruence|].
      eexists. split; [exact Kr|]. simpl.
      repeat split; try assumption.
      intro Hnil. now apply app_eq_nil in Hnil.
    + exact Hle.
    + rewrite dispatches_app. simpl. rewrite app_nil_r. exact Hlog.
    + rewrite filter_app, Kf. reflexivity.
    + destruct (nth_error (EventReplayer.events r) (currentIndex r1)) as [e|] eqn:En.
      * eapply Qlt_le_trans; [exact Hexit|].
        apply sorted_le_final; [exact Hsorted|].
        eapply nth_error_In; exact En.
      * apply nth_error_None in En. rewrite He in Hmore. lia.
Qed.


Lemma slice_skipn (l : list InteractionEvent) (i j : nat) :
  (i <= j)%nat -> slice l i j ++ skipn j l = skipn i l.
Proof.
  intro H. unfold slice.
  replace (skipn j l) with (skipn (j - i) (skipn i l)).
  - apply firstn_skipn.
  - rewrite skipn_skipn. f_equal. lia.
Qed.

(** Once the replay is over, frames do nothing to the hook. *)
Lemma frame_over (t : Q) (k : Hook) :
  replay_over k ->
  replay_over (fst (frame t k)) /\ snd (frame t k) = []
  /\ InteractiveMode.events (fst (frame t k)) = InteractiveMode.events k
  /\ options (fst (frame t k)) = options k.
Proof.
  intros (Hm & Href & Hp & r & Hr & Hidle).
  unfold frame. rewrite Hr. unfold tick.
  destruct (Browser.pending (EventReplayer.frames r)) as [|h rest].
  - simpl. unfold replay_over. simpl. repeat split; try assumption.
    exists r. now split.
  - unfold replayLoop. cbn [isPlaying]. rewrite Hidle. simpl.
    unfold replay_over. simpl. repeat split; try assumption.
    eexists. split; reflexivity.
Qed.

Lemma frames_over (clock : list Q) :
  forall k : Hook,
    replay_over k ->
    replay_over (fst (frames clock k)) /\ snd (frames clock k) = []
    /\ InteractiveMode.events (fst (frames clock k)) = InteractiveMode.events k
    /\ options (fst (frames clock k)) = options k.
Proof.
  induction clock as [|t clock IH]; intros k Hk; [now simpl|].
  simpl. destruct (frame_over t Hk) as (H1 & H2 & H3 & H4).
  destruct (frame t k) as [k1 eff1]. simpl in *.
  destruct (IH k1 H1) as (I1 & I2 & I3 & I4).
  destruct (frames clock k1) as [k2 eff2]. simpl in *.
  subst eff1 eff2.
  split; [exact I1|]. split; [reflexivity|]. split; congruence.
Qed.

(** A frame while the hook replays. *)
Lemma frame_replaying (t : Q) (k : Hook) (doc : Document) (t0 : Q)
  (trace : list InteractionEvent) (i : nat) :
  replaying_at doc t0 trace i k ->
  StronglySorted by_timestamp trace ->
  let out := frame t k in
  InteractiveMode.events (fst out) = InteractiveMode.events k
  /\ options (fst out) = options k
  /\ ((exists j,
         (i <= j)%nat /\ replaying_at doc t0 trace j (fst out)
         /\ dispatched_in (snd out) = map (with_dispatch doc) (slice trace i j)
         /\ filter is_replay_complete (snd out) = []
         /\ t - t0 < final_timestamp trace)
      \/ (replay_over (fst out)
          /\ dispatched_in (snd out) = map (with_dispatch doc) (skipn i trace)
          /\ filter is_replay_complete (snd out)
             = if onReplayComplete (options k) then [ReplayComplete] else [])).
Proof.
  intros (Hm & Href & r & Hr & Hplay & Hdoc & Hev & Ht0 & Hcb & Hi & Hpend)
    Hsorted out.
  subst out. unfold frame. rewrite Hr, Href. unfold tick.
  destruct (Browser.pending (EventReplayer.frames r)) as [|h rest] eqn:Ep; [congruence|].
  set (popped := mkState (EventReplayer.events r) (isPlaying r) (startTime r)
                   (currentIndex r) (animationId r) (targetDocument r)
                   (callbacks r)
                   (Browser.mkFrames (Browser.next_handle (EventReplayer.frames r)) rest)).
  assert (Hs : StronglySorted by_timestamp (EventReplayer.events popped))
    by (simpl; now rewrite Hev).
  pose proof (@pass_absorbed t popped k doc Hplay Hdoc Hcb Hm Hs) as Hpass.
  cbv zeta in Hpass.
  destruct (replayLoop t popped) as [r' log]. cbn [fst snd] in *.
  pose proof (absorb_all_keeps log (set_replayer r' true k)) as [K1 K2].
  destruct (absorb_all log (set_replayer r' true k)) as [k' eff].
  cbn [fst snd] in *.
  split; [exact K1|]. split; [exact K2|].
  change (EventReplayer.events popped) with (EventReplayer.events r) in Hpass.
  change (startTime popped) with (startTime r) in Hpass.
  change (currentIndex popped) with (currentIndex r) in Hpass.
  rewrite Hev, Ht0, Hi in Hpass.
  destruct Hpass as [(P1 & P2 & P3 & P4 & P5) | (P1 & P2 & P3)].
  - left. exists (currentIndex r').
    exact (conj P2 (conj P1 (conj P3 (conj P4 P5)))).
  - right. exact (conj P1 (conj P2 P3)).
Qed.

Lemma frames_replaying (doc : Document) (t0 : Q)
  (trace : list InteractionEvent) (clock : list Q) :
  StronglySorted by_timestamp trace ->
  forall (k : Hook) (i : nat),
    replaying_at doc t0 trace i k ->
    let out := frames clock k in
    InteractiveMode.events (fst out) = InteractiveMode.events k
    /\ options (fst out) = options k
    /\ ((exists j,
           (i <= j)%nat /\ replaying_at doc t0 trace j (fst out)
           /\ dispatched_in (snd out)
              = map (with_dispatch doc) (slice trace i j)
           /\ filter is_replay_complete (snd out) = []
           /\ Forall (fun t => t - t0 < final_timestamp trace) clock)
        \/ (replay_over (fst out)
            /\ dispatched_in (snd out)
               = map (with_dispatch doc) (skipn i trace)
            /\ filter is_replay_complete (snd out)
               = if onReplayComplete (options k)
                 then [ReplayComplete] else [])).
Proof.
  intro Hsorted. induction clock as [|t clock IH]; intros k i Hk.
  - simpl. split; [reflexivity|]. split; [reflexivity|].
    left. exists i. rewrite slice_nil.
    split; [lia|]. split; [exact Hk|]. split; [reflexivity|].
    split; [reflexivity|constructor].
  - simpl.
    pose proof (@frame_replaying t k doc t0 trace i Hk Hsorted) as Hf.
    cbv zeta in Hf. destruct (frame t k) as [k1 eff1]. cbn [fst snd] in *.
    destruct Hf as (F1 & F2 & [(j & Fj & Fk & Fd & Fc & Ft) | (Fo & Fd & Fc)]).
    + specialize (IH k1 j Fk). cbv zeta in IH.
      destruct (frames clock k1) as [k2 eff2]. cbn [fst snd] in *.
      destruct IH as (I1 & I2 & Hcases).
      split; [congruence|]. split; [congruence|].
      rewrite dispatched_in_app, filter_app, Fd, Fc.
      destruct Hcases as [(j' & Ij & Ik & Id & Ic & It) | (Io & Id & Ic)].
      * left. exists j'. split; [lia|]. split; [exact Ik|]. split; [|split].
        -- rewrite Id, <- map_app. f_equal. now apply slice_app.
        -- now rewrite Ic.
        -- now constructor.
      * right. split; [exact Io|]. split.
        -- rewrite Id, <- map_app. f_equal. now apply slice_skipn.
        -- rewrite Ic, F2. reflexivity.
    + destruct (frames_over clock Fo) as (O1 & O2 & O3 & O4).
      destruct (frames clock k1) as [k2 eff2]. cbn [fst snd] in *.
      subst eff2. rewrite !app_nil_r.
      split; [congruence|]. split; [congruence|].
      right. split; [exact O1|]. split; [exact Fd|].
      rewrite Fc. reflexivity.
Qed.

Lemma sort_length (l : list InteractionEvent) :
  List.length (sort l) = List.length l.
Proof. symmetry. apply Permutation_length, sort_perm. Qed.

(** What [replay] does when its guard lets it through and the document
    is accessible: the first pass of the loop, absorbed by the hook. *)
Lemma replay_started (k : Hook) (doc : Document) (now first : Q)
  (e : InteractionEvent) (es : list InteractionEvent) :
  mode k = recorded -> InteractiveMode.events k = e :: es ->
  let r1 :=
    mkState (sort (e :: es)) true now 0 None (Some doc) hook_callbacks
      Browser.no_frames in
  let k1 :=
    mkHook (options k) replaying (e :: es) (eventCount k) (duration k)
      (Some (0%nat, List.length (e :: es))) (recorder k) (recorderRef k)
      (Some (loadEvents (e :: es) EventReplayer.fresh)) true
      (updateIntervalRef k) in
  let out :=
    absorb_all (snd (replayLoop first r1))
      (set_replayer (fst (replayLoop first r1)) true k1) in
  replay (Some doc) now first k
  = (fst out,
     Replayer ReadContentDocument
       :: Replayer (ConsoleLog "Starting replay") :: snd out).
Proof.
  intros Hmode Hev r1 k1 out. subst out k1 r1.
  unfold replay. rewrite Hmode, Hev. cbv beta iota.
  unfold play, loadEvents.
  cbn [isPlaying EventReplayer.fresh EventReplayer.events animationId
       EventReplayer.frames].
  rewrite sort_length. cbn [List.length Nat.eqb].
  cbn [onProgress onComplete onError all_given].
  unfold hook_callbacks.
  destruct (replayLoop first _) as [r2 log]. cbn [fst snd absorb_all absorb].
  destruct (absorb_all log _) as [k2 eff2]. reflexivity.
Qed.

(** X12: replaying a recording through the hook.  From mode recorded
    with a non-empty recording, [replay] into an accessible document
    followed by any number of frames dispatches a prefix of the recording
    sorted by timestamp, each event once, in order and in full, and never
    changes the stored recording.  If some pass of the loop (the first,
    synchronous one or a later frame) runs at or after the last
    timestamp, the whole sorted recording has been dispatched, the hook is
    back in mode recorded with no replayer held and no progress shown, and
    [onReplayComplete], when given, has run exactly once. *)
Theorem replay_dispatches_recording
  (k : Hook) (doc : Document) (now first : Q) (clock : list Q) :
  mode k = recorded ->
  InteractiveMode.events k <> [] ->
  let started := replay (Some doc) now first k in
  let finished := frames clock (fst started) in
  let eff := snd started ++ snd finished in
  let trace := sort (InteractiveMode.events k) in
  (exists n, dispatched_in eff = map (with_dispatch doc) (firstn n trace))
  /\ InteractiveMode.events (fst finished) = InteractiveMode.events k
  /\ (Exists (fun t => final_timestamp trace <= t - now) (first :: clock) ->
      dispatched_in eff = map (with_dispatch doc) trace
      /\ mode (fst finished) = recorded
      /\ replayerRef (fst finished) = false
      /\ replayProgress (fst finished) = None
      /\ filter is_replay_complete eff
         = if onReplayComplete (options k) then [ReplayComplete] else []).
Proof.
  intros Hmode Hev.
  destruct (InteractiveMode.events k) as [|e es] eqn:Ek; [congruence|].
  intros started finished eff trace.
  assert (Hsorted : StronglySorted by_timestamp trace).
  { apply Sorted_StronglySorted; [exact by_timestamp_trans|]. apply sort_sorted. }
  pose proof (@replay_started k doc now first e es Hmode Ek) as Hstarted.
  cbv zeta in Hstarted. fold trace in Hstarted.
  set (r1 := mkState trace true now 0 None (Some doc) hook_callbacks
               Browser.no_frames) in *.
  set (k1 := mkHook (options k) replaying (e :: es) (eventCount k)
               (duration k) (Some (0%nat, List.length (e :: es)))
               (recorder k) (recorderRef k)
               (Some (loadEvents (e :: es) EventReplayer.fresh)) true
               (updateIntervalRef k)) in *.
  assert (Hk1 : mode k1 = replaying) by reflexivity.
  pose proof (@pass_absorbed first r1 k1 doc eq_refl eq_refl eq_refl Hk1 Hsorted)
    as Hpass.
  cbv zeta in Hpass.
  pose proof (absorb_all_keeps (snd (replayLoop first r1))
                (set_replayer (fst (replayLoop first r1)) true k1)) as [K1 K2].
  subst eff finished started. rewrite Hstarted. cbn [fst snd].
  destruct (absorb_all (snd (replayLoop first r1))
              (set_replayer (fst (replayLoop first r1)) true k1))
    as [k2 eff2].
  cbn [fst snd] in *.
  cbn [app dispatched_in filter is_replay_complete].
  change (EventReplayer.events r1) with trace in Hpass.
  change (startTime r1) with now in Hpass.
  change (currentIndex r1) with 0%nat in Hpass.
  change (options k1) with (options k) in Hpass.
  change (InteractiveMode.events (set_replayer (fst (replayLoop first r1)) true k1))
    with (e :: es) in K1.
  change (options (set_replayer (fst (replayLoop first r1)) true k1))
    with (options k) in K2.
  destruct Hpass as [(P1 & P2 & P3 & P4 & P5) | (P1 & P2 & P3)].
  - pose proof (@frames_replaying doc now trace clock Hsorted k2 _ P1) as Hrun.
    cbv zeta in Hrun.
    destruct (frames clock k2) as [k3 eff3]. cbn [fst snd] in *.
    destruct Hrun as (R1 & R2 & Hcases).
    rewrite dispatched_in_app, filter_app, P3, P4.
    destruct Hcases as [(j & Rj & Rk & Rd & Rc & Rt) | (Ro & Rd & Rc)].
    + split; [|split; [congruence|]].
      * exists j. rewrite Rd, <- map_app. f_equal.
        rewrite slice_app by lia. unfold slice. simpl. now rewrite Nat.sub_0_r.
      * intro Hex. exfalso. apply Exists_exists in Hex.
        destruct Hex as (t & Hin & Hle).
        assert (Hall : Forall (fun t => t - now < final_timestamp trace)
                         (first :: clock)) by now constructor.
        rewrite Forall_forall in Hall. specialize (Hall t Hin).
        apply (Qlt_irrefl (t - now)). eapply Qlt_le_trans; eassumption.
    + assert (Hd : map (with_dispatch doc)
                     (slice trace 0 (currentIndex (fst (replayLoop first r1))))
                   ++ map (with_dispatch doc)
                        (skipn (currentIndex (fst (replayLoop first r1))) trace)
                   = map (with_dispatch doc) trace).
      { rewrite <- map_app. f_equal. rewrite slice_skipn by lia. reflexivity. }
      split; [|split; [congruence|]].
      * exists (List.length trace). rewrite firstn_all, Rd. exact Hd.
      * intros _. destruct Ro as (O1 & O2 & O3 & _).
        rewrite Rd, Rc, K2.
        split; [exact Hd|]. split; [exact O1|]. split; [exact O2|].
        split; [exact O3|reflexivity].
  - destruct (frames_over clock P1) as (O1 & O2 & O3 & O4).
    destruct (frames clock k2) as [k3 eff3]. cbn [fst snd] in *.
    subst eff3. rewrite !app_nil_r. simpl in P2.
    split; [|split; [congruence|]].
    + exists (List.length trace). rewrite firstn_all. exact P2.
    + intros _. destruct O1 as (M1 & M2 & M3 & _).
      split; [exact P2|]. split; [exact M1|]. split; [exact M2|].
      split; [exact M3|exact P3].
Qed.

(** The two-click recording, replayed with a frame at 300 ms. *)
Lemma replay_dispatches_recording_witness :
  mode (fst (frames [300] (fst (replay (Some same_origin) 0 0
                                  two_clicks_recorded))))
  = recorded.
Proof.
  pose proof (@replay_dispatches_recording two_clicks_recorded same_origin
                0 0 [300] eq_refl) as H.
  cbv zeta in H.
  destruct H as (_ & _ & H).
  - discriminate.
  - apply H. apply Exists_cons_tl. apply Exists_cons_hd. vm_compute.
    discriminate.
Defined.


(** X27: replaying into a document that cannot be read (a cross-origin
    iframe).  From mode recorded with a non-empty recording, [replay]
    reads the content document, logs the error twice (through [onError]
    and through its own [catch]), dispatches nothing, does not run
    [onReplayComplete], and leaves the hook in mode recorded with the
    recording kept, no replayer held and no progress shown; no later frame
    does anything. *)
Theorem replay_inaccessible_document
  (k : Hook) (now first : Q) (clock : list Q) :
  mode k = recorded ->
  InteractiveMode.events k <> [] ->
  let out := replay None now first k in
  snd out
  = [Replayer ReadContentDocument;
     ConsoleError "[useInteractiveMode] Replay error:";
     ConsoleError "[useInteractiveMode] Replay failed:"]
  /\ mode (fst out) = recorded
  /\ InteractiveMode.events (fst out) = InteractiveMode.events k
  /\ replayerRef (fst out) = false
  /\ replayProgress (fst out) = None
  /\ snd (frames clock (fst out)) = []
  /\ mode (fst (frames clock (fst out))) = recorded
  /\ InteractiveMode.events (fst (frames clock (fst out)))
     = InteractiveMode.events k.
Proof.
  intros Hmode Hev.
  destruct (InteractiveMode.events k) as [|e es] eqn:Ek; [congruence|].
  intro out.
  assert (Hout :
            out
            = (mkHook (options k) recorded (e :: es) (eventCount k)
                 (duration k) None (recorder k) (recorderRef k)
                 (Some (loadEvents (e :: es) EventReplayer.fresh)) false
                 (updateIntervalRef k),
               [Replayer ReadContentDocument;
                ConsoleError "[useInteractiveMode] Replay error:";
                ConsoleError "[useInteractiveMode] Replay failed:"])).
  { subst out. unfold replay. rewrite Hmode, Ek. cbv beta iota.
    unfold play, loadEvents.
    cbn [isPlaying EventReplayer.fresh EventReplayer.events].
    rewrite sort_length. cbn [List.length Nat.eqb]. reflexivity. }
  rewrite Hout. cbn [fst snd mode InteractiveMode.events replayerRef
                     replayProgress].
  repeat (split; [reflexivity|]).
  match goal with
  | |- context [frames clock ?k0] =>
      assert (Hover : replay_over k0)
        by (unfold replay_over; simpl; repeat split; eexists;
            split; reflexivity);
      destruct (frames_over clock Hover) as (O1 & O2 & O3 & _)
  end.
  destruct O1 as (M1 & _).
  split; [exact O2|]. split; [exact M1|exact O3].
Qed.

Lemma replay_inaccessible_document_witness :
  mode (fst (replay None 0 0 two_clicks_recorded)) = recorded.
Proof.
  pose proof (@replay_inaccessible_document two_clicks_recorded 0 0 []
                eq_refl) as H.
  cbv zeta in H. destruct H as (_ & H & _).
  - discriminate.
  - exact H.
Defined.

End InteractiveReplayFacts.
Section InteractiveClearFacts.

Import Interaction Traces.
Import InteractiveMode InteractiveRuns.
Local Open Scope Q_scope.

Lemma handle_not_recording (i : Input) (r : OverlayRecorder.State) :
  OverlayRecorder.isRecording r = false -> handle i r = (r, []).
Proof.
  intro H. destruct i; simpl.
  - unfold OverlayRecorder.onMouseMove. now rewrite H.
  - unfold OverlayRecorder.onWindowBlur. now rewrite H.
  - unfold OverlayRecorder.onTouchStart. now rewrite H.
Qed.

Lemma overlay_stop_not_recording (r : OverlayRecorder.State) :
  OverlayRecorder.isRecording (fst (OverlayRecorder.stop r)) = false.
Proof.
  unfold OverlayRecorder.stop.
  destruct (OverlayRecorder.isRecording r) eqn:E; simpl; [reflexivity|exact E].
Qed.

(** A recorder that is not recording ignores what the page feeds it. *)
Lemma on_inputs_idle (inputs : list Input) :
  forall k : Hook,
    (forall r, recorder k = Some r -> OverlayRecorder.isRecording r = false) ->
    snd (on_inputs inputs k) = []
    /\ mode (fst (on_inputs inputs k)) = mode k
    /\ InteractiveMode.events (fst (on_inputs inputs k))
       = InteractiveMode.events k
    /\ eventCount (fst (on_inputs inputs k)) = eventCount k.
Proof.
  induction inputs as [|i later IH]; intros k Hidle; [now simpl|].
  simpl. unfold on_input.
  destruct (recorder k) as [r|] eqn:Er.
  - rewrite (@handle_not_recording i r (Hidle r eq_refl)).
    cbn [counts flat_map fold_left map].
    match goal with
    | |- context [on_inputs later ?k1] =>
        destruct (IH k1) as (I1 & I2 & I3 & I4);
        [intros r0 H0; simpl in H0; inversion H0; subst;
         exact (Hidle r0 eq_refl)|];
        destruct (on_inputs later k1) as [k2 eff2]
    end.
    simpl in *. subst eff2. repeat split; assumption.
  - destruct (IH k) as (I1 & I2 & I3 & I4);
      [intros r0 H0; congruence|].
    destruct (on_inputs later k) as [k2 eff2].
    simpl in *. subst eff2. repeat split; assumption.
Qed.

(** A replayer that is not playing ignores the frames it still gets. *)
Lemma frames_idle (clock : list Q) :
  forall k : Hook,
    (forall r, replayer k = Some r -> EventReplayer.isPlaying r = false) ->
    snd (frames clock k) = []
    /\ mode (fst (frames clock k)) = mode k
    /\ InteractiveMode.events (fst (frames clock k)) = InteractiveMode.events k
    /\ replayProgress (fst (frames clock k)) = replayProgress k.
Proof.
  induction clock as [|t clock IH]; intros k Hidle; [now simpl|].
  simpl. unfold frame.
  destruct (replayer k) as [r|] eqn:Er.
  - assert (Ht : snd (EventReplayer.tick t r) = []
                 /\ EventReplayer.isPlaying (fst (EventReplayer.tick t r))
                    = false).
    { pose proof (Hidle r eq_refl) as Hr. unfold EventReplayer.tick.
      destruct (Browser.pending (EventReplayer.frames r)); [now split|].
      unfold EventReplayer.replayLoop. cbn [EventReplayer.isPlaying].
      rewrite Hr. now split. }
    destruct (EventReplayer.tick t r) as [r' log]. simpl in Ht.
    destruct Ht as [-> Hr']. cbn [absorb_all].
    match goal with
    | |- context [frames clock ?k1] =>
        destruct (IH k1) as (I1 & I2 & I3 & I4);
        [intros r0 H0; simpl in H0; inversion H0; subst; exact Hr'|];
        destruct (frames clock k1) as [k2 eff2]
    end.
    simpl in *. subst eff2. repeat split; assumption.
  - destruct (IH k) as (I1 & I2 & I3 & I4);
      [intros r0 H0; congruence|].
    destruct (frames clock k) as [k2 eff2].
    simpl in *. subst eff2. repeat split; assumption.
Qed.

(** X28: [clear] ends whatever the hook was doing.  Provided no recorder
    or replayer the hook has already let go of is still active, after
    [clear] the hook is idle with an empty recording, a zero count and
    nothing held, and from then on neither what happens on the page nor
    any animation frame has an effect: nothing more is recorded and no
    further event is dispatched, also when [clear] interrupts a replay
    that has a frame pending. *)
Theorem clear_cancels_recording_and_replay
  (k : Hook) (inputs : list Input) (clock : list Q) :
  settled k ->
  let cleared := fst (clear k) in
  mode cleared = idle
  /\ InteractiveMode.events cleared = []
  /\ eventCount cleared = 0%nat
  /\ replayProgress cleared = None
  /\ recorderRef cleared = false
  /\ replayerRef cleared = false
  /\ updateIntervalRef cleared = false
  /\ snd (on_inputs inputs cleared) = []
  /\ eventCount (fst (on_inputs inputs cleared)) = 0%nat
  /\ snd (frames clock cleared) = []
  /\ mode (fst (frames clock cleared)) = idle
  /\ InteractiveMode.events (fst (frames clock cleared)) = [].
Proof.
  intros [Hrec Hrep] cleared.
  assert (Hr : forall r, recorder cleared = Some r ->
                         OverlayRecorder.isRecording r = false).
  { subst cleared. unfold clear. cbn [fst recorder]. intros r H.
    destruct (recorderRef k) eqn:Eref.
    - destruct (recorder k) as [r0|]; [|discriminate].
      simpl in H. inversion H. apply overlay_stop_not_recording.
    - now apply Hrec. }
  assert (Hp : forall r, replayer cleared = Some r ->
                         EventReplayer.isPlaying r = false).
  { subst cleared. unfold clear. cbn [fst replayer]. intros r H.
    destruct (replayerRef k) eqn:Eref.
    - destruct (replayer k) as [r0|]; [|discriminate].
      simpl in H. inversion H. reflexivity.
    - now apply Hrep. }
  destruct (@on_inputs_idle inputs cleared Hr) as (I1 & _ & _ & I4).
  destruct (@frames_idle clock cleared Hp) as (F1 & F2 & F3 & _).
  repeat (split; [reflexivity|]).
  split; [exact I1|]. split; [exact I4|]. split; [exact F1|].
  split; [exact F2|exact F3].
Qed.

(** Clearing in the middle of the two-click replay: the frame at 300 ms,
    which would have dispatched the second click, does nothing. *)
Lemma clear_cancels_recording_and_replay_witness :
  snd (frames [300]
         (fst (clear (fst (replay (Some EventReplayer.same_origin) 0 0
                             two_clicks_recorded)))))
  = [].
Proof.
  assert (S : settled (fst (replay (Some EventReplayer.same_origin) 0 0
                              two_clicks_recorded))).
  { split; intros r Hr Href; vm_compute in Href; discriminate. }
  pose proof (@clear_cancels_recording_and_replay _ [] [300] S) as H.
  cbv zeta in H.
  destruct H as (_ & _ & _ & _ & _ & _ & _ & _ & _ & H & _). exact H.
Defined.

End InteractiveClearFacts.

(* ===================================================================== *)
(** * Further properties: the duration display                            *)
(* ===================================================================== *)

Section InteractiveControlsFacts.

Import InteractiveControls.
Local Open Scope Q_scope.

Lemma floor_bounds (q : Q) :
  inject_Z (Qfloor q) <= q /\ q < inject_Z (Qfloor q) + 1.
Proof.
  split; [apply Qfloor_le|].
  pose proof (Qlt_floor q) as H. rewrite inject_Z_plus in H. exact H.
Qed.

Lemma remainder_nonneg (ms : Q) :
  0 <= ms -> remainder ms 1000 == ms - 1000 * inject_Z (Qfloor (ms / 1000)).
Proof.
  intro H. unfold remainder, truncate.
  assert (Hq : 0 <= ms / 1000).
  { apply Qle_shift_div_l; [reflexivity|]. lra. }
  apply Qle_bool_iff in Hq. rewrite Hq. reflexivity.
Qed.

(** X29: the duration shown next to the event count is cut, not rounded,
    to tenths of a second.  For a duration [ms >= 0] the text is the whole
    seconds, a dot, one digit of tenths and the letter s, and the value
    shown is the largest multiple of 100 ms that does not exceed [ms]. *)
Theorem formatDuration_truncates_to_tenths (ms : Q) :
  0 <= ms ->
  exists seconds tenths : Z,
    formatDuration ms
    = String.append (number_to_string seconds)
        (String.append "." (String.append (number_to_string tenths) "s"))
    /\ (0 <= seconds)%Z /\ (0 <= tenths <= 9)%Z
    /\ String.length (number_to_string tenths) = 1%nat
    /\ inject_Z (1000 * seconds + 100 * tenths) <= ms
    /\ ms < inject_Z (1000 * seconds + 100 * tenths + 100).
Proof.
  intro Hms.
  exists (Qfloor (ms / 1000)), (Qfloor (remainder ms 1000 / 100)).
  split; [reflexivity|].
  pose proof (remainder_nonneg Hms) as Hrem.
  destruct (floor_bounds (ms / 1000)) as [S1 S2].
  destruct (floor_bounds (remainder ms 1000 / 100)) as [T1 T2].
  set (s := Qfloor (ms / 1000)) in *.
  set (t := Qfloor (remainder ms 1000 / 100)) in *.
  assert (Hdiv : ms / 1000 == ms * (1 # 1000)) by (unfold Qdiv; reflexivity).
  assert (Hdiv' : remainder ms 1000 / 100 == remainder ms 1000 * (1 # 100))
    by (unfold Qdiv; reflexivity).
  rewrite Hdiv in S1, S2. rewrite Hdiv', Hrem in T1, T2.
  fold s in T1, T2.
  assert (Hs : (0 <= s)%Z).
  { subst s. change 0%Z with (Qfloor 0). apply Qfloor_resp_le.
    rewrite Hdiv. lra. }
  assert (Ht : (0 <= t <= 9)%Z).
  { split.
    - subst t. change 0%Z with (Qfloor 0). apply Qfloor_resp_le.
      rewrite Hdiv', Hrem. fold s. lra.
    - assert (inject_Z t < inject_Z 10) by (change (inject_Z 10) with 10; lra).
      rewrite <- Zlt_Qlt in H. lia. }
  split; [exact Hs|]. split; [exact Ht|]. split.
  - assert (Hcases : (t = 0 \/ t = 1 \/ t = 2 \/ t = 3 \/ t = 4 \/ t = 5
                      \/ t = 6 \/ t = 7 \/ t = 8 \/ t = 9)%Z) by lia.
    clearbody t.
    destruct Hcases as [->|[->|[->|[->|[->|[->|[->|[->|[->| ->]]]]]]]]];
      reflexivity.
  - rewrite !inject_Z_plus, !inject_Z_mult.
    change (inject_Z 1000) with 1000. change (inject_Z 100) with 100.
    split; lra.
Qed.

(** One and a quarter seconds read 1.2s. *)
Lemma formatDuration_truncates_to_tenths_witness :
  exists seconds tenths : Z,
    formatDuration 1250
    = String.append (number_to_string seconds)
        (String.append "." (String.append (number_to_string tenths) "s"))
    /\ (0 <= seconds)%Z /\ (0 <= tenths <= 9)%Z
    /\ String.length (number_to_string tenths) = 1%nat
    /\ inject_Z (1000 * seconds + 100 * tenths) <= 1250
    /\ 1250 < inject_Z (1000 * seconds + 100 * tenths + 100).
Proof.
  apply (@formatDuration_truncates_to_tenths 1250). discriminate.
Defined.

Example formatDuration_samples :
  formatDuration 1250 = "1.2s"%string
  /\ formatDuration (19999 # 10) = "1.9s"%string
  /\ formatDuration 0 = "0.0s"%string.
Proof. repeat split; vm_compute; reflexivity. Qed.

End InteractiveControlsFacts.
